(** * Signature armor and keyring resolution of ichi-sign and kurv

    A shallow embedding of the two signing tools of the repository,
    [ichi-sign.c] and [kurv.c], and the properties of their armor codec,
    keyring scan, key loader and secret wiping.

    Conventions of the embedding:
    - a C buffer is a [list byte]; a [size_t] or an [int] is a [Z];
    - a pointer into a buffer is the buffer together with a [Z] offset, and
      every read through such a pointer is bounds checked ([mem_read]): a read
      outside the buffer, a region handed to [fread] that ends past the
      allocation, or a library call on a NULL or closed stream, is the
      outcome [Undef];
    - a [FILE*] opened for reading is a [FILE] value (pending bytes and the two
      stdio indicators), one opened for writing an [OFILE];
    - the base64 codec and the monocypher primitives, which are not part of
      the sources, are interfaces ([Base64], [Monocypher]). *)

From Stdlib Require Import String Ascii ZArith Lia Bool List.
From Stdlib Require Import Strings.Byte.
Import ListNotations.
Local Open Scope Z_scope.

(** ** The C runtime the programs rely on *)

Module Libc.

Definition bytes := list byte.

(** Text of a C string literal, without its terminating NUL. *)
Definition txt (s : string) : bytes := list_byte_of_string s.

Definition NL : byte := x0a.

(** [strlen], [sizeof] of an array: the length as a [size_t]. *)
Definition len {A : Type} (l : list A) : Z := Z.of_nat (length l).

(** The first [n] elements, and what follows them; [n] is a [size_t]. *)
Fixpoint take {A : Type} (n : Z) (l : list A) : list A :=
  match l with
  | [] => []
  | x :: t => if n <=? 0 then [] else x :: take (n - 1) t
  end.

Fixpoint drop {A : Type} (n : Z) (l : list A) : list A :=
  match l with
  | [] => []
  | x :: t => if n <=? 0 then l else drop (n - 1) t
  end.

(** Outcomes of code that may step outside what C defines. *)
Inductive fault : Type :=
| OutOfBounds   (* an access outside the object the pointer points into *)
| NullStream    (* a library call on a NULL stream pointer *)
| ClosedStream. (* a library call on a stream that has been closed *)

Inductive res (A : Type) : Type :=
| Ret (a : A)
| Undef (f : fault).
Arguments Ret {A} a.
Arguments Undef {A} f.

Definition bind {A B : Type} (m : res A) (k : A -> res B) : res B :=
  match m with
  | Ret a => k a
  | Undef f => Undef f
  end.

(** [mem_read buf off n]: the [n] bytes at [buf + off], when they all lie
    inside [buf]. *)
Definition mem_read (buf : bytes) (off n : Z) : res bytes :=
  if (0 <=? off) && (0 <=? n) && (off + n <=? len buf)
  then Ret (take n (drop off buf))
  else Undef OutOfBounds.

(** [memcmp] on two regions of the same size: the sign of the first
    difference. *)
Fixpoint memcmp (a b : bytes) : Z :=
  match a, b with
  | x :: a', y :: b' =>
      if Byte.eqb x y then memcmp a' b'
      else if (Byte.to_N x <? Byte.to_N y)%N then -1 else 1
  | _, _ => 0
  end.

(** [strcmp] on two C strings. *)
Fixpoint strcmp (a b : bytes) : Z :=
  match a, b with
  | [], [] => 0
  | [], _ :: _ => -1
  | _ :: _, [] => 1
  | x :: a', y :: b' =>
      if Byte.eqb x y then strcmp a' b'
      else if (Byte.to_N x <? Byte.to_N y)%N then -1 else 1
  end.

(** [s[i]] for a C string: the terminating NUL sits at index [strlen s]. *)
Definition char_at (s : bytes) (i : Z) : byte :=
  nth (Z.to_nat i) s x00.

(** Modelled from the spec: [crypto_wipe] of monocypher, which is not part
    of the sources.  Section 5: wiped means overwritten with zeros.
    [crypto_wipe(buf, sizeof buf)] makes every byte of [buf] zero. *)
Definition crypto_wipe (buf : bytes) : bytes := repeat x00 (length buf).

(** The contents of an automatic array before its first write, where they
    do not matter: the programs never read such an array before writing it.
    Where the old contents of an array can reach a later read (a buffer
    reused by a loop), or can tell whether the function wiped it, the array
    is an explicit argument instead. *)
Definition fresh (n : nat) : bytes := repeat x00 n.

(** A stream opened for reading.  [f_broken] says how the device behaves once
    [f_pending] is exhausted: it reports an error instead of end of file. *)
Record FILE : Type := mkFILE {
  f_pending : bytes;
  f_broken : bool;
  f_eof : bool;
  f_error : bool
}.

Definition feof (fp : FILE) : bool := f_eof fp.
Definition ferror (fp : FILE) : bool := f_error fp.

(** A file just opened on [data]. *)
Definition fopen_on (data : bytes) : FILE := mkFILE data false false false.

(** [fread(buf, 1, n, fp)]: the bytes obtained (their number is the return
    value) and the stream afterwards.  A short count sets the end-of-file or
    the error indicator. *)
Definition fread (n : Z) (fp : FILE) : bytes * FILE :=
  let got := take n (f_pending fp) in
  let rest := drop n (f_pending fp) in
  if len got <? n
  then (got, mkFILE rest (f_broken fp)
                    (if f_broken fp then f_eof fp else true)
                    (if f_broken fp then true else f_error fp))
  else (got, mkFILE rest (f_broken fp) (f_eof fp) (f_error fp)).

(** A stream opened for writing: what has been written, and whether the
    device still accepts data. *)
Record OFILE : Type := mkOFILE {
  o_data : bytes;
  o_ok : bool
}.

(** [fwrite(buf, 1, n, fp)]: the count written and the stream afterwards. *)
Definition fwrite (buf : bytes) (n : Z) (fp : OFILE) : Z * OFILE :=
  if o_ok fp
  then (len (take n buf), mkOFILE (o_data fp ++ take n buf) true)
  else (0, fp).

(** The standard error stream: one entry per diagnostic. *)
Definition log := list bytes.

(** An entry of a directory: its name, and the contents a read-only open of
    it gives ([None] when it cannot be opened). *)
Record dirent : Type := mkdirent {
  d_name : bytes;
  d_contents : option bytes
}.

(** An open directory stream: the entries [readdir] will return, in order. *)
Definition DIR := list dirent.

(** What the process sees of its surroundings. *)
Record world : Type := mkworld {
  getenv : bytes -> option bytes;
  opendir : bytes -> option DIR;
  fopen_r : bytes -> option bytes
}.

(** [dirfd(dir)]: the descriptor of an open directory stream, which is not
    negative (3 stands for it); the call dereferences [dir], so it is
    undefined on the NULL that a failed [opendir] returns. *)
Definition dirfd (dir : option DIR) : res Z :=
  match dir with
  | Some _ => Ret 3
  | None => Undef NullStream
  end.

(** [read(fd, buf, n)] on a file just opened: the bytes obtained. *)
Definition read (contents : bytes) (n : Z) : bytes := take n contents.

(** Storing [data] at the start of [buf]. *)
Definition store (data buf : bytes) : bytes :=
  data ++ drop (len data) buf.

(** [memcpy(buf + off, data, n)], or a single store through [buf + off]:
    [data] replaces the bytes at [off], which must all lie inside [buf]. *)
Definition mem_write (buf : bytes) (off : Z) (data : bytes) : res bytes :=
  if (0 <=? off) && (off + len data <=? len buf)
  then Ret (take off buf ++ data ++ drop (off + len data) buf)
  else Undef OutOfBounds.

(** The array that holds the C string [s]: its text and the terminating
    NUL. *)
Definition cstring (s : bytes) : bytes := s ++ [x00].

(** The C string that the array [buf] holds: the bytes before the first
    NUL. *)
Fixpoint cstr (buf : bytes) : bytes :=
  match buf with
  | [] => []
  | x :: t => if Byte.eqb x x00 then [] else x :: cstr t
  end.

(** A text given line by line, each line ended by a newline. *)
Definition lines (l : list string) : bytes :=
  flat_map (fun s => txt s ++ [NL]) l.

(** [calloc(n, 1)], taken to succeed. *)
Definition calloc (n : Z) : bytes := repeat x00 (Z.to_nat n).

(** [fread(buf + off, 1, n, fp)] where [buf] is an allocation of [size]
    bytes.  The library is handed the [n] bytes at [buf + off] to fill, so
    the whole region must lie inside the allocation, whatever count the call
    then returns. *)
Definition fread_into (size off n : Z) (fp : FILE) : res (bytes * FILE) :=
  if (0 <=? off) && (off + n <=? size) then Ret (fread n fp)
  else Undef OutOfBounds.

(** [fwrite(buf, 1, n, fp)] on a stream that has just been opened on a file.
    Such a stream is fully buffered: the few bytes written to it are stored
    in its buffer and the call returns their count, whatever the device
    does; the device is reached when the stream is flushed.  [o_ok] is what
    the device will do then. *)
Definition fwrite_buffered (buf : bytes) (n : Z) (fp : OFILE) : Z * OFILE :=
  (len (take n buf), mkOFILE (o_data fp ++ take n buf) (o_ok fp)).

(** What the file holds once such a stream has been flushed, by [fclose] or
    by [exit]: the buffer, when the device accepts it.  Whether the flush
    succeeded is not looked at. *)
Definition flushed (fp : OFILE) : OFILE :=
  if o_ok fp then fp else mkOFILE [] false.

(** The permission bits of [sys/stat.h]. *)
Definition S_IRUSR : Z := 256.
Definition S_IWUSR : Z := 128.
Definition S_IRGRP : Z := 32.
Definition S_IROTH : Z := 4.

(** A file the process has created: its path, the mode it was created with,
    and the stream written to it. *)
Record created : Type := mkcreated {
  c_path : bytes;
  c_mode : Z;
  c_stream : OFILE
}.

End Libc.
Export Libc.

(** ** The external capabilities *)

(** [base64/base64.h].  A C function taking [(input, input_size)] takes here
    the [input_size] bytes themselves. *)
Class Base64 : Type := {
  b64_encoded_size : Z -> Z;
  b64_decoded_size : bytes -> Z;
  b64_validate : bytes -> Z;
  b64_encode : bytes -> bytes;
  b64_decode : bytes -> bytes
}.

(** [monocypher/monocypher.h], the three calls the programs make. *)
Class Monocypher : Type := {
  crypto_sign_public_key : bytes -> bytes;
  (* secret key, public key, message *)
  crypto_sign : bytes -> bytes -> bytes -> bytes;
  (* signature, public key, message; 0 when the signature is good *)
  crypto_check : bytes -> bytes -> bytes -> Z
}.

(** The test both programs make before decoding an encoded text: it is
    refused when [b64_validate] fails or the decoded size is not [size]. *)
Definition b64_bad {B64 : Base64} (b64 : bytes) (size : Z) : bool :=
  negb (b64_validate b64 =? 0) || negb (b64_decoded_size b64 =? size).

(** ** ichi-sign.c *)

Module Ichi.

Definition BUF_SIZE : Z := 64 * 1024.
Definition B64_KEY_SIZE : Z := 44.
Definition B64_SIG_SIZE : Z := 88.
Definition SIG_ARMOR_TOP : bytes := NL :: txt "----BEGIN ICHI SIGNATURE----" ++ [NL].
Definition SIG_ARMOR_END : bytes := NL :: txt "---- END ICHI SIGNATURE ----" ++ [NL].

(** Modelled from the spec: [_err] of utils.c, which is not part of the
    sources.  Section 7: an error is reported to the user.  [ERR(...)] puts
    one diagnostic, the formatted message, on standard error. *)
Definition ERR (err : log) (msg : bytes) : log := err ++ [msg].

(** Modelled from the spec: [_read] of utils.c, which is not part of the
    sources.  Section 4.2: read exactly the requested number of bytes, a short
    read is an I/O error; the same contract as [read_exactly] of kurv.c.
    Returns the status, the bytes stored in the buffer and the stream. *)
Definition _read (fp : FILE) (n : Z) : Z * bytes * FILE :=
  let (got, fp') := fread n fp in
  if len got =? n then (0, got, fp') else (1, got, fp').

(** Modelled from the spec: [_write] of utils.c, which is not part of the
    sources.  Section 7: a write failure is an I/O error; non-zero unless all
    [n] bytes were written. *)
Definition _write (fp : OFILE) (buf : bytes) (n : Z) : Z * OFILE :=
  let (k, fp') := fwrite buf n fp in
  if k =? n then (0, fp') else (1, fp').

(** [XWRITE(fp, buf, n)] followed by the rest [k] of the function; on failure
    control goes to the [error] label with [rv] still 1. *)
Definition XWRITE (fp : OFILE) (buf : bytes) (n : Z) (err : log)
    (k : OFILE -> Z * OFILE * log) : Z * OFILE * log :=
  let (r, fp') := _write fp buf n in
  if r =? 0 then k fp' else (1, fp', ERR err (txt "fwrite()")).

Record sign_ctx : Type := mk_sign_ctx {
  s_input : FILE;
  s_output : OFILE;
  s_sk : bytes;
  s_detached : bool
}.

Record verify_ctx : Type := mk_verify_ctx {
  v_input : FILE;
  v_output : OFILE;
  v_sig : option FILE;      (* NULL unless -s was given *)
  v_pk_fn : bytes;
  v_pk : bytes;
  v_detached : bool;
  v_keyring : bool;
  v_stream_output : bool
}.

Section Code.
Context {B64 : Base64} {MC : Monocypher}.

(** The loop of [fp_to_buf].  [buf] holds the [total] bytes read so far and
    [size] is the allocated capacity; allocation is taken to succeed.  Every
    turn that does not end the loop consumes [BUF_SIZE] bytes, so one unit of
    fuel per pending byte, plus one, is enough; [None] is fuel running out. *)
Fixpoint fp_to_buf_loop (fuel : nat) (fp : FILE) (buf : bytes) (total size : Z)
    (err : log) : option (option (bytes * Z) * log) :=
  match fuel with
  | O => None
  | S fuel' =>
      let (got, fp1) := fread BUF_SIZE fp in
      let buf1 := buf ++ got in
      let total1 := total + len got in
      if ferror fp1 then Some (None, ERR err (txt "fread()"))
      else if feof fp1 then Some (Some (buf1, total1), err)
      else
        let size1 := if total1 + BUF_SIZE >? size then size + BUF_SIZE else size in
        fp_to_buf_loop fuel' fp1 buf1 total1 size1 err
  end.

(** [fp_to_buf(fp, &buf_size)]: the buffer and its size, or NULL. *)
Definition fp_to_buf (fp : FILE) (err : log) : option (bytes * Z) * log :=
  match fp_to_buf_loop (S (length (f_pending fp))) fp [] 0 BUF_SIZE err with
  | Some r => r
  | None => (None, err)
  end.

(** Lines 124-135 of [sign]: encode the signature and write the output. *)
Definition sign_output (out : OFILE) (detached : bool) (msg : bytes)
    (msg_size : Z) (sig : bytes) (err : log) : Z * OFILE * log :=
  let b64_sig := store (b64_encode (take 64 sig)) (fresh 88) in
  if detached then
    XWRITE out b64_sig B64_SIG_SIZE err (fun out => (0, out, err))
  else
    XWRITE out msg msg_size err (fun out =>
    XWRITE out SIG_ARMOR_TOP (len SIG_ARMOR_TOP) err (fun out =>
    XWRITE out b64_sig 44 err (fun out =>
    XWRITE out [NL] 1 err (fun out =>
    XWRITE out (drop 44 b64_sig) 44 err (fun out =>
    XWRITE out SIG_ARMOR_END (len SIG_ARMOR_END) err (fun out =>
    (0, out, err))))))).

Definition sign (ctx : sign_ctx) (err : log) : Z * OFILE * log :=
  match fp_to_buf (s_input ctx) err with
  | (None, err1) => (1, s_output ctx, err1)
  | (Some (msg, msg_size), err1) =>
      let pk := crypto_sign_public_key (s_sk ctx) in
      let sig := crypto_sign (s_sk ctx) pk (take msg_size msg) in
      sign_output (s_output ctx) (s_detached ctx) msg msg_size sig err1
  end.

(** [sig_from_file(fp, sig)]: status, [sig], the stream and the log. *)
Definition sig_from_file (fp : FILE) (sig : bytes) (err : log)
    : Z * bytes * FILE * log :=
  let '(r, b64_sig, fp') := _read fp B64_SIG_SIZE in
  if negb (r =? 0) then (1, sig, fp', ERR err (txt "fread()"))
  else if b64_bad (take B64_SIG_SIZE b64_sig) 64
  then (1, sig, fp', ERR err (txt "malformed signature"))
  else (0, b64_decode (take B64_SIG_SIZE b64_sig), fp', err).

(** [sig_from_buf(sig, &new_buf_size, buf, buf_size)]: status and the two
    out-parameters.  The pointers [TOP_PTR], [SIG_PTR] and [END_PTR] are
    offsets into [buf]. *)
Definition sig_from_buf (sig : bytes) (new_buf_size : Z) (buf : bytes)
    (buf_size : Z) : res (Z * bytes * Z) :=
  let TOP_SZ := len SIG_ARMOR_TOP in
  let SIG_SZ := B64_SIG_SIZE + 1 in
  let END_SZ := len SIG_ARMOR_END in
  let TOTAL_SZ := TOP_SZ + SIG_SZ + END_SZ in
  let TOP_PTR := buf_size - TOTAL_SZ in
  let SIG_PTR := TOP_PTR + TOP_SZ in
  let END_PTR := SIG_PTR + SIG_SZ in
  if buf_size <? TOTAL_SZ then Ret (-1, sig, new_buf_size) else
  bind (mem_read buf TOP_PTR TOP_SZ) (fun top =>
  if negb (memcmp top SIG_ARMOR_TOP =? 0) then Ret (-1, sig, new_buf_size) else
  bind (mem_read buf END_PTR END_SZ) (fun bot =>
  if negb (memcmp bot SIG_ARMOR_END =? 0) then Ret (-1, sig, new_buf_size) else
  bind (mem_read buf (SIG_PTR + 44) 1) (fun sep =>
  if negb (Byte.eqb (nth 0 sep x00) NL) then Ret (-1, sig, new_buf_size) else
  bind (mem_read buf SIG_PTR 44) (fun half1 =>
  bind (mem_read buf (SIG_PTR + 45) 44) (fun half2 =>
  let b64_sig := half1 ++ half2 in
  if b64_bad (take B64_SIG_SIZE b64_sig) 64 then Ret (-1, sig, new_buf_size)
  else Ret (0, b64_decode (take B64_SIG_SIZE b64_sig), buf_size - TOTAL_SZ)))))).

(** Lines 215-224 of [verify], the explicit-key branch: check against
    [ctx.pk]. *)
Definition verify_pk (ctx : verify_ctx) (msg : bytes) (msg_size : Z)
    (sig : bytes) (err : log) : Z * OFILE * log :=
  if negb (crypto_check sig (v_pk ctx) (take msg_size msg) =? 0)
  then (1, v_output ctx, ERR err (txt "invalid signature"))
  else
    let good := txt "good signature by '" ++ v_pk_fn ctx ++ txt "'" in
    if v_stream_output ctx
    then XWRITE (v_output ctx) msg msg_size err (fun out =>
           (0, out, ERR err good))
    else (0, v_output ctx, ERR err good).

(** The test on [entry->d_name] at lines 252-253. *)
Definition is_candidate (name : bytes) : bool :=
  (9 <=? len name)
  && (strcmp (drop (len name - 9) name) (txt ".sign.pub") =? 0).

(** The diagnostic naming the key that matched (lines 266-269).  The
    character tested is the one at index [strlen(keyring_dir)]. *)
Definition good_signature_by (keyring_dir name : bytes) : bytes :=
  txt "good signature by '" ++ keyring_dir
  ++ (if Byte.eqb (char_at keyring_dir (len keyring_dir)) x2f
      then [] else txt "/")
  ++ name ++ txt "'".

(** Lines 250-276 of [verify_keyring]: the [readdir] loop.  [b64_pk] is the
    buffer the loop reuses for every candidate. *)
Fixpoint keyring_scan (ctx : verify_ctx) (keyring_dir : bytes) (msg : bytes)
    (msg_size : Z) (sig : bytes) (dir : DIR) (b64_pk : bytes) (err : log)
    : Z * OFILE * log :=
  match dir with
  | [] => (1, v_output ctx, err)
  | entry :: rest =>
      if is_candidate (d_name entry) then
        match d_contents entry with
        | None => keyring_scan ctx keyring_dir msg msg_size sig rest b64_pk err
        | Some contents =>
            let got := read contents B64_KEY_SIZE in
            let b64_pk1 := store got b64_pk in
            if (len got <? B64_KEY_SIZE)
               || b64_bad (take B64_KEY_SIZE b64_pk1) 32
            then keyring_scan ctx keyring_dir msg msg_size sig rest b64_pk1 err
            else
              let pk := b64_decode (take B64_KEY_SIZE b64_pk1) in
              if crypto_check sig pk (take msg_size msg) =? 0 then
                let err1 :=
                  ERR err (good_signature_by keyring_dir (d_name entry)) in
                if v_stream_output ctx
                then XWRITE (v_output ctx) msg msg_size err1 (fun out =>
                       (0, out, err1))
                else (0, v_output ctx, err1)
              else
                keyring_scan ctx keyring_dir msg msg_size sig rest b64_pk1 err
        end
      else keyring_scan ctx keyring_dir msg msg_size sig rest b64_pk err
  end.

(** [verify_keyring].  [dirfd] is applied to what [opendir] returned before
    any test of it (lines 242-243). *)
Definition verify_keyring (w : world) (ctx : verify_ctx) (msg : bytes)
    (msg_size : Z) (sig : bytes) (err : log) : res (Z * OFILE * log) :=
  match getenv w (txt "ICHI_SIGN_KEYRING") with
  | None => Ret (1, v_output ctx, ERR err (txt "$ICHI_SIGN_KEYRING is unset"))
  | Some keyring_dir =>
      let dir := opendir w keyring_dir in
      bind (dirfd dir) (fun dir_fd =>
      if dir_fd <? 0 then Ret (1, v_output ctx, ERR err (txt "dirfd()"))
      else
        match dir with
        | None => Undef NullStream
        | Some entries =>
            Ret (keyring_scan ctx keyring_dir msg msg_size sig entries
                   (fresh 44) err)
        end)
  end.

(** Lines 215-224 of [verify]: resolve trust for the message and signature
    obtained. *)
Definition verify_resolve (w : world) (ctx : verify_ctx) (msg : bytes)
    (msg_size : Z) (sig : bytes) (err : log) : res (Z * OFILE * log) :=
  if v_keyring ctx
  then verify_keyring w ctx msg msg_size sig err
  else Ret (verify_pk ctx msg msg_size sig err).

Definition verify (w : world) (ctx : verify_ctx) (err : log)
    : res (Z * OFILE * log) :=
  match fp_to_buf (v_input ctx) err with
  | (None, err1) => Ret (1, v_output ctx, err1)
  | (Some (msg, msg_size), err1) =>
      let sig := fresh 64 in
      if v_detached ctx then
        match v_sig ctx with
        | None => Undef NullStream
        | Some sfp =>
            let '(r, sig1, _, err2) := sig_from_file sfp sig err1 in
            if negb (r =? 0) then Ret (1, v_output ctx, err2)
            else verify_resolve w ctx msg msg_size sig1 err2
        end
      else
        bind (sig_from_buf sig msg_size msg msg_size) (fun '(r, sig1, msg_size1) =>
        if negb (r =? 0)
        then Ret (1, v_output ctx, ERR err1 (txt "malformed signature"))
        else verify_resolve w ctx msg msg_size1 sig1 err1)
  end.

Definition trim (input : FILE) (output : OFILE) (err : log)
    : res (Z * OFILE * log) :=
  match fp_to_buf input err with
  | (None, err1) => Ret (1, output, err1)
  | (Some (msg, msg_size), err1) =>
      let tmp := fresh 64 in
      bind (sig_from_buf tmp msg_size msg msg_size) (fun '(r, _, msg_size1) =>
      if negb (r =? 0)
      then Ret (1, output, ERR err1 (txt "malformed signature"))
      else Ret (XWRITE output msg msg_size1 err1 (fun out => (0, out, err1))))
  end.

(** [read_key_from_file(fn, key)].  [b64_key] is the local array as the
    function finds it; the result gives the status, [key], the array as the
    function leaves it on return, and the log. *)
Definition read_key_from_file (w : world) (fn : bytes) (key : bytes)
    (b64_key : bytes) (err : log) : Z * bytes * bytes * log :=
  match fopen_r w fn with
  | None => (1, key, crypto_wipe b64_key, ERR err (txt "fopen()"))
  | Some contents =>
      let '(r, got, _) := _read (fopen_on contents) B64_KEY_SIZE in
      let b64_key1 := store got b64_key in
      if negb (r =? 0)
      then (1, key, crypto_wipe b64_key1, ERR err (txt "fread()"))
      else if b64_bad (take B64_KEY_SIZE b64_key1) 32
      then (1, key, crypto_wipe b64_key1, ERR err (txt "malformed key"))
      else (0, b64_decode (take B64_KEY_SIZE b64_key1),
            crypto_wipe b64_key1, err)
  end.

End Code.

(** *** [fp_to_buf] and its allocation *)

(** The loop of [fp_to_buf] with the allocation made explicit: [size] is the
    capacity that [malloc] and [realloc] have granted to [buf], and each
    [fread] is handed the [BUF_SIZE] bytes at [buf + total]. *)
Fixpoint fp_to_buf_loop_alloc (fuel : nat) (fp : FILE) (buf : bytes)
    (total size : Z) (err : log)
    : option (res (option (bytes * Z) * log)) :=
  match fuel with
  | O => None
  | S fuel' =>
      match fread_into size total BUF_SIZE fp with
      | Undef f => Some (Undef f)
      | Ret (got, fp1) =>
          let buf1 := buf ++ got in
          let total1 := total + len got in
          if ferror fp1 then Some (Ret (None, ERR err (txt "fread()")))
          else if feof fp1 then Some (Ret (Some (buf1, total1), err))
          else
            let size1 :=
              if total1 + BUF_SIZE >? size then size + BUF_SIZE else size in
            fp_to_buf_loop_alloc fuel' fp1 buf1 total1 size1 err
      end
  end.

Definition fp_to_buf_alloc (fp : FILE) (err : log)
    : res (option (bytes * Z) * log) :=
  match fp_to_buf_loop_alloc (S (length (f_pending fp))) fp [] 0 BUF_SIZE
          err with
  | Some r => r
  | None => Ret (None, err)
  end.

(** *** [main] *)

Definition HELP : bytes := lines [
  "usage:";
  "  ichi-sign -k SK [-d] [-o OUTPUT] [INPUT]";
  "  ichi-sign -V [-p PK] [-s SIG] [-x] [-o OUTPUT] [INPUT]";
  "";
  "options:";
  "  -o OUTPUT specify output file.";
  "  -k SK     uses the secret key at path SK to sign INPUT.";
  "  -d        produce a detached signature at OUTPUT.";
  "  -V        verify detached signature SIG or joined signature in INPUT.";
  "  -p PK     specify public key at path PK.";
  "  -s SIG    specify file for detached signature.";
  "  -x        print out contents if verification is successful.";
  "";
  "INPUT and OUTPUT default to stdin and stdout respectively.";
  "";
  "SK and PK can be generated by ichi-keygen.";
  "" ]%string.

Inductive action : Type :=
| ACTION_SIGN
| ACTION_VERIFY
| ACTION_TRIM.

(** The variables of [main] and the streams of the process.  [l_output] is
    the stream of the output file once [-o] has opened one; until then
    [output] is standard output.  [l_world] is what the process sees of its
    surroundings, which opening a file for writing changes. *)
Record locals : Type := mk_locals {
  l_world : world;
  l_stdout : OFILE;
  l_output : option OFILE;
  l_err : log;
  l_action : action;
  l_kflag : bool;
  l_sk : bytes;             (* sctx.sk *)
  l_sdetached : bool;       (* sctx.detached *)
  l_sig : option FILE;      (* vctx.sig *)
  l_vdetached : bool;       (* vctx.detached *)
  l_pk_fn : bytes;          (* vctx.pk_fn *)
  l_pk : bytes;             (* vctx.pk *)
  l_keyring : bool;         (* vctx.keyring *)
  l_stream_output : bool    (* vctx.stream_output *)
}.

(** The option loop either goes on with the next option or jumps to the
    [error] label with the value of [rv]. *)
Inductive flow : Type :=
| Next (s : locals)
| Error (rv : Z) (s : locals).

(** What [main] leaves behind: its return value, the two output streams, the
    diagnostics, and the array [sctx.sk] as the return finds it. *)
Record result : Type := mk_result {
  r_rv : Z;
  r_stdout : OFILE;
  r_output : option OFILE;
  r_err : log;
  r_sk : bytes
}.

Definition set_err (s : locals) (e : log) : locals :=
  mk_locals (l_world s) (l_stdout s) (l_output s) e (l_action s) (l_kflag s)
    (l_sk s) (l_sdetached s) (l_sig s) (l_vdetached s) (l_pk_fn s) (l_pk s)
    (l_keyring s) (l_stream_output s).

Definition set_stdout (s : locals) (o : OFILE) : locals :=
  mk_locals (l_world s) o (l_output s) (l_err s) (l_action s) (l_kflag s)
    (l_sk s) (l_sdetached s) (l_sig s) (l_vdetached s) (l_pk_fn s) (l_pk s)
    (l_keyring s) (l_stream_output s).

Definition set_output (s : locals) (o : option OFILE) (w : world) : locals :=
  mk_locals w (l_stdout s) o (l_err s) (l_action s) (l_kflag s)
    (l_sk s) (l_sdetached s) (l_sig s) (l_vdetached s) (l_pk_fn s) (l_pk s)
    (l_keyring s) (l_stream_output s).

Definition set_action (s : locals) (a : action) : locals :=
  mk_locals (l_world s) (l_stdout s) (l_output s) (l_err s) a (l_kflag s)
    (l_sk s) (l_sdetached s) (l_sig s) (l_vdetached s) (l_pk_fn s) (l_pk s)
    (l_keyring s) (l_stream_output s).

Definition set_sk (s : locals) (kflag : bool) (sk : bytes) : locals :=
  mk_locals (l_world s) (l_stdout s) (l_output s) (l_err s) (l_action s)
    kflag sk (l_sdetached s) (l_sig s) (l_vdetached s) (l_pk_fn s) (l_pk s)
    (l_keyring s) (l_stream_output s).

Definition set_sdetached (s : locals) (d : bool) : locals :=
  mk_locals (l_world s) (l_stdout s) (l_output s) (l_err s) (l_action s)
    (l_kflag s) (l_sk s) d (l_sig s) (l_vdetached s) (l_pk_fn s) (l_pk s)
    (l_keyring s) (l_stream_output s).

Definition set_sig (s : locals) (d : bool) (sig : option FILE) : locals :=
  mk_locals (l_world s) (l_stdout s) (l_output s) (l_err s) (l_action s)
    (l_kflag s) (l_sk s) (l_sdetached s) sig d (l_pk_fn s) (l_pk s)
    (l_keyring s) (l_stream_output s).

Definition set_pk (s : locals) (pk_fn pk : bytes) (keyring : bool) : locals :=
  mk_locals (l_world s) (l_stdout s) (l_output s) (l_err s) (l_action s)
    (l_kflag s) (l_sk s) (l_sdetached s) (l_sig s) (l_vdetached s) pk_fn pk
    keyring (l_stream_output s).

Definition set_stream_output (s : locals) (x : bool) : locals :=
  mk_locals (l_world s) (l_stdout s) (l_output s) (l_err s) (l_action s)
    (l_kflag s) (l_sk s) (l_sdetached s) (l_sig s) (l_vdetached s)
    (l_pk_fn s) (l_pk s) (l_keyring s) x.

(** The stream that [output] designates, and the locals once that stream
    has become [o]. *)
Definition output_of (s : locals) : OFILE :=
  match l_output s with
  | Some f => f
  | None => l_stdout s
  end.

Definition set_written (s : locals) (o : OFILE) : locals :=
  match l_output s with
  | Some _ => set_output s (Some o) (l_world s)
  | None => set_stdout s o
  end.

(** The [error] label (lines 422-427): the secret key is wiped and the
    streams are closed. *)
Definition leave (rv : Z) (s : locals) : result :=
  mk_result rv (l_stdout s) (l_output s) (l_err s) (crypto_wipe (l_sk s)).

Section Main.
Context {B64 : Base64} {MC : Monocypher}.

(** [fopen(path, "w")]: NULL, or the stream on the file created or
    truncated together with the surroundings as they are after that. *)
Variable fopen_w : world -> bytes -> option (OFILE * world).

(** One turn of the [getopt] loop (lines 348-392): [c] is what [getopt]
    returned and [optarg] the argument of the option. *)
Definition main_option (c : ascii) (optarg : bytes) (s : locals) : flow :=
  if Ascii.eqb c "h" then
    Error 0 (set_stdout s (snd (fwrite HELP (len HELP) (l_stdout s))))
  else if Ascii.eqb c "o" then
    match fopen_w (l_world s) optarg with
    | None =>
        Error 1 (set_err (set_output s None (l_world s))
                   (ERR (l_err s) (txt "fopen()")))
    | Some (f, w) => Next (set_output s (Some f) w)
    end
  else if Ascii.eqb c "k" then
    let '(r, sk, _, e) :=
      read_key_from_file (l_world s) optarg (l_sk s) (fresh 44) (l_err s) in
    if negb (r =? 0) then Error 1 (set_err (set_sk s true sk) e)
    else Next (set_err (set_sk s true sk) e)
  else if Ascii.eqb c "d" then Next (set_sdetached s true)
  else if Ascii.eqb c "V" then Next (set_action s ACTION_VERIFY)
  else if Ascii.eqb c "p" then
    let '(r, pk, _, e) :=
      read_key_from_file (l_world s) optarg (l_pk s) (fresh 44) (l_err s) in
    if negb (r =? 0)
    then Error 1 (set_err (set_pk s (l_pk_fn s) pk (l_keyring s)) e)
    else Next (set_err (set_pk s optarg pk false) e)
  else if Ascii.eqb c "s" then
    match fopen_r (l_world s) optarg with
    | None =>
        Error 1 (set_err (set_sig s true None) (ERR (l_err s) (txt "fopen()")))
    | Some contents => Next (set_sig s true (Some (fopen_on contents)))
    end
  else if Ascii.eqb c "x" then Next (set_stream_output s true)
  else if Ascii.eqb c "T" then Next (set_action s ACTION_TRIM)
  else Error 1 s.

(** The [getopt] loop over the options of the command line, in order. *)
Fixpoint main_options (opts : list (ascii * bytes)) (s : locals) : flow :=
  match opts with
  | [] => Next s
  | (c, optarg) :: rest =>
      match main_option c optarg s with
      | Next s1 => main_options rest s1
      | Error rv s1 => Error rv s1
      end
  end.

(** Lines 401-420: the action chosen is run on [input] and [output]. *)
Definition main_action (input : FILE) (s : locals) : res result :=
  match l_action s with
  | ACTION_SIGN =>
      if negb (l_kflag s)
      then Ret (leave 1 (set_err s (ERR (l_err s)
                                      (txt "no secret key specified"))))
      else
        let '(rv, out, e) :=
          sign (mk_sign_ctx input (output_of s) (l_sk s) (l_sdetached s))
            (l_err s) in
        Ret (leave rv (set_err (set_written s out) e))
  | ACTION_VERIFY =>
      bind (verify (l_world s)
              (mk_verify_ctx input (output_of s) (l_sig s) (l_pk_fn s)
                 (l_pk s) (l_vdetached s) (l_keyring s) (l_stream_output s))
              (l_err s))
        (fun '(rv, out, e) => Ret (leave rv (set_err (set_written s out) e)))
  | ACTION_TRIM =>
      bind (trim input (output_of s) (l_err s))
        (fun '(rv, out, e) => Ret (leave rv (set_err (set_written s out) e)))
  end.

(** [main].  The command line is given as [getopt] delivers it: the options
    in order, each with its argument, and then the operands
    [argv[optind]], ...; [getopt]'s own complaint about an option it does
    not know is not among the diagnostics. *)
Definition main (w : world) (stdin : FILE) (stdout : OFILE)
    (opts : list (ascii * bytes)) (operands : list bytes) : res result :=
  let s0 :=
    mk_locals w stdout None [] ACTION_SIGN false (fresh 32) false None false
      [] (fresh 32) true false in
  match main_options opts s0 with
  | Error rv s => Ret (leave rv s)
  | Next s =>
      match operands with
      | _ :: _ :: _ =>
          Ret (leave 1 (set_err s (ERR (l_err s) (txt "invalid usage"))))
      | [fn] =>
          match fopen_r (l_world s) fn with
          | None => Ret (leave 1 (set_err s (ERR (l_err s) (txt "fopen()"))))
          | Some contents => main_action (fopen_on contents) s
          end
      | [] => main_action stdin s
      end
  end.

End Main.
End Ichi.

(** ** kurv.c *)

Module Kurv.

Definition READ_SIZE : Z := 1024 * 4096.
Definition B64_KEY_SIZE : Z := 44.
Definition B64_SIG_SIZE : Z := 88.
Definition SIG_START : bytes := NL :: txt "----BEGIN KURV SIGNATURE----" ++ [NL].
Definition SIG_END : bytes := NL :: txt "----END KURV SIGNATURE----" ++ [NL].
Definition SIG_START_LEN : Z := len SIG_START.
Definition SIG_END_LEN : Z := len SIG_END.

(** The two standard streams of the process. *)
Record proc : Type := mkproc {
  stdout : OFILE;
  stderr : log
}.

(** A call either returns to its caller or ends the process. *)
Inductive run (A : Type) : Type :=
| Returns (a : A)
| Exits (code : Z).
Arguments Returns {A} a.
Arguments Exits {A} code.

Section Code.
Context {B64 : Base64} {MC : Monocypher}.

(** [err(prefix)]: a diagnostic on standard error. *)
Definition err (p : proc) (prefix : bytes) : proc :=
  mkproc (stdout p) (stderr p ++ [prefix]).

(** [die(...)] and [errdie(prefix)]: a diagnostic, then [exit(1)]. *)
Definition die {A : Type} (p : proc) (msg : bytes) : run A * proc :=
  (Exits 1, err p msg).

Definition errdie {A : Type} (p : proc) (prefix : bytes) : run A * proc :=
  (Exits 1, err p prefix).

(** Writing on standard output; the programs ignore the count. *)
Definition put (p : proc) (buf : bytes) (n : Z) : proc :=
  mkproc (snd (fwrite buf n (stdout p))) (stderr p).

(** [read_exactly(buf, n, fp)]: status, the buffer, the stream. *)
Definition read_exactly (buf : bytes) (n : Z) (fp : FILE) (p : proc)
    : Z * bytes * FILE * proc :=
  let (got, fp') := fread n fp in
  if negb (len got =? n)
  then (-1, store got buf, fp', err p (txt "kurv: fread"))
  else (0, store got buf, fp', p).

(** [decode_exactly(buf, bufsize, b64, b64size)]: status and [buf]. *)
Definition decode_exactly (buf : bytes) (bufsize : Z) (b64 : bytes)
    (b64size : Z) : Z * bytes :=
  if b64_bad (take b64size b64) bufsize
  then (-1, buf)
  else (0, b64_decode (take b64size b64)).

(** The [while] loop of [read_file]; allocation is taken to succeed.
    [size] is the capacity that [malloc] and [reallocarray] have granted to
    [buf], and each [fread] is handed the [READ_SIZE] bytes at
    [buf + total], which must lie inside it.  A turn that does not leave the
    loop consumes at least one byte; [None] is fuel running out. *)
Fixpoint read_file_loop (fuel : nat) (fp : FILE) (buf : bytes)
    (total size r : Z) : option (res (bytes * Z * FILE)) :=
  match fuel with
  | O => None
  | S fuel' =>
      if feof fp then Some (Ret (buf, total, fp))
      else
        match fread_into size total READ_SIZE fp with
        | Undef f => Some (Undef f)
        | Ret (got, fp1) =>
            let n := len got in
            if n >? 0 then
              let total1 := total + n in
              if size <=? total1
              then read_file_loop fuel' fp1 (buf ++ got) total1
                     (size + (r + 1) * READ_SIZE) (r + 1)
              else read_file_loop fuel' fp1 (buf ++ got) total1 size r
            else Some (Ret (buf, total, fp1))
        end
  end.

(** [read_file(fp, &bufsize)]: the buffer and its size, or NULL. *)
Definition read_file (fp : FILE) (p : proc)
    : res (option (bytes * Z) * proc) :=
  match read_file_loop (S (length (f_pending fp))) fp [] 0 READ_SIZE 0 with
  | Some (Ret (buf, total, fp')) =>
      if ferror fp' then Ret (None, err p (txt "kurv: fread"))
      else Ret (Some (buf, total), p)
  | Some (Undef f) => Undef f
  | None => Ret (None, p)
  end.

(** [find_signature(signature, buf, &bufsize)]: status and the two
    out-parameters. *)
Definition find_signature (signature : bytes) (buf : bytes) (bufsize : Z)
    : res (Z * bytes * Z) :=
  let start_size := SIG_START_LEN in
  let sig_size := B64_SIG_SIZE in
  let end_size := SIG_END_LEN in
  let total := start_size + sig_size + end_size in
  let size := bufsize in
  if size <? total then Ret (-1, signature, bufsize) else
  bind (mem_read buf (size - end_size) end_size) (fun bot =>
  if negb (memcmp SIG_END bot =? 0) then Ret (-1, signature, bufsize) else
  bind (mem_read buf (size - total) start_size) (fun top =>
  if negb (memcmp SIG_START top =? 0) then Ret (-1, signature, bufsize) else
  bind (mem_read buf (size - sig_size - end_size) sig_size) (fun b64_sig =>
  let (r, signature1) := decode_exactly signature 64 b64_sig B64_SIG_SIZE in
  if negb (r =? 0) then Ret (-1, signature1, bufsize)
  else Ret (0, signature1, size - total)))).

(** [find_key(key, buf, bufsize)]: status and [key]. *)
Definition find_key (key : bytes) (buf : bytes) (bufsize : Z) : Z * bytes :=
  if bufsize <? B64_KEY_SIZE then (-1, key)
  else
    let (r, key1) := decode_exactly key 32 buf B64_KEY_SIZE in
    if negb (r =? 0) then (-1, key1) else (0, key1).

(** [find_key_in_file(key, fp)].  [b64_key] is the local array as the
    function finds it; the result gives the status, [key], the stream, the
    array as the function leaves it on return, and the process. *)
Definition find_key_in_file (key : bytes) (fp : FILE) (b64_key : bytes)
    (p : proc) : Z * bytes * FILE * bytes * proc :=
  let '(r, b64_key1, fp1, p1) := read_exactly b64_key B64_KEY_SIZE fp p in
  if negb (r =? 0) then (-1, key, fp1, crypto_wipe b64_key1, p1)
  else
    let (r2, key1) := find_key key b64_key1 B64_KEY_SIZE in
    if negb (r2 =? 0) then (-1, key1, fp1, crypto_wipe b64_key1, p1)
    else (0, key1, fp1, b64_key1, p1).

(** [endswith(src, suffix)]: 0 when [src] ends with [suffix]. *)
Definition endswith (src suffix : bytes) : Z :=
  let src_size := len src in
  let suffix_size := len suffix in
  if src_size <? suffix_size then -1
  else memcmp (take suffix_size (drop (src_size - suffix_size) src)) suffix.

(** Lines 738-747 of [sign]: encode the signature and write the output. *)
Definition sign_output (msg : bytes) (msg_size : Z) (sig : bytes) (p : proc)
    : proc :=
  let b64_sig := store (b64_encode (take 64 sig)) (fresh 88) in
  let p := put p msg msg_size in
  let p := put p SIG_START SIG_START_LEN in
  let p := put p b64_sig B64_SIG_SIZE in
  put p SIG_END SIG_END_LEN.

(** [sign(fp, sk_fp)].  [sk] is the local array as the function finds it;
    the result gives the outcome, the process, and [sk] as the function
    leaves it. *)
Definition sign (fp sk_fp : FILE) (sk : bytes) (p : proc)
    : res (run Z * proc * bytes) :=
  let '(r, sk1, _, _, p1) := find_key_in_file sk sk_fp (fresh 44) p in
  if r =? -1 then Ret (die p1 (txt "invalid private key."), crypto_wipe sk1)
  else
    bind (read_file fp p1) (fun '(file, p2) =>
    match file with
    | None => Ret (errdie p2 (txt "cannot read file"), crypto_wipe sk1)
    | Some (msg, msg_size) =>
        let pk := crypto_sign_public_key sk1 in
        let sig := crypto_sign sk1 pk (take msg_size msg) in
        Ret (Returns 0, sign_output msg msg_size sig p2, crypto_wipe sk1)
    end).

(** The test on [dp->d_name] at lines 791-793: true when the entry is passed
    over. *)
Definition not_candidate (name : bytes) : bool :=
  (strcmp name (txt ".") =? 0)
  || (strcmp name (txt "..") =? 0)
  || negb (endswith name (txt ".pub") =? 0).

(** Lines 789-816 of [check_keyring]: the [readdir] loop.  [path] is the
    keyring directory with its trailing slash, to which each name is
    appended. *)
Fixpoint keyring_scan (w : world) (path : bytes) (msg : bytes) (msg_size : Z)
    (sig : bytes) (should_show_id should_show_og : bool) (dir : DIR)
    (p : proc) : run Z * proc :=
  match dir with
  | [] => die p (txt "cannot find a signer.")
  | dp :: rest =>
      if not_candidate (d_name dp)
      then keyring_scan w path msg msg_size sig should_show_id should_show_og
             rest p
      else
        match fopen_r w (path ++ d_name dp) with
        | None =>
            keyring_scan w path msg msg_size sig should_show_id should_show_og
              rest p
        | Some contents =>
            let '(r, pk, _, _, p1) :=
              find_key_in_file (fresh 32) (fopen_on contents) (fresh 44) p in
            if negb (r =? 0)
               || negb (crypto_check sig pk (take msg_size msg) =? 0)
            then keyring_scan w path msg msg_size sig should_show_id
                   should_show_og rest p1
            else
              let p2 := if should_show_id
                        then put p1 (d_name dp ++ [NL]) (len (d_name dp) + 1)
                        else p1 in
              let p3 := if should_show_og then put p2 msg msg_size else p2 in
              (Exits 0, p3)
        end
  end.

Definition check_keyring (w : world) (fp : FILE)
    (should_show_id should_show_og : bool) (p : proc)
    : res (run Z * proc) :=
  match getenv w (txt "KURV_KEYRING") with
  | None => Ret (die p (txt "$KURV_KEYRING is not set."))
  | Some keyring_dir =>
      let keyring_dir_len := len keyring_dir in
      if keyring_dir_len =? 0
      then Ret (die p (txt "$KURV_KEYRING is not set."))
      else
        bind (read_file fp p) (fun '(file, p1) =>
        match file with
        | None => Ret (die p1 (txt "error reading file."))
        | Some (msg, msg_size) =>
            bind (find_signature (fresh 64) msg msg_size)
              (fun '(r, sig, msg_size1) =>
            if r <? 0
            then Ret (die p1 (txt "cannot find / malformed signature."))
            else
              let path :=
                if negb (Byte.eqb (char_at keyring_dir (keyring_dir_len - 1))
                           x2f)
                then keyring_dir ++ txt "/" else keyring_dir in
              match opendir w keyring_dir with
              | None => Ret (errdie p1 (txt "opendir"))
              | Some dir =>
                  Ret (keyring_scan w path msg msg_size1 sig should_show_id
                         should_show_og dir p1)
              end)
        end)
  end.

Definition check (fp pk_fp : FILE) (pk_fn : bytes)
    (should_show_id should_show_og : bool) (p : proc)
    : res (run Z * proc) :=
  let '(r, pk, _, _, p1) := find_key_in_file (fresh 32) pk_fp (fresh 44) p in
  if r =? -1 then Ret (die p1 (txt "invalid public key."))
  else
    bind (read_file fp p1) (fun '(file, p2) =>
    match file with
    | None => Ret (die p2 (txt "error reading file."))
    | Some (msg, msg_size) =>
        bind (find_signature (fresh 64) msg msg_size)
          (fun '(r, sig, msg_size1) =>
        if r <? 0
        then Ret (die p2 (txt "cannot find / malformed signature."))
        else if negb (crypto_check sig pk (take msg_size1 msg) =? 0)
        then Ret (die p2 (txt "invalid signature."))
        else
          let p3 := if should_show_id
                    then put p2 (pk_fn ++ [NL]) (len pk_fn + 1) else p2 in
          let p4 := if should_show_og then put p3 msg msg_size1 else p3 in
          Ret (Returns 0, p4))
    end).

Definition detach (fp : FILE) (p : proc) : res (run Z * proc) :=
  bind (read_file fp p) (fun '(file, p1) =>
  match file with
  | None => Ret (die p1 (txt "error reading file."))
  | Some (msg, msg_size) =>
      bind (find_signature (fresh 64) msg msg_size)
        (fun '(r, _, msg_size1) =>
      if r <? 0
      then Ret (die p1 (txt "cannot find / malformed signature."))
      else Ret (Returns 0, put p1 msg msg_size1))
  end).

End Code.

(** *** [read_file] when the buffer has room *)

(** The loop of [read_file] with the test on the allocation left out: what
    the loop computes as long as every [fread] finds its [READ_SIZE] bytes
    inside [buf]. *)
Fixpoint read_file_loop_unchecked (fuel : nat) (fp : FILE) (buf : bytes)
    (total size r : Z) : option (bytes * Z * FILE) :=
  match fuel with
  | O => None
  | S fuel' =>
      if feof fp then Some (buf, total, fp)
      else
        let (got, fp1) := fread READ_SIZE fp in
        let n := len got in
        if n >? 0 then
          let total1 := total + n in
          if size <=? total1
          then read_file_loop_unchecked fuel' fp1 (buf ++ got) total1
                 (size + (r + 1) * READ_SIZE) (r + 1)
          else read_file_loop_unchecked fuel' fp1 (buf ++ got) total1 size r
        else Some (buf, total, fp1)
  end.

Definition read_file_unchecked (fp : FILE) (p : proc)
    : option (bytes * Z) * proc :=
  match read_file_loop_unchecked (S (length (f_pending fp))) fp [] 0
          READ_SIZE 0 with
  | Some (buf, total, fp') =>
      if ferror fp' then (None, err p (txt "kurv: fread"))
      else (Some (buf, total), p)
  | None => (None, p)
  end.

(** *** Key generation *)

(** [concat(dst, a, a_size, b, b_size)]: [a] and [b] are the arrays read
    from, and the result is [dst] as the call leaves it. *)
Definition concat (dst a : bytes) (a_size : Z) (b : bytes) (b_size : Z)
    : res bytes :=
  bind (mem_read a 0 a_size) (fun x =>
  bind (mem_write dst 0 x) (fun dst1 =>
  bind (mem_read b 0 b_size) (fun y =>
  bind (mem_write dst1 a_size y) (fun dst2 =>
  mem_write dst2 (a_size + b_size) [x00])))).

(** [safe_fopen_w(fn, o_mode)].  [open_w fn o_mode] is what [open] with
    [O_WRONLY | O_CREAT | O_TRUNC] does: it fails ([None]), or it leaves the
    file empty and tells whether its device accepts data.  The stream that
    [fdopen] returns on the file is buffered. *)
Definition safe_fopen_w (open_w : bytes -> Z -> option bool) (fn : bytes)
    (o_mode : Z) (p : proc) : option OFILE * proc :=
  match open_w fn o_mode with
  | None => (None, err p (txt "open"))
  | Some ok => (Some (mkOFILE [] ok), p)
  end.

(** The four arrays of [generate], as the function leaves them. *)
Record key_arrays : Type := mk_key_arrays {
  a_sk : bytes;
  a_pk : bytes;
  a_b64_sk : bytes;
  a_b64_pk : bytes
}.

(** What a call of [generate] leaves behind: the process, the files
    created, each with what it holds once its stream has been flushed, and
    the arrays. *)
Record generated : Type := mk_generated {
  g_proc : proc;
  g_files : list created;
  g_arrays : key_arrays
}.

Section Generate.
Context {B64 : Base64} {MC : Monocypher}.

(** [generate(base)].  [getrandom] is what the call [getrandom(sk, 32, 0)]
    delivers: the bytes it stores in [sk], or [None] when it fails. *)
Definition generate (getrandom : option bytes)
    (open_w : bytes -> Z -> option bool) (base : bytes) (p : proc)
    : res (run Z * generated) :=
  match getrandom with
  | None =>
      Ret (Exits 1,
           mk_generated (err p (txt "getrandom")) []
             (mk_key_arrays (fresh 32) (fresh 32) (fresh 44) (fresh 44)))
  | Some random =>
      let sk := store (take 32 random) (fresh 32) in
      let pk := crypto_sign_public_key sk in
      let b64_sk := store (b64_encode (take 32 sk)) (fresh 44) in
      let b64_pk := store (b64_encode (take 32 pk)) (fresh 44) in
      let sk := crypto_wipe sk in
      let pk := crypto_wipe pk in
      let base_len := len base in
      let path := calloc (base_len + 5 + 1) in
      (* private key *)
      bind (concat path (cstring base) base_len (cstring (txt ".priv")) 5)
        (fun path =>
      let priv := cstr path in
      let priv_mode := Z.lor (Z.lor S_IWUSR S_IRUSR) S_IRGRP in
      match safe_fopen_w open_w priv priv_mode p with
      | (None, p) =>
          Ret (Exits 1,
               mk_generated (err p (txt "cannot write private key")) []
                 (mk_key_arrays sk pk b64_sk b64_pk))
      | (Some fp, p) =>
          let (k, fp) := fwrite_buffered b64_sk 44 fp in
          if negb (k =? 44)
          then Ret (Exits 1,
                    mk_generated (err p (txt "cannot write private key"))
                      [mkcreated priv priv_mode (flushed fp)]
                      (mk_key_arrays sk pk b64_sk b64_pk))
          else
          let (k, fp) := fwrite_buffered [NL] 1 fp in
          if k <? 0
          then Ret (Exits 1,
                    mk_generated (err p (txt "cannot write private key"))
                      [mkcreated priv priv_mode (flushed fp)]
                      (mk_key_arrays sk pk b64_sk b64_pk))
          else
          let b64_sk := crypto_wipe b64_sk in
          let priv_file := mkcreated priv priv_mode (flushed fp) in
          (* public key *)
          bind (concat path (cstring base) base_len (cstring (txt ".pub")) 4)
            (fun path =>
          let pub := cstr path in
          let pub_mode :=
            Z.lor (Z.lor (Z.lor S_IWUSR S_IRUSR) S_IRGRP) S_IROTH in
          match safe_fopen_w open_w pub pub_mode p with
          | (None, p) =>
              Ret (Exits 1,
                   mk_generated (err p (txt "cannot write public key"))
                     [priv_file] (mk_key_arrays sk pk b64_sk b64_pk))
          | (Some fp, p) =>
              let (k, fp) := fwrite_buffered b64_pk 44 fp in
              if negb (k =? 44)
              then Ret (Exits 1,
                        mk_generated (err p (txt "cannot write public key"))
                          [priv_file; mkcreated pub pub_mode (flushed fp)]
                          (mk_key_arrays sk pk b64_sk b64_pk))
              else
              let (k, fp) := fwrite_buffered [NL] 1 fp in
              if k <? 0
              then Ret (Exits 1,
                        mk_generated (err p (txt "cannot write public key"))
                          [priv_file; mkcreated pub pub_mode (flushed fp)]
                          (mk_key_arrays sk pk b64_sk b64_pk))
              else
              let b64_pk := crypto_wipe b64_pk in
              Ret (Returns 0,
                   mk_generated p
                     [priv_file; mkcreated pub pub_mode (flushed fp)]
                     (mk_key_arrays sk pk b64_sk b64_pk))
          end)
      end)
  end.

End Generate.

(** *** Opening the files named on the command line *)

(** [fopen_warn(fn, is_priv)]. *)
Definition fopen_warn (fn : bytes) (is_priv : bool) (p : proc) : proc :=
  if negb (endswith fn (if is_priv then txt ".priv" else txt ".pub") =? 0)
  then
    if is_priv
    then mkproc (stdout p)
           (stderr p
            ++ [txt "kurv: warning: private key file doesn't end in .priv"])
    else mkproc (stdout p)
           (stderr p
            ++ [txt "kurv: warning: public key file doesn't end in .pub"])
  else p.

(** A [FILE*] of [main]: standard input, which several variables may
    designate at once, or a stream of its own on a file that was opened. *)
Inductive stream : Type :=
| Stdin
| Opened (contents : bytes).

(** [fopen_or_die(ctx, fn)]. *)
Definition fopen_or_die (w : world) (ctx fn : bytes) (p : proc)
    : run stream * proc :=
  if strcmp fn (txt "-") =? 0 then (Returns Stdin, p)
  else
    match fopen_r w fn with
    | Some contents => (Returns (Opened contents), p)
    | None =>
        die (err p (txt "fopen"))
          (txt "cannot open '" ++ fn ++ txt "' for " ++ ctx ++ txt ".")
    end.

(** *** [main] *)

Definition USAGE : bytes := lines [
  "usage:";
  "   kurv -h";
  "   kurv -g <name>";
  "   kurv -s <file> -P <privkey>";
  "   kurv -c <signed-file> [-p <pubkey>] [-io]";
  "   kurv -d <signed-file>";
  "";
  "options:";
  "   -h         show help page.";
  "   -g         generate keypair <name>.pub and <name>.priv.";
  "   -P <key>   private key file for signing.";
  "   -p <key>   public key file for checking.";
  "   -s <file>  sign <file> using the key given.";
  "   -c <signed-file> check signed file using the key given (if any)";
  "                    if no key file is specified, try .pub files in";
  "                    $KURV_KEYRING until we find a valid key.";
  "   -i         output the <key> used upon successful check.";
  "   -o         output the file contents upon successful check.";
  "   -d         detach signature from the signed file.";
  "" ]%string.

(** The variables of [main]; a [FILE*] that is NULL is [None]. *)
Record locals : Type := mk_locals {
  l_pk_fn : bytes;
  l_fp : option stream;
  l_pk_fp : option stream;
  l_sk_fp : option stream;
  l_base : option bytes;
  l_action : ascii;
  l_should_show_id : bool;
  l_should_show_og : bool;
  l_proc : proc
}.

(** The option loop either goes on with the next option or ends the
    process. *)
Inductive flow : Type :=
| Next (s : locals)
| Exit (code : Z) (p : proc).

Definition set_base (s : locals) (base : bytes) : locals :=
  mk_locals (l_pk_fn s) (l_fp s) (l_pk_fp s) (l_sk_fp s) (Some base) "g"
    (l_should_show_id s) (l_should_show_og s) (l_proc s).

Definition set_fp (s : locals) (action : ascii) (fp : stream) (p : proc)
    : locals :=
  mk_locals (l_pk_fn s) (Some fp) (l_pk_fp s) (l_sk_fp s) (l_base s) action
    (l_should_show_id s) (l_should_show_og s) p.

Definition set_sk_fp (s : locals) (sk_fp : stream) (p : proc) : locals :=
  mk_locals (l_pk_fn s) (l_fp s) (l_pk_fp s) (Some sk_fp) (l_base s)
    (l_action s) (l_should_show_id s) (l_should_show_og s) p.

Definition set_pk_fp (s : locals) (pk_fp : stream) (pk_fn : bytes) (p : proc)
    : locals :=
  mk_locals pk_fn (l_fp s) (Some pk_fp) (l_sk_fp s) (l_base s) (l_action s)
    (l_should_show_id s) (l_should_show_og s) p.

Definition set_show (s : locals) (id og : bool) : locals :=
  mk_locals (l_pk_fn s) (l_fp s) (l_pk_fp s) (l_sk_fp s) (l_base s)
    (l_action s) id og (l_proc s).

(** The stream a [FILE*] designates. *)
Definition deref (stdin : FILE) (h : stream) : FILE :=
  match h with
  | Stdin => stdin
  | Opened contents => fopen_on contents
  end.

(** The stream [fp] as [sign] and [check] find it when they turn to it,
    having first read the key from [key_fp]: when both designate standard
    input, the [B64_KEY_SIZE] bytes read for the key are no longer
    pending. *)
Definition behind (stdin : FILE) (key_fp fp : stream) : FILE :=
  match key_fp, fp with
  | Stdin, Stdin => snd (fread B64_KEY_SIZE stdin)
  | _, _ => deref stdin fp
  end.

(** [if (fp != NULL) fclose(fp)] at the end of [main].  [closed] tells
    whether standard input has been closed already: closing a stream leaves
    its pointer indeterminate, so that a second [fclose(stdin)] is a call on
    a closed stream.  A file that [fopen] opened has a stream of its own.
    The result tells whether standard input is closed afterwards. *)
Definition fclose (closed : bool) (fp : option stream) : res bool :=
  match fp with
  | None => Ret closed
  | Some Stdin => if closed then Undef ClosedStream else Ret true
  | Some (Opened _) => Ret closed
  end.

(** What [main] leaves behind when the process ends: the exit status, the
    standard streams and the files created. *)
Record ended : Type := mk_ended {
  e_status : Z;
  e_proc : proc;
  e_files : list created
}.

(** Lines 962-966.  A call that ended the process has ended it; one that
    returned [rv] is followed by the three [fclose] and [exit(rv)]. *)
Definition finish (fp pk_fp sk_fp : option stream) (r : run Z) (p : proc)
    (files : list created) : res ended :=
  match r with
  | Exits code => Ret (mk_ended code p files)
  | Returns rv =>
      bind (fclose false fp) (fun closed =>
      bind (fclose closed pk_fp) (fun closed =>
      bind (fclose closed sk_fp) (fun _ =>
      Ret (mk_ended rv p files))))
  end.

Section Main.
Context {B64 : Base64} {MC : Monocypher}.

(** One turn of the [getopt] loop (lines 916-938): [c] is what [getopt]
    returned and [optarg] the argument of the option. *)
Definition main_option (w : world) (c : ascii) (optarg : bytes) (s : locals)
    : flow :=
  let p := l_proc s in
  if Ascii.eqb c "h" then Exit 0 (put p (cstring USAGE) (len USAGE + 1))
  else if Ascii.eqb c "g" then Next (set_base s optarg)
  else if Ascii.eqb c "s" then
    match fopen_or_die w (txt "signing") optarg p with
    | (Returns fp, p) => Next (set_fp s "s" fp p)
    | (Exits code, p) => Exit code p
    end
  else if Ascii.eqb c "c" then
    match fopen_or_die w (txt "checking") optarg p with
    | (Returns fp, p) => Next (set_fp s "c" fp p)
    | (Exits code, p) => Exit code p
    end
  else if Ascii.eqb c "d" then
    match fopen_or_die w (txt "detach") optarg p with
    | (Returns fp, p) => Next (set_fp s "d" fp p)
    | (Exits code, p) => Exit code p
    end
  else if Ascii.eqb c "P" then
    match fopen_or_die w (txt "private key file") optarg
            (fopen_warn optarg true p) with
    | (Returns sk_fp, p) => Next (set_sk_fp s sk_fp p)
    | (Exits code, p) => Exit code p
    end
  else if Ascii.eqb c "p" then
    match fopen_or_die w (txt "public key file") optarg
            (fopen_warn optarg false p) with
    | (Returns pk_fp, p) => Next (set_pk_fp s pk_fp optarg p)
    | (Exits code, p) => Exit code p
    end
  else if Ascii.eqb c "i" then Next (set_show s true (l_should_show_og s))
  else if Ascii.eqb c "o" then Next (set_show s (l_should_show_id s) true)
  else Exit 1 p.

(** The [getopt] loop over the options of the command line, in order. *)
Fixpoint main_options (w : world) (opts : list (ascii * bytes)) (s : locals)
    : flow :=
  match opts with
  | [] => Next s
  | (c, optarg) :: rest =>
      match main_option w c optarg s with
      | Next s1 => main_options w rest s1
      | Exit code p => Exit code p
      end
  end.

(** Lines 940-966: the action chosen is run; when it returns, the streams
    are closed and its [rv] is passed to [exit]. *)
Definition main_action (w : world) (stdin : FILE) (getrandom : option bytes)
    (open_w : bytes -> Z -> option bool) (s : locals) : res ended :=
  let p := l_proc s in
  let no_file := mk_ended 1 (err p (txt "no file specified.")) [] in
  let ends := finish (l_fp s) (l_pk_fp s) (l_sk_fp s) in
  if Ascii.eqb (l_action s) "g" then
    match l_base s with
    | None => Undef NullStream
    | Some base =>
        bind (generate getrandom open_w base p) (fun '(r, g) =>
        ends r (g_proc g) (g_files g))
    end
  else if Ascii.eqb (l_action s) "s" then
    match l_sk_fp s, l_fp s with
    | None, _ =>
        Ret (mk_ended 1 (err p (txt "no private key file specified.")) [])
    | Some _, None => Ret no_file
    | Some sk_fp, Some fp =>
        bind (sign (behind stdin sk_fp fp) (deref stdin sk_fp) (fresh 32) p)
          (fun '(r, p, _) => ends r p [])
    end
  else if Ascii.eqb (l_action s) "c" then
    match l_fp s with
    | None => Ret no_file
    | Some fp =>
        bind (match l_pk_fp s with
              | None =>
                  check_keyring w (deref stdin fp) (l_should_show_id s)
                    (l_should_show_og s) p
              | Some pk_fp =>
                  check (behind stdin pk_fp fp) (deref stdin pk_fp)
                    (l_pk_fn s) (l_should_show_id s) (l_should_show_og s) p
              end)
          (fun '(r, p) => ends r p [])
    end
  else if Ascii.eqb (l_action s) "d" then
    match l_fp s with
    | None => Ret no_file
    | Some fp =>
        bind (detach (deref stdin fp) p) (fun '(r, p) => ends r p [])
    end
  else Ret (mk_ended 1 (err p (txt "invalid usage. see kurv -h.")) []).

(** [main].  The command line is given as [getopt] delivers it: the options
    in order, each with its argument; [getopt]'s own complaint about an
    option it does not know is not among the diagnostics. *)
Definition main (w : world) (stdin : FILE) (stdout : OFILE)
    (getrandom : option bytes) (open_w : bytes -> Z -> option bool)
    (opts : list (ascii * bytes)) : res ended :=
  let s0 :=
    mk_locals [] None None None None "0" false false (mkproc stdout []) in
  match main_options w opts s0 with
  | Exit code p => Ret (mk_ended code p [])
  | Next s => main_action w stdin getrandom open_w s
  end.

End Main.

End Kurv.

(** ** The envelope layouts, in the words of the specification *)

Module Spec.

(** Sections 4.2 and 6: appended to the message, the start marker, the first
    44 characters of the encoded signature, a single newline, the remaining
    44 characters, the end marker. *)
Definition joined_layout (top bot buf : bytes) : Prop :=
  exists m h1 h2,
    len h1 = 44 /\ len h2 = 44 /\ buf = m ++ top ++ h1 ++ [NL] ++ h2 ++ bot.

(** The same without the separator: the 88 characters in one piece. *)
Definition unbroken_layout (top bot buf : bytes) : Prop :=
  exists m b64, len b64 = 88 /\ buf = m ++ top ++ b64 ++ bot.

(** Section 3: a name is a candidate when it ends in the fixed suffix. *)
Definition has_suffix (suffix name : bytes) : Prop :=
  exists stem, name = stem ++ suffix.

(** Section 4.4: a key file holds 44 characters that validate and decode to
    32 bytes; anything else fails to load. *)
Definition load_public_key {B64 : Base64} (contents : option bytes)
    : option bytes :=
  match contents with
  | None => None
  | Some c =>
      if (len c <? 44) || b64_bad (take 44 c) 32 then None
      else Some (b64_decode (take 44 c))
  end.

(** Section 4.3: the entry loads as a public key under which the signature
    verifies. *)
Definition verifies {B64 : Base64} {MC : Monocypher} (sig msg : bytes)
    (e : dirent) : bool :=
  match load_public_key (d_contents e) with
  | Some pk => crypto_check sig pk msg =? 0
  | None => false
  end.

(** The entries met before the first one that satisfies [f]. *)
Fixpoint before {A : Type} (f : A -> bool) (l : list A) : list A :=
  match l with
  | [] => []
  | x :: t => if f x then [] else x :: before f t
  end.

(** A candidate that opens but holds fewer than 44 bytes. *)
Definition too_short (e : dirent) : bool :=
  match d_contents e with
  | Some c => len c <? 44
  | None => false
  end.

(** The read diagnostics that kurv leaves on standard error while it passes
    over the entries [l]: one for every candidate that is too short. *)
Definition read_diagnostics (candidate : bytes -> bool) (l : DIR) : log :=
  flat_map (fun e => if candidate (d_name e) && too_short e
                     then [txt "kurv: fread"] else []) l.

End Spec.

(** ** Invariants of the two option loops *)

Module Loop.

(** ichi-sign: a detached verification always has a signature stream,
    [-s] setting the flag and the stream together. *)
Definition ichi_has_sig (s : Ichi.locals) : Prop :=
  Ichi.l_vdetached s = true -> Ichi.l_sig s <> None.

(** ichi-sign: neither [-k], [-T], [-x] nor [-h] has been met.  No key has
    been loaded, the action is not Trim, streaming is off, and the two
    output streams are as they were opened. *)
Definition ichi_quiet (fopen_w : world -> bytes -> option (OFILE * world))
    (stdout : OFILE) (s : Ichi.locals) : Prop :=
  Ichi.l_kflag s = false
  /\ Ichi.l_action s <> Ichi.ACTION_TRIM
  /\ Ichi.l_stream_output s = false
  /\ Ichi.l_stdout s = stdout
  /\ forall f, Ichi.l_output s = Some f ->
       exists w fn w', fopen_w w fn = Some (f, w').

(** ichi-sign: the two output streams are as they were opened. *)
Definition ichi_untouched
    (fopen_w : world -> bytes -> option (OFILE * world)) (stdout : OFILE)
    (r : Ichi.result) : Prop :=
  Ichi.r_stdout r = stdout
  /\ forall f, Ichi.r_output r = Some f ->
       exists w fn w', fopen_w w fn = Some (f, w').

(** ichi-sign: the surroundings are those [main] started in, as far as the
    keyring is concerned: the environment is the same and no directory has
    become unreadable. *)
Definition ichi_same_keyring (w : world) (s : Ichi.locals) : Prop :=
  forall x,
    getenv (Ichi.l_world s) x = getenv w x
    /\ (opendir (Ichi.l_world s) x = None -> opendir w x = None).

(** ichi-sign: the action is Verify only once [-V] has been met. *)
Definition ichi_asked_to_verify (opts : list (ascii * bytes))
    (s : Ichi.locals) : Prop :=
  Ichi.l_action s = Ichi.ACTION_VERIFY ->
  exists optarg, In ("V"%char, optarg) opts.



(** kurv: how many of the three [FILE*] of [main] designate standard
    input. *)
Definition kurv_on_stdin (fp : option Kurv.stream) : nat :=
  match fp with
  | Some Kurv.Stdin => 1
  | _ => 0
  end.


(** kurv: neither [-h], [-s], [-d], [-i] nor [-o] has been met. *)
Definition kurv_quiet (stdout : OFILE) (s : Kurv.locals) : Prop :=
  Kurv.l_should_show_id s = false
  /\ Kurv.l_should_show_og s = false
  /\ Kurv.l_action s <> "s"%char
  /\ Kurv.l_action s <> "d"%char
  /\ Kurv.stdout (Kurv.l_proc s) = stdout.

End Loop.

(** ** Instances used to run the programs on concrete inputs

    The theorems below hold for every codec and every signature primitive;
    the two instances here only serve to evaluate the programs at explicit
    inputs. *)

Module Rfc4648.

Local Open Scope N_scope.

Definition alphabet : bytes :=
  txt "ABCDEFGHIJKLMNOPQRSTUVWXYZabcdefghijklmnopqrstuvwxyz0123456789+/".

Definition PAD : byte := x3d.

Definition enc6 (n : N) : byte := nth (N.to_nat n) alphabet x00.

Definition dec6 (c : byte) : option N :=
  let n := Byte.to_N c in
  if (65 <=? n) && (n <=? 90) then Some (n - 65)
  else if (97 <=? n) && (n <=? 122) then Some (n - 71)
  else if (48 <=? n) && (n <=? 57) then Some (n + 4)
  else if n =? 43 then Some 62
  else if n =? 47 then Some 63
  else None.

Definition is_b64 (c : byte) : bool :=
  match dec6 c with Some _ => true | None => false end.

Definition is_pad (c : byte) : bool := Byte.eqb c PAD.

Definition val6 (c : byte) : N :=
  match dec6 c with Some n => n | None => 0 end.

Definition byte_of (n : N) : byte :=
  match Byte.of_N (n mod 256) with Some b => b | None => x00 end.

Fixpoint encode (l : bytes) : bytes :=
  match l with
  | [] => []
  | [a] =>
      let n := Byte.to_N a in
      [enc6 (n / 4); enc6 ((n mod 4) * 16); PAD; PAD]
  | [a; b] =>
      let n := Byte.to_N a * 256 + Byte.to_N b in
      [enc6 (n / 1024); enc6 ((n / 16) mod 64); enc6 ((n mod 16) * 4); PAD]
  | a :: b :: c :: t =>
      let n := Byte.to_N a * 65536 + Byte.to_N b * 256 + Byte.to_N c in
      enc6 (n / 262144) :: enc6 ((n / 4096) mod 64)
      :: enc6 ((n / 64) mod 64) :: enc6 (n mod 64) :: encode t
  end.

Fixpoint well_formed (l : bytes) : bool :=
  match l with
  | [] => true
  | [a; b; c; d] =>
      is_b64 a && is_b64 b
      && ((is_b64 c && (is_b64 d || is_pad d)) || (is_pad c && is_pad d))
  | a :: b :: c :: d :: t =>
      is_b64 a && is_b64 b && is_b64 c && is_b64 d && well_formed t
  | _ => false
  end.

Fixpoint decode (l : bytes) : bytes :=
  match l with
  | a :: b :: c :: d :: t =>
      let n := val6 a * 262144 + val6 b * 4096 + val6 c * 64 + val6 d in
      let out := [byte_of (n / 65536); byte_of (n / 256); byte_of n] in
      (if is_pad c then firstn 1 out
       else if is_pad d then firstn 2 out else out) ++ decode t
  | _ => []
  end.

Definition padding (l : bytes) : Z :=
  match rev l with
  | a :: b :: _ =>
      if is_pad b then 2%Z else if is_pad a then 1%Z else 0%Z
  | _ => 0%Z
  end.

End Rfc4648.

(** Modelled from the spec: base64/base64.c, which is not part of the
    sources.  Sections 1 and 3: a base64-like text encoding with [validate],
    [decoded_length], [encode] and [decode], giving 44 characters for a
    32-byte key and 88 for a 64-byte signature; the standard alphabet with
    [=] padding is taken. *)
#[global] Instance rfc4648 : Base64 := {|
  b64_encoded_size := fun n => ((n + 2) / 3 * 4)%Z;
  b64_decoded_size := fun l => (len l / 4 * 3 - Rfc4648.padding l)%Z;
  b64_validate := fun l => if Rfc4648.well_formed l then 0%Z else (-1)%Z;
  b64_encode := Rfc4648.encode;
  b64_decode := Rfc4648.decode
|}.

Module Stub.

Definition digest (msg : bytes) : bytes :=
  repeat (Rfc4648.byte_of (fold_right (fun b n => (Byte.to_N b + n)%N) 0%N msg)) 32.

Definition public_key (sk : bytes) : bytes := rev sk.

Definition signature (sk pk msg : bytes) : bytes := pk ++ digest msg.

Definition same (a b : bytes) : bool :=
  (len a =? len b) && (memcmp a b =? 0).

Definition check (sig pk msg : bytes) : Z :=
  if same sig (pk ++ digest msg) then 0 else -1.

End Stub.

(** Modelled from the spec: the signature primitive of monocypher, which is
    not part of the sources.  Section 1: an opaque capability with [sign],
    [verify] and [derive_public_key]; this stand-in accepts exactly the
    signatures it produces and gives no security. *)
#[global] Instance stub_crypto : Monocypher := {|
  crypto_sign_public_key := Stub.public_key;
  crypto_sign := Stub.signature;
  crypto_check := Stub.check
|}.

(** ** Concrete inputs for the examples *)

Module Sample.

(** A 64-byte signature and a message. *)
Definition raw_sig : bytes := map Rfc4648.byte_of (map N.of_nat (seq 1 64)).
Definition message : bytes := txt "hello".

(** An output file just created, and a process that has written nothing. *)
Definition out0 : OFILE := mkOFILE [] true.
Definition proc0 : Kurv.proc := Kurv.mkproc out0 [].

(** The message signed by each tool. *)
Definition ichi_signed : bytes :=
  message ++ Ichi.SIG_ARMOR_TOP ++ take 44 (b64_encode raw_sig) ++ [NL]
  ++ drop 44 (b64_encode raw_sig) ++ Ichi.SIG_ARMOR_END.

Definition kurv_signed : bytes :=
  message ++ Kurv.SIG_START ++ b64_encode raw_sig ++ Kurv.SIG_END.

(** Buffers as long as the message signed by each tool that depart from its
    layout in one place: the byte between the two halves, the start marker,
    the end marker. *)
Definition ichi_no_newline : bytes :=
  message ++ Ichi.SIG_ARMOR_TOP ++ take 44 (b64_encode raw_sig) ++ txt " "
  ++ drop 44 (b64_encode raw_sig) ++ Ichi.SIG_ARMOR_END.

Definition ichi_bad_top : bytes :=
  message ++ (NL :: txt "----BEGIN ICHI SIGNATURE---." ++ [NL])
  ++ take 44 (b64_encode raw_sig) ++ [NL] ++ drop 44 (b64_encode raw_sig)
  ++ Ichi.SIG_ARMOR_END.

Definition ichi_bad_end : bytes :=
  message ++ Ichi.SIG_ARMOR_TOP ++ take 44 (b64_encode raw_sig) ++ [NL]
  ++ drop 44 (b64_encode raw_sig)
  ++ (NL :: txt "---- END ICHI SIGNATURE ---." ++ [NL]).

Definition kurv_bad_start : bytes :=
  message ++ (NL :: txt "----BEGIN KURV SIGNATURE---." ++ [NL])
  ++ b64_encode raw_sig ++ Kurv.SIG_END.

Definition kurv_bad_end : bytes :=
  message ++ Kurv.SIG_START ++ b64_encode raw_sig
  ++ (NL :: txt "----END KURV SIGNATURE---." ++ [NL]).

(** A secret key, its encoded text, and the key file holding it. *)
Definition secret_key : bytes := map Rfc4648.byte_of (map N.of_nat (seq 101 32)).
Definition key_text : bytes := b64_encode secret_key.
Definition key_file : bytes := key_text ++ [NL].

(** The public key of [secret_key], the signature of [message] under it, and
    the public key file. *)
Definition public_key : bytes := crypto_sign_public_key secret_key.
Definition good_sig : bytes := crypto_sign secret_key public_key message.
Definition pub_file : bytes := b64_encode public_key ++ [NL].

(** A keyring for each tool: an unrelated file, a candidate that cannot be
    opened, one that is too short, one that holds another key, and two that
    hold the signer's key. *)
Definition ichi_keyring : DIR :=
  [ mkdirent (txt "README") (Some (txt "keys live here"));
    mkdirent (txt "locked.sign.pub") None;
    mkdirent (txt "short.sign.pub") (Some (txt "abc"));
    mkdirent (txt "mallory.sign.pub") (Some key_file);
    mkdirent (txt "alice.sign.pub") (Some pub_file);
    mkdirent (txt "bob.sign.pub") (Some pub_file) ].

Definition short_entry : dirent := mkdirent (txt "short.pub") (Some (txt "abc")).

(** Two more candidates that do not load: one that cannot be opened, and
    one whose 44 characters are not base64 text. *)
Definition locked_entry : dirent := mkdirent (txt "locked.pub") None.

Definition garbled_entry : dirent :=
  mkdirent (txt "garbled.pub")
    (Some (txt "!!!!!!!!!!!!!!!!!!!!!!!!!!!!!!!!!!!!!!!!!!!!" ++ [NL])).

Definition kurv_keyring : DIR :=
  [ mkdirent (txt "README") (Some (txt "keys live here"));
    mkdirent (txt "locked.pub") None;
    short_entry;
    mkdirent (txt "mallory.pub") (Some key_file);
    mkdirent (txt "alice.pub") (Some pub_file);
    mkdirent (txt "bob.pub") (Some pub_file) ].

(** Opening by path a file of the directory [dir] mounted at [prefix]. *)
Definition open_in (prefix : bytes) (dir : DIR) (path : bytes) : option bytes :=
  match find (fun e => Stub.same (prefix ++ d_name e) path) dir with
  | Some e => d_contents e
  | None => None
  end.

(** Surroundings in which the keyring variable names [/keys], which holds
    the entries [dir]. *)
Definition world_of (dir : DIR) : world :=
  mkworld (fun _ => Some (txt "/keys")) (fun _ => Some dir)
    (open_in (txt "/keys/") dir).

Definition keys_world : world := world_of kurv_keyring.

(** Surroundings in which the file [fn] holds [contents] and the environment
    is empty. *)
Definition file_world (contents : bytes) : world :=
  mkworld (fun _ => None) (fun _ => None) (fun _ => Some contents).

(** Surroundings in which the keyring variable names a directory that cannot
    be opened. *)
Definition missing_keyring : world :=
  mkworld (fun _ => Some (txt "/nonexistent")) (fun _ => None) (fun _ => None).

(** Verification of [ichi_signed] against the keyring, streaming the
    message. *)
Definition keyring_ctx : Ichi.verify_ctx :=
  Ichi.mk_verify_ctx (fopen_on ichi_signed) out0 None [] [] false true true.

(** The message with the envelope of [good_sig], as each tool lays it out. *)
Definition good_text : bytes := b64_encode good_sig.

Definition ichi_good : bytes :=
  message ++ Ichi.SIG_ARMOR_TOP ++ take 44 good_text ++ [NL]
  ++ drop 44 good_text ++ Ichi.SIG_ARMOR_END.

Definition kurv_good : bytes :=
  message ++ Kurv.SIG_START ++ good_text ++ Kurv.SIG_END.

(** A file system in which every file can be created and written, and one
    in which none can. *)
Definition open_any : bytes -> Z -> option bool := fun _ _ => Some true.
Definition open_none : bytes -> Z -> option bool := fun _ _ => None.

(** [fopen(path, "w")] where every file can be created, the surroundings
    staying as they are. *)
Definition create_any (w : world) (path : bytes) : option (OFILE * world) :=
  Some (out0, w).

End Sample.

(** * Properties *)

(** ** Facts about the runtime model *)

Module LibcFacts.

Lemma len_nonneg {A : Type} (l : list A) : 0 <= len l.
Proof. unfold len. lia. Qed.

Lemma len_nil {A : Type} : len (@nil A) = 0.
Proof. reflexivity. Qed.

Lemma len_cons {A : Type} (x : A) (l : list A) : len (x :: l) = 1 + len l.
Proof. unfold len. simpl length. lia. Qed.

Lemma len_app {A : Type} (a b : list A) : len (a ++ b) = len a + len b.
Proof. unfold len. rewrite length_app. lia. Qed.

Lemma take_nonpos {A : Type} (n : Z) (l : list A) : n <= 0 -> take n l = [].
Proof.
  intros Hn. destruct l as [|x t]; simpl; [reflexivity|].
  destruct (Z.leb_spec n 0); [reflexivity | lia].
Qed.

Lemma drop_nonpos {A : Type} (n : Z) (l : list A) : n <= 0 -> drop n l = l.
Proof.
  intros Hn. destruct l as [|x t]; simpl; [reflexivity|].
  destruct (Z.leb_spec n 0); [reflexivity | lia].
Qed.

Lemma take_drop {A : Type} (l : list A) : forall n, take n l ++ drop n l = l.
Proof.
  induction l as [|x t IH]; intros n; simpl; [reflexivity|].
  destruct (n <=? 0); simpl; [reflexivity|]. now rewrite IH.
Qed.

Lemma take_all {A : Type} (l : list A) : forall n, len l <= n -> take n l = l.
Proof.
  induction l as [|x t IH]; intros n Hn; simpl; [reflexivity|].
  rewrite len_cons in Hn. pose proof (len_nonneg t).
  destruct (Z.leb_spec n 0); [lia|]. f_equal. apply IH. lia.
Qed.

Lemma drop_all {A : Type} (l : list A) : forall n, len l <= n -> drop n l = [].
Proof.
  induction l as [|x t IH]; intros n Hn; simpl; [reflexivity|].
  rewrite len_cons in Hn. pose proof (len_nonneg t).
  destruct (Z.leb_spec n 0); [lia|]. apply IH. lia.
Qed.

Lemma take_app {A : Type} (a b : list A) : forall n,
  n = len a -> take n (a ++ b) = a.
Proof.
  induction a as [|x t IH]; intros n Hn.
  - apply take_nonpos. rewrite Hn. unfold len; simpl; lia.
  - rewrite len_cons in Hn. pose proof (len_nonneg t). simpl.
    destruct (Z.leb_spec n 0); [lia|]. f_equal. apply IH. lia.
Qed.

Lemma drop_app {A : Type} (a b : list A) : forall n,
  n = len a -> drop n (a ++ b) = b.
Proof.
  induction a as [|x t IH]; intros n Hn.
  - apply drop_nonpos. rewrite Hn. unfold len; simpl; lia.
  - rewrite len_cons in Hn. pose proof (len_nonneg t). simpl.
    destruct (Z.leb_spec n 0); [lia|]. apply IH. lia.
Qed.

Lemma len_take {A : Type} (l : list A) : forall n,
  0 <= n <= len l -> len (take n l) = n.
Proof.
  induction l as [|x t IH]; intros n Hn.
  - rewrite (@len_nil A) in Hn. simpl. rewrite len_nil. lia.
  - rewrite len_cons in Hn. simpl.
    destruct (Z.leb_spec n 0); [rewrite len_nil; lia|].
    rewrite len_cons, IH; lia.
Qed.

Lemma len_take_le {A : Type} (l : list A) : forall n, len (take n l) <= len l.
Proof.
  induction l as [|x t IH]; intros n; simpl; [lia|].
  destruct (n <=? 0).
  - rewrite len_nil. apply len_nonneg.
  - rewrite !len_cons. specialize (IH (n - 1)). lia.
Qed.

Lemma len_drop {A : Type} (l : list A) : forall n,
  0 <= n <= len l -> len (drop n l) = len l - n.
Proof.
  intros n Hn. pose proof (take_drop l n) as E.
  apply (f_equal len) in E. rewrite len_app, len_take in E; lia.
Qed.

Lemma drop_drop {A : Type} (l : list A) : forall a b,
  0 <= a -> 0 <= b -> drop b (drop a l) = drop (a + b) l.
Proof.
  induction l as [|x t IH]; intros a b Ha Hb.
  - reflexivity.
  - simpl (drop a (x :: t)). simpl (drop (a + b) (x :: t)).
    destruct (Z.leb_spec a 0).
    + assert (a = 0) by lia. subst a. simpl (0 + b).
      destruct (Z.leb_spec b 0).
      * apply drop_nonpos. lia.
      * simpl. destruct (Z.leb_spec b 0); [lia | reflexivity].
    + destruct (Z.leb_spec (a + b) 0); [lia|].
      rewrite IH by lia. f_equal. lia.
Qed.

(** A region in the middle of a buffer is read back as it is. *)
Lemma mem_read_at (buf a x b : bytes) (off n : Z) :
  buf = a ++ x ++ b -> off = len a -> n = len x ->
  mem_read buf off n = Ret x.
Proof.
  intros -> -> ->. unfold mem_read.
  pose proof (len_nonneg a). pose proof (len_nonneg x). pose proof (len_nonneg b).
  rewrite !len_app.
  replace ((0 <=? len a) && (0 <=? len x) && (len a + len x <=? len a + (len x + len b)))
    with true.
  - rewrite drop_app by reflexivity. now rewrite take_app.
  - symmetry. rewrite !andb_true_iff, !Z.leb_le. lia.
Qed.

Lemma mem_read_defined (buf : bytes) (off n : Z) :
  0 <= off -> 0 <= n -> off + n <= len buf ->
  mem_read buf off n = Ret (take n (drop off buf)).
Proof.
  intros H1 H2 H3. unfold mem_read.
  replace ((0 <=? off) && (0 <=? n) && (off + n <=? len buf)) with true;
    [reflexivity|].
  symmetry. rewrite !andb_true_iff, !Z.leb_le. lia.
Qed.

Lemma byte_eqb_refl (x : byte) : Byte.eqb x x = true.
Proof. now apply Byte.byte_dec_lb. Qed.

Lemma memcmp_refl (a : bytes) : memcmp a a = 0.
Proof.
  induction a as [|x t IH]; simpl; [reflexivity|].
  now rewrite byte_eqb_refl.
Qed.

Lemma memcmp_eq (a : bytes) : forall b,
  length a = length b -> memcmp a b = 0 -> a = b.
Proof.
  induction a as [|x t IH]; intros [|y u] Hl Hc; try discriminate;
    [reflexivity|].
  simpl in Hc. destruct (Byte.eqb x y) eqn:E.
  - apply Byte.byte_dec_bl in E. subst y. f_equal. apply IH; [|assumption].
    simpl in Hl. congruence.
  - destruct (Byte.to_N x <? Byte.to_N y)%N; discriminate.
Qed.

Lemma strcmp_refl (a : bytes) : strcmp a a = 0.
Proof.
  induction a as [|x t IH]; simpl; [reflexivity|].
  now rewrite byte_eqb_refl.
Qed.

Lemma strcmp_eq (a : bytes) : forall b, strcmp a b = 0 -> a = b.
Proof.
  induction a as [|x t IH]; intros [|y u] Hc; try discriminate;
    [reflexivity|].
  simpl in Hc. destruct (Byte.eqb x y) eqn:E.
  - apply Byte.byte_dec_bl in E. subst y. f_equal. now apply IH.
  - destruct (Byte.to_N x <? Byte.to_N y)%N; discriminate.
Qed.

Lemma len_eq_length {A : Type} (a b : list A) :
  len a = len b -> length a = length b.
Proof. unfold len. lia. Qed.

Lemma store_whole (data buf : bytes) : len buf <= len data -> store data buf = data.
Proof.
  intros H. unfold store. rewrite drop_all by assumption. apply app_nil_r.
Qed.

Lemma len_store (data buf : bytes) :
  len data <= len buf -> len (store data buf) = len buf.
Proof.
  intros H. unfold store. pose proof (len_nonneg data).
  rewrite len_app, len_drop; lia.
Qed.

Lemma take_store (data buf : bytes) : take (len data) (store data buf) = data.
Proof. unfold store. now apply take_app. Qed.

Lemma len_fresh (n : nat) : len (fresh n) = Z.of_nat n.
Proof. unfold len, fresh. now rewrite repeat_length. Qed.

Lemma len_take_bound {A : Type} (l : list A) : forall n,
  0 <= n -> len (take n l) <= n.
Proof.
  induction l as [|x t IH]; intros n Hn; simpl; [assumption|].
  destruct (Z.leb_spec n 0); [rewrite len_nil; lia|].
  rewrite len_cons. specialize (IH (n - 1)). lia.
Qed.

Lemma take_take {A : Type} (l : list A) (n : Z) :
  0 <= n -> take n (take n l) = take n l.
Proof.
  intros Hn. apply take_all. now apply len_take_bound.
Qed.

Lemma crypto_wipe_idem (buf : bytes) :
  crypto_wipe (crypto_wipe buf) = crypto_wipe buf.
Proof. unfold crypto_wipe. now rewrite repeat_length. Qed.

Lemma crypto_wipe_len (buf : bytes) (n : nat) :
  len buf = Z.of_nat n -> crypto_wipe buf = repeat x00 n.
Proof. unfold len, crypto_wipe. intros H. f_equal. lia. Qed.

Lemma fwrite_ok (buf : bytes) (n : Z) (fp : OFILE) :
  o_ok fp = true -> n = len buf ->
  fwrite buf n fp = (n, mkOFILE (o_data fp ++ buf) true).
Proof.
  intros Hok ->. unfold fwrite. rewrite Hok.
  now rewrite take_all by lia.
Qed.

Lemma slice_next {A : Type} (l : list A) (a n : Z) :
  0 <= a -> 0 <= n -> drop a l = take n (drop a l) ++ drop (a + n) l.
Proof.
  intros Ha Hn. rewrite <- (drop_drop l a n) by lia. now rewrite take_drop.
Qed.

Lemma one_byte (l : bytes) : len l = 1 -> l = [nth 0 l x00].
Proof.
  destruct l as [|x [|y t]]; intros H; try reflexivity.
  - discriminate.
  - rewrite !len_cons in H. pose proof (len_nonneg t). lia.
Qed.

End LibcFacts.
Import LibcFacts.

Ltac assoc := repeat rewrite <- app_assoc; rewrite ?app_nil_r; reflexivity.

(** ** Facts about ichi-sign.c *)

Module IchiFacts.
Import Ichi.
Section Facts.
Context {B64 : Base64} {MC : Monocypher}.

Lemma len_top : len SIG_ARMOR_TOP = 30.
Proof. reflexivity. Qed.

Lemma len_end : len SIG_ARMOR_END = 30.
Proof. reflexivity. Qed.

Ltac lens :=
  rewrite ?len_app, ?len_cons, ?len_nil, ?len_top, ?len_end;
  unfold B64_SIG_SIZE; lia.

(** Reading a sound stream to its end gives its contents: the loop always
    has fuel left when it stops. *)
Lemma fp_to_buf_loop_sound (fuel : nat) : forall data buf total size err,
  (length data < fuel)%nat ->
  fp_to_buf_loop fuel (fopen_on data) buf total size err
  = Some (Some (buf ++ data, total + len data), err).
Proof.
  induction fuel as [|fuel IH]; intros data buf total size err Hf; [lia|].
  cbn [fp_to_buf_loop]. unfold fread, fopen_on. cbn [f_pending f_broken f_eof f_error].
  destruct (Z.ltb_spec (len (take BUF_SIZE data)) BUF_SIZE) as [Hs|Hs].
  - cbn [ferror feof f_error f_eof].
    assert (len data < BUF_SIZE) as Hd.
    { destruct (Z.lt_ge_cases (len data) BUF_SIZE) as [|Hge]; [assumption|].
      rewrite len_take in Hs; [lia|]. unfold BUF_SIZE in *. lia. }
    now rewrite take_all by lia.
  - cbn [ferror feof f_error f_eof].
    assert (BUF_SIZE <= len data) as Hd.
    { pose proof (len_take_le data BUF_SIZE). lia. }
    assert (0 < BUF_SIZE) as Hpos by (unfold BUF_SIZE; lia).
    change (mkFILE (drop BUF_SIZE data) false false false)
      with (fopen_on (drop BUF_SIZE data)).
    rewrite IH.
    + rewrite <- app_assoc, take_drop. rewrite (len_take data) by lia.
      pose proof (len_drop data BUF_SIZE ltac:(lia)) as E. rewrite E.
      replace (total + BUF_SIZE + (len data - BUF_SIZE)) with (total + len data)
        by lia.
      reflexivity.
    + pose proof (len_drop data BUF_SIZE ltac:(lia)) as E. unfold len in E. lia.
Qed.

Lemma fp_to_buf_sound (data : bytes) (err : log) :
  fp_to_buf (fopen_on data) err = (Some (data, len data), err).
Proof.
  unfold fp_to_buf. cbn [f_pending fopen_on].
  rewrite fp_to_buf_loop_sound by lia. reflexivity.
Qed.

Lemma write_ok (fp : OFILE) (buf : bytes) (n : Z) :
  o_ok fp = true -> n = len buf ->
  _write fp buf n = (0, mkOFILE (o_data fp ++ buf) true).
Proof.
  intros Hok Hn. unfold _write. rewrite fwrite_ok by assumption.
  now rewrite Z.eqb_refl.
Qed.

Lemma XWRITE_ok (fp : OFILE) (buf : bytes) (n : Z) (err : log) k :
  o_ok fp = true -> n = len buf ->
  XWRITE fp buf n err k = k (mkOFILE (o_data fp ++ buf) true).
Proof.
  intros Hok Hn. unfold XWRITE. now rewrite write_ok.
Qed.

Lemma sig_from_buf_layout (sig : bytes) (n : Z) (m h1 h2 : bytes) :
  len h1 = 44 -> len h2 = 44 ->
  sig_from_buf sig n (m ++ SIG_ARMOR_TOP ++ h1 ++ [NL] ++ h2 ++ SIG_ARMOR_END)
    (len (m ++ SIG_ARMOR_TOP ++ h1 ++ [NL] ++ h2 ++ SIG_ARMOR_END))
  = if b64_bad (h1 ++ h2) 64 then Ret (-1, sig, n)
    else Ret (0, b64_decode (h1 ++ h2), len m).
Proof.
  intros H1 H2. pose proof (len_nonneg m) as Hm.
  set (buf := m ++ SIG_ARMOR_TOP ++ h1 ++ [NL] ++ h2 ++ SIG_ARMOR_END).
  assert (Hb : len buf = len m + 149) by (subst buf; lens).
  cbv beta zeta delta [sig_from_buf]. rewrite Hb, len_top, len_end.
  destruct (Z.ltb_spec (len m + 149) (30 + (B64_SIG_SIZE + 1) + 30)) as [Hlt|_];
    [unfold B64_SIG_SIZE in Hlt; lia|].
  erewrite (mem_read_at buf m SIG_ARMOR_TOP); [|reflexivity|lens|lens].
  cbn [bind]. rewrite memcmp_refl. cbn [Z.eqb negb].
  erewrite (mem_read_at buf (m ++ SIG_ARMOR_TOP ++ h1 ++ [NL] ++ h2)
              SIG_ARMOR_END []); [|subst buf; assoc|lens|lens].
  cbn [bind]. rewrite memcmp_refl. cbn [Z.eqb negb].
  erewrite (mem_read_at buf (m ++ SIG_ARMOR_TOP ++ h1) [NL]
              (h2 ++ SIG_ARMOR_END)); [|subst buf; assoc|lens|lens].
  cbn [bind nth]. rewrite byte_eqb_refl. cbn [negb].
  erewrite (mem_read_at buf (m ++ SIG_ARMOR_TOP) h1
              ([NL] ++ h2 ++ SIG_ARMOR_END)); [|subst buf; assoc|lens|lens].
  cbn [bind].
  erewrite (mem_read_at buf (m ++ SIG_ARMOR_TOP ++ h1 ++ [NL]) h2
              SIG_ARMOR_END); [|subst buf; assoc|lens|lens].
  cbn [bind].
  rewrite (take_all (h1 ++ h2)) by lens.
  replace (len m + 149 - (30 + (B64_SIG_SIZE + 1) + 30)) with (len m)
    by (unfold B64_SIG_SIZE; lia).
  reflexivity.
Qed.

Lemma sig_from_buf_long (sig : bytes) (n : Z) (buf : bytes) :
  149 <= len buf ->
  let p := len buf - 149 in
  sig_from_buf sig n buf (len buf)
  = if negb (memcmp (take 30 (drop p buf)) SIG_ARMOR_TOP =? 0)
    then Ret (-1, sig, n)
    else if negb (memcmp (take 30 (drop (p + 119) buf)) SIG_ARMOR_END =? 0)
    then Ret (-1, sig, n)
    else if negb (Byte.eqb (nth 0 (take 1 (drop (p + 74) buf)) x00) NL)
    then Ret (-1, sig, n)
    else if b64_bad (take 88 (take 44 (drop (p + 30) buf)
                              ++ take 44 (drop (p + 75) buf))) 64
    then Ret (-1, sig, n)
    else Ret (0, b64_decode (take 88 (take 44 (drop (p + 30) buf)
                                       ++ take 44 (drop (p + 75) buf))), p).
Proof.
  intros Hl p. cbv beta zeta delta [sig_from_buf]. rewrite len_top, len_end.
  unfold B64_SIG_SIZE.
  destruct (Z.ltb_spec (len buf) (30 + (88 + 1) + 30)) as [|_]; [lia|].
  replace (len buf - (30 + (88 + 1) + 30)) with p by (subst p; lia).
  replace (p + 30 + (88 + 1)) with (p + 119) by lia.
  replace (p + 30 + 44) with (p + 74) by lia.
  replace (p + 30 + 45) with (p + 75) by lia.
  rewrite (mem_read_defined buf p 30) by (subst p; lia). cbn [bind].
  destruct (negb (memcmp (take 30 (drop p buf)) SIG_ARMOR_TOP =? 0));
    [reflexivity|].
  rewrite (mem_read_defined buf (p + 119) 30) by (subst p; lia). cbn [bind].
  destruct (negb (memcmp (take 30 (drop (p + 119) buf)) SIG_ARMOR_END =? 0));
    [reflexivity|].
  rewrite (mem_read_defined buf (p + 74) 1) by (subst p; lia). cbn [bind].
  destruct (negb (Byte.eqb (nth 0 (take 1 (drop (p + 74) buf)) x00) NL));
    [reflexivity|].
  rewrite (mem_read_defined buf (p + 30) 44) by (subst p; lia). cbn [bind].
  rewrite (mem_read_defined buf (p + 75) 44) by (subst p; lia). cbn [bind].
  reflexivity.
Qed.

Lemma sig_from_buf_short (sig : bytes) (n : Z) (buf : bytes) :
  len buf < 149 -> sig_from_buf sig n buf (len buf) = Ret (-1, sig, n).
Proof.
  intros Hs. cbv beta zeta delta [sig_from_buf]. rewrite len_top, len_end.
  destruct (Z.ltb_spec (len buf) (30 + (B64_SIG_SIZE + 1) + 30)) as [_|Hge];
    [reflexivity | unfold B64_SIG_SIZE in Hge; lia].
Qed.

Lemma sig_from_buf_cases (sig : bytes) (n : Z) (buf : bytes) :
  sig_from_buf sig n buf (len buf) = Ret (-1, sig, n)
  \/ exists m h1 h2,
       len h1 = 44 /\ len h2 = 44
       /\ buf = m ++ SIG_ARMOR_TOP ++ h1 ++ [NL] ++ h2 ++ SIG_ARMOR_END
       /\ b64_bad (h1 ++ h2) 64 = false
       /\ sig_from_buf sig n buf (len buf)
          = Ret (0, b64_decode (h1 ++ h2), len m).
Proof.
  destruct (Z.lt_ge_cases (len buf) 149) as [Hs|Hs];
    [left; now apply sig_from_buf_short|].
  rewrite (sig_from_buf_long sig n buf Hs). cbv zeta.
  set (p := len buf - 149).
  set (top := take 30 (drop p buf)).
  set (h1 := take 44 (drop (p + 30) buf)).
  set (sep := take 1 (drop (p + 74) buf)).
  set (h2 := take 44 (drop (p + 75) buf)).
  set (bot := take 30 (drop (p + 119) buf)).
  assert (Hbuf : buf = take p buf ++ top ++ h1 ++ sep ++ h2 ++ bot).
  { rewrite <- (take_drop buf p) at 1. f_equal.
    rewrite (slice_next buf p 30) by lia. f_equal.
    rewrite (slice_next buf (p + 30) 44) by lia. f_equal.
    replace (p + 30 + 44) with (p + 74) by lia.
    rewrite (slice_next buf (p + 74) 1) by lia. f_equal.
    replace (p + 74 + 1) with (p + 75) by lia.
    rewrite (slice_next buf (p + 75) 44) by lia. f_equal.
    replace (p + 75 + 44) with (p + 119) by lia.
    rewrite (slice_next buf (p + 119) 30) by lia.
    rewrite (drop_all buf (p + 119 + 30)) by lia. now rewrite app_nil_r. }
  assert (Ltop : len top = 30) by (apply len_take; rewrite len_drop; lia).
  assert (Lh1 : len h1 = 44) by (apply len_take; rewrite len_drop; lia).
  assert (Lsep : len sep = 1) by (apply len_take; rewrite len_drop; lia).
  assert (Lh2 : len h2 = 44) by (apply len_take; rewrite len_drop; lia).
  assert (Lbot : len bot = 30) by (apply len_take; rewrite len_drop; lia).
  destruct (Z.eqb_spec (memcmp top SIG_ARMOR_TOP) 0) as [Ct|Ct];
    cbn [negb]; [|now left].
  destruct (Z.eqb_spec (memcmp bot SIG_ARMOR_END) 0) as [Cb|Cb];
    cbn [negb]; [|now left].
  destruct (Byte.eqb (nth 0 sep x00) NL) eqn:Cs; cbn [negb]; [|now left].
  rewrite (take_all (h1 ++ h2)) by (rewrite len_app; lia).
  destruct (b64_bad (h1 ++ h2) 64) eqn:Bad; [now left|].
  right. exists (take p buf), h1, h2.
  apply memcmp_eq in Ct; [|apply len_eq_length; rewrite Ltop; reflexivity].
  apply memcmp_eq in Cb; [|apply len_eq_length; rewrite Lbot; reflexivity].
  apply Byte.byte_dec_bl in Cs.
  assert (Es : sep = [NL]) by (rewrite (one_byte sep Lsep); now rewrite Cs).
  rewrite Ct, Cb, Es in Hbuf.
  repeat split; try assumption.
  do 2 f_equal. rewrite len_take; subst p; lia.
Qed.
Lemma XWRITE_take (fp : OFILE) (buf : bytes) (n : Z) (err : log) k :
  o_ok fp = true -> 0 <= n <= len buf ->
  XWRITE fp buf n err k = k (mkOFILE (o_data fp ++ take n buf) true).
Proof.
  intros Hok Hn. unfold XWRITE, _write, fwrite. rewrite Hok.
  rewrite len_take by assumption. now rewrite Z.eqb_refl.
Qed.

(** The array [b64_sig] of [sign] once the encoder has filled it. *)
Lemma b64_sig_filled (s : bytes) :
  len s = 64 -> len (b64_encode s) = 88 ->
  store (b64_encode (take 64 s)) (fresh 88) = b64_encode s.
Proof.
  intros Hs He. rewrite (take_all s) by lia.
  apply store_whole. rewrite len_fresh. lia.
Qed.

Lemma sign_output_detached (out : OFILE) (m s : bytes) (n : Z) (err : log) :
  len s = 64 -> len (b64_encode s) = 88 -> o_ok out = true ->
  sign_output out true m n s err
  = (0, mkOFILE (o_data out ++ b64_encode s) true, err).
Proof.
  intros Hs He Hok. unfold sign_output. rewrite b64_sig_filled by assumption.
  rewrite XWRITE_ok; [reflexivity | assumption | unfold B64_SIG_SIZE; lia].
Qed.

Lemma sign_output_joined (out : OFILE) (m s : bytes) (err : log) :
  len s = 64 -> len (b64_encode s) = 88 -> o_ok out = true ->
  sign_output out false m (len m) s err
  = (0, mkOFILE (o_data out ++ m ++ SIG_ARMOR_TOP ++ take 44 (b64_encode s)
                 ++ [NL] ++ drop 44 (b64_encode s) ++ SIG_ARMOR_END) true,
     err).
Proof.
  intros Hs He Hok. unfold sign_output. rewrite b64_sig_filled by assumption.
  rewrite XWRITE_ok by auto.
  rewrite XWRITE_ok by auto.
  rewrite XWRITE_take by (cbn [o_ok]; auto; lia).
  rewrite XWRITE_ok by auto.
  rewrite XWRITE_ok by (cbn [o_ok]; auto; rewrite len_drop; lia).
  rewrite XWRITE_ok by auto.
  cbn [o_data]. repeat rewrite <- app_assoc. reflexivity.
Qed.

Lemma halves (b64 : bytes) :
  len b64 = 88 ->
  len (take 44 b64) = 44 /\ len (drop 44 b64) = 44
  /\ take 44 b64 ++ drop 44 b64 = b64.
Proof.
  intros H. rewrite len_take, len_drop by lia. rewrite take_drop.
  repeat split; lia.
Qed.

(** [read_key_from_file] returns with its array of encoded text zeroed, on
    every path. *)
Lemma read_key_from_file_wipes (w : world) (fn key b64_key : bytes)
    (err : log) :
  len b64_key = 44 ->
  snd (fst (read_key_from_file w fn key b64_key err)) = repeat x00 44.
Proof.
  intros Hb. unfold read_key_from_file.
  destruct (fopen_r w fn) as [contents|]; cbn [fst snd];
    [|now apply crypto_wipe_len].
  unfold _read, fread, fopen_on, B64_KEY_SIZE.
  cbn [f_pending f_broken f_eof f_error].
  assert (W : crypto_wipe (store (take 44 contents) b64_key) = repeat x00 44).
  { apply crypto_wipe_len. rewrite len_store; [assumption|].
    rewrite Hb. apply len_take_bound. lia. }
  destruct (len (take 44 contents) <? 44);
    destruct (len (take 44 contents) =? 44); cbn [negb Z.eqb fst snd];
    try exact W;
    destruct (b64_bad (take 44 (store (take 44 contents) b64_key)) 32);
    exact W.
Qed.

End Facts.
End IchiFacts.

(** ** Facts about [fread] *)

Module FreadFacts.

Lemma len_fread_bound (n : Z) (fp : FILE) :
  0 <= n -> 0 <= len (fst (fread n fp)) <= n.
Proof.
  intros Hn. unfold fread.
  destruct (len (take n (f_pending fp)) <? n); cbn [fst];
    (split; [apply len_nonneg | now apply len_take_bound]).
Qed.


(** A read that comes back short has exhausted the stream and raised one of
    the two indicators; a full read leaves the indicators alone. *)
Lemma fread_cases (n : Z) (data : bytes) (b e : bool) :
  0 < n ->
  (len data < n
   /\ fread n (mkFILE data b false e)
      = (data, mkFILE [] b (negb b) (b || e)))
  \/ (n <= len data
      /\ len (take n data) = n
      /\ fread n (mkFILE data b false e)
         = (take n data, mkFILE (drop n data) b false e)).
Proof.
  intros Hn. unfold fread. cbn [f_pending f_broken f_eof f_error].
  destruct (Z.lt_ge_cases (len data) n) as [Hs|Hs].
  - left. split; [assumption|].
    rewrite take_all, drop_all by lia.
    destruct (Z.ltb_spec (len data) n); [|lia].
    now destruct b, e.
  - right. split; [lia|].
    rewrite len_take by lia. split; [reflexivity|].
    now rewrite Z.ltb_irrefl.
Qed.

End FreadFacts.

(** ** Facts about kurv.c *)

Module KurvFacts.
Import Kurv.
Section Facts.
Context {B64 : Base64} {MC : Monocypher}.

Lemma len_sig_start : len SIG_START = 30.
Proof. reflexivity. Qed.

Lemma len_sig_end : len SIG_END = 28.
Proof. reflexivity. Qed.

Ltac lens :=
  rewrite ?len_app, ?len_cons, ?len_nil, ?len_sig_start, ?len_sig_end;
  unfold B64_SIG_SIZE; lia.

(** Reading a sound stream to its end gives its contents and leaves the
    error indicator clear: the loop always has fuel left when it stops. *)
Lemma read_file_loop_sound (fuel : nat) : forall data buf total size r,
  (length data < fuel)%nat ->
  exists fp',
    read_file_loop_unchecked fuel (fopen_on data) buf total size r
    = Some (buf ++ data, total + len data, fp')
    /\ ferror fp' = false.
Proof.
  induction fuel as [|fuel IH]; intros data buf total size r Hf; [lia|].
  cbn [read_file_loop_unchecked]. unfold fopen_on at 1. cbn [feof f_eof].
  unfold fread, fopen_on. cbn [f_pending f_broken f_eof f_error].
  assert (0 < READ_SIZE) as Hpos by (unfold READ_SIZE; lia).
  destruct (Z.ltb_spec (len (take READ_SIZE data)) READ_SIZE) as [Hs|Hs].
  - assert (len data < READ_SIZE) as Hd.
    { destruct (Z.lt_ge_cases (len data) READ_SIZE) as [|Hge]; [assumption|].
      rewrite len_take in Hs; lia. }
    rewrite take_all by lia. rewrite drop_all by lia.
    destruct data as [|b t].
    + cbn. eexists. split; [rewrite ?app_nil_r, ?Z.add_0_r|]; reflexivity.
    + replace (len (b :: t) >? 0) with true
        by (rewrite len_cons; pose proof (len_nonneg t); symmetry;
            apply Z.gtb_lt; lia).
      destruct fuel as [|fuel]; [simpl in Hf; lia|].
      destruct (size <=? total + len (b :: t));
        cbn [read_file_loop_unchecked feof f_eof];
        eexists; split; reflexivity.
  - assert (READ_SIZE <= len data) as Hd.
    { pose proof (len_take_le data READ_SIZE). lia. }
    rewrite (len_take data) by lia.
    replace (READ_SIZE >? 0) with true by (symmetry; apply Z.gtb_lt; lia).
    change (mkFILE (drop READ_SIZE data) false false false)
      with (fopen_on (drop READ_SIZE data)).
    pose proof (len_drop data READ_SIZE ltac:(lia)) as E.
    assert (length (drop READ_SIZE data) < fuel)%nat as Hf'
      by (unfold len in E; lia).
    destruct (size <=? total + READ_SIZE).
    + destruct (IH (drop READ_SIZE data) (buf ++ take READ_SIZE data)
                  (total + READ_SIZE) (size + (r + 1) * READ_SIZE) (r + 1) Hf')
        as (fp' & R & Herr).
      exists fp'. split; [|assumption]. rewrite R.
      rewrite <- app_assoc, take_drop, E. do 3 f_equal. lia.
    + destruct (IH (drop READ_SIZE data) (buf ++ take READ_SIZE data)
                  (total + READ_SIZE) size r Hf') as (fp' & R & Herr).
      exists fp'. split; [|assumption]. rewrite R.
      rewrite <- app_assoc, take_drop, E. do 3 f_equal. lia.
Qed.

Lemma read_file_unchecked_sound (data : bytes) (p : proc) :
  read_file_unchecked (fopen_on data) p = (Some (data, len data), p).
Proof.
  destruct (read_file_loop_sound (S (length data)) data [] 0 READ_SIZE 0)
    as (fp' & R & Herr); [lia|].
  unfold read_file_unchecked. change (f_pending (fopen_on data)) with data.
  rewrite R, Herr. reflexivity.
Qed.

(** While the stream does not fail, the loop of [read_file] keeps whole
    chunks in a buffer of whole chunks, with room for one more: every
    [fread] stays inside the allocation. *)
Lemma read_file_loop_fits (fuel : nat) : forall fp buf total size r,
  f_broken fp = false ->
  feof fp = true
  \/ (exists a c, total = a * READ_SIZE /\ size = c * READ_SIZE
                  /\ 0 <= a < c /\ 0 <= r) ->
  read_file_loop fuel fp buf total size r
  = option_map Ret (read_file_loop_unchecked fuel fp buf total size r).
Proof.
  induction fuel as [|fuel IH]; intros fp buf total size r Hb Hinv;
    [reflexivity|].
  cbn [read_file_loop read_file_loop_unchecked].
  destruct (feof fp) eqn:Heof; [reflexivity|].
  destruct Hinv as [Hinv|(a & c & -> & -> & Hac & Hr)]; [discriminate|].
  assert (0 < READ_SIZE) as Hpos by (unfold READ_SIZE; lia).
  unfold fread_into.
  destruct (Z.leb_spec 0 (a * READ_SIZE)); [|nia].
  destruct (Z.leb_spec (a * READ_SIZE + READ_SIZE) (c * READ_SIZE)); [|nia].
  cbn [andb].
  destruct fp as [data b eof e]. cbn [f_broken] in Hb. cbn [feof f_eof] in Heof.
  subst b eof.
  destruct (FreadFacts.fread_cases READ_SIZE data false e Hpos)
    as [(Hs & R)|(Hs & Ht & R)]; rewrite R.
  - destruct (len data >? 0); [|reflexivity].
    destruct (c * READ_SIZE <=? a * READ_SIZE + len data);
      apply IH; try reflexivity; now left.
  - rewrite Ht.
    replace (READ_SIZE >? 0) with true by (symmetry; apply Z.gtb_lt; lia).
    destruct (Z.leb_spec (c * READ_SIZE) (a * READ_SIZE + READ_SIZE)).
    + apply IH; [reflexivity|]. right.
      exists (a + 1), (c + (r + 1)). repeat split; nia.
    + apply IH; [reflexivity|]. right.
      exists (a + 1), c. repeat split; nia.
Qed.

Lemma read_file_fits (fp : FILE) (p : proc) :
  f_broken fp = false -> read_file fp p = Ret (read_file_unchecked fp p).
Proof.
  intros Hb. unfold read_file, read_file_unchecked.
  rewrite read_file_loop_fits.
  - destruct (read_file_loop_unchecked _ fp [] 0 READ_SIZE 0)
      as [[[buf total] fp']|]; [|reflexivity].
    cbn [option_map]. now destruct (ferror fp').
  - assumption.
  - right. exists 0, 1. unfold READ_SIZE. lia.
Qed.

Lemma read_file_sound (data : bytes) (p : proc) :
  read_file (fopen_on data) p = Ret (Some (data, len data), p).
Proof.
  rewrite read_file_fits by reflexivity.
  now rewrite read_file_unchecked_sound.
Qed.

Lemma put_ok (p : proc) (buf : bytes) (n : Z) :
  o_ok (stdout p) = true -> 0 <= n <= len buf ->
  put p buf n = mkproc (mkOFILE (o_data (stdout p) ++ take n buf) true) (stderr p).
Proof.
  intros Hok Hn. unfold put, fwrite. now rewrite Hok.
Qed.

Lemma put_whole (p : proc) (buf : bytes) (n : Z) :
  o_ok (stdout p) = true -> n = len buf ->
  put p buf n = mkproc (mkOFILE (o_data (stdout p) ++ buf) true) (stderr p).
Proof.
  intros Hok ->. unfold put. now rewrite fwrite_ok.
Qed.

Lemma find_signature_short (sig : bytes) (buf : bytes) :
  len buf < 146 -> find_signature sig buf (len buf) = Ret (-1, sig, len buf).
Proof.
  intros Hs. cbv beta zeta delta [find_signature SIG_START_LEN SIG_END_LEN].
  rewrite len_sig_start, len_sig_end.
  destruct (Z.ltb_spec (len buf) (30 + B64_SIG_SIZE + 28)) as [_|Hge];
    [reflexivity | unfold B64_SIG_SIZE in Hge; lia].
Qed.

Lemma find_signature_long (sig : bytes) (buf : bytes) :
  146 <= len buf ->
  let p := len buf - 146 in
  find_signature sig buf (len buf)
  = if negb (memcmp SIG_END (take 28 (drop (p + 118) buf)) =? 0)
    then Ret (-1, sig, len buf)
    else if negb (memcmp SIG_START (take 30 (drop p buf)) =? 0)
    then Ret (-1, sig, len buf)
    else if b64_bad (take 88 (take 88 (drop (p + 30) buf))) 64
    then Ret (-1, sig, len buf)
    else Ret (0, b64_decode (take 88 (take 88 (drop (p + 30) buf))), p).
Proof.
  intros Hl p.
  cbv beta zeta delta [find_signature SIG_START_LEN SIG_END_LEN decode_exactly].
  rewrite len_sig_start, len_sig_end. unfold B64_SIG_SIZE.
  destruct (Z.ltb_spec (len buf) (30 + 88 + 28)) as [|_]; [lia|].
  replace (len buf - (30 + 88 + 28)) with p by (subst p; lia).
  replace (len buf - 28) with (p + 118) by (subst p; lia).
  replace (len buf - 88 - 28) with (p + 30) by (subst p; lia).
  rewrite (mem_read_defined buf (p + 118) 28) by (subst p; lia). cbn [bind].
  destruct (negb (memcmp SIG_END (take 28 (drop (p + 118) buf)) =? 0));
    [reflexivity|].
  rewrite (mem_read_defined buf p 30) by (subst p; lia). cbn [bind].
  destruct (negb (memcmp SIG_START (take 30 (drop p buf)) =? 0));
    [reflexivity|].
  rewrite (mem_read_defined buf (p + 30) 88) by (subst p; lia). cbn [bind].
  destruct (b64_bad (take 88 (take 88 (drop (p + 30) buf))) 64); reflexivity.
Qed.

Lemma find_signature_layout (sig : bytes) (m b64 : bytes) :
  len b64 = 88 ->
  find_signature sig (m ++ SIG_START ++ b64 ++ SIG_END)
    (len (m ++ SIG_START ++ b64 ++ SIG_END))
  = if b64_bad b64 64 then Ret (-1, sig, len (m ++ SIG_START ++ b64 ++ SIG_END))
    else Ret (0, b64_decode b64, len m).
Proof.
  intros Hb. pose proof (len_nonneg m) as Hm.
  set (buf := m ++ SIG_START ++ b64 ++ SIG_END).
  assert (Hl : len buf = len m + 146) by (subst buf; lens).
  rewrite (find_signature_long sig buf) by lia. cbv zeta.
  replace (len buf - 146) with (len m) by lia.
  assert (E1 : take 28 (drop (len m + 118) buf) = SIG_END).
  { replace buf with ((m ++ SIG_START ++ b64) ++ SIG_END) by (subst buf; assoc).
    rewrite drop_app by lens. now apply take_all. }
  assert (E2 : take 30 (drop (len m) buf) = SIG_START).
  { subst buf. rewrite drop_app by reflexivity. now apply take_app. }
  assert (E3 : take 88 (drop (len m + 30) buf) = b64).
  { replace buf with ((m ++ SIG_START) ++ b64 ++ SIG_END) by (subst buf; assoc).
    rewrite drop_app by lens. apply take_app. lia. }
  rewrite E1, E2, E3, !memcmp_refl. cbn [Z.eqb negb].
  rewrite (take_all b64) by lia. reflexivity.
Qed.

Lemma find_signature_cases (sig : bytes) (buf : bytes) :
  find_signature sig buf (len buf) = Ret (-1, sig, len buf)
  \/ exists m b64,
       len b64 = 88
       /\ buf = m ++ SIG_START ++ b64 ++ SIG_END
       /\ b64_bad b64 64 = false
       /\ find_signature sig buf (len buf) = Ret (0, b64_decode b64, len m).
Proof.
  destruct (Z.lt_ge_cases (len buf) 146) as [Hs|Hs];
    [left; now apply find_signature_short|].
  rewrite (find_signature_long sig buf Hs). cbv zeta.
  set (p := len buf - 146).
  set (top := take 30 (drop p buf)).
  set (b64 := take 88 (drop (p + 30) buf)).
  set (bot := take 28 (drop (p + 118) buf)).
  assert (Hbuf : buf = take p buf ++ top ++ b64 ++ bot).
  { rewrite <- (take_drop buf p) at 1. f_equal.
    rewrite (slice_next buf p 30) by lia. f_equal.
    rewrite (slice_next buf (p + 30) 88) by lia. f_equal.
    replace (p + 30 + 88) with (p + 118) by lia.
    rewrite (slice_next buf (p + 118) 28) by lia.
    rewrite (drop_all buf (p + 118 + 28)) by lia. now rewrite app_nil_r. }
  assert (Ltop : len top = 30) by (apply len_take; rewrite len_drop; lia).
  assert (Lb64 : len b64 = 88) by (apply len_take; rewrite len_drop; lia).
  assert (Lbot : len bot = 28) by (apply len_take; rewrite len_drop; lia).
  destruct (Z.eqb_spec (memcmp SIG_END bot) 0) as [Cb|Cb];
    cbn [negb]; [|now left].
  destruct (Z.eqb_spec (memcmp SIG_START top) 0) as [Ct|Ct];
    cbn [negb]; [|now left].
  rewrite (take_all b64) by lia.
  destruct (b64_bad b64 64) eqn:Bad; [now left|].
  right. exists (take p buf), b64.
  apply memcmp_eq in Ct; [|apply len_eq_length; rewrite Ltop; reflexivity].
  apply memcmp_eq in Cb; [|apply len_eq_length; rewrite Lbot; reflexivity].
  rewrite <- Ct, <- Cb in Hbuf.
  repeat split; try assumption.
  do 2 f_equal. rewrite len_take; subst p; lia.
Qed.

Lemma sign_output_eq (m s : bytes) (p : proc) :
  len s = 64 -> len (b64_encode s) = 88 -> o_ok (stdout p) = true ->
  sign_output m (len m) s p
  = mkproc (mkOFILE (o_data (stdout p) ++ m ++ SIG_START ++ b64_encode s
                     ++ SIG_END) true) (stderr p).
Proof.
  intros Hs He Hok. unfold sign_output.
  rewrite IchiFacts.b64_sig_filled by assumption.
  unfold SIG_START_LEN, SIG_END_LEN, B64_SIG_SIZE.
  rewrite (put_whole p) by auto.
  rewrite put_whole by auto.
  rewrite put_whole by auto.
  rewrite put_whole by auto.
  cbn [stdout stderr o_data]. repeat rewrite <- app_assoc. reflexivity.
Qed.

(** What [find_key_in_file] does on a file just opened on [c]: the status
    and key follow the loading rule of the specification; the array of
    encoded text is zeroed when loading fails and keeps the text when it
    succeeds. *)
Lemma find_key_in_file_load (key c b64_key : bytes) (p : proc) :
  len b64_key = 44 ->
  find_key_in_file key (fopen_on c) b64_key p
  = let fp' := snd (fread 44 (fopen_on c)) in
    if len c <? 44
    then (-1, key, fp', repeat x00 44, err p (txt "kurv: fread"))
    else match Spec.load_public_key (Some c) with
         | None => (-1, key, fp', repeat x00 44, p)
         | Some pk => (0, pk, fp', take 44 c, p)
         end.
Proof.
  intros Hb. unfold find_key_in_file, read_exactly, B64_KEY_SIZE.
  destruct (fread 44 (fopen_on c)) as [got fp'] eqn:R. cbv zeta. cbn [snd].
  assert (got = take 44 c) as ->.
  { unfold fread, fopen_on in R. cbn [f_pending f_broken f_eof f_error] in R.
    destruct (len (take 44 c) <? 44); now inversion R. }
  unfold Spec.load_public_key.
  destruct (Z.ltb_spec (len c) 44) as [Hs|Hl].
  - rewrite (take_all c) by lia.
    destruct (Z.eqb_spec (len c) 44) as [|_]; [lia|]. cbn [negb Z.eqb].
    rewrite (crypto_wipe_len (store c b64_key) 44) by (rewrite len_store; lia).
    reflexivity.
  - assert (L : len (take 44 c) = 44) by (apply len_take; lia).
    rewrite L, Z.eqb_refl. cbn [Z.eqb negb orb].
    rewrite store_whole by lia.
    unfold find_key, decode_exactly, B64_KEY_SIZE. rewrite Z.ltb_irrefl.
    rewrite take_take by lia.
    destruct (b64_bad (take 44 c) 32); cbn [Z.eqb negb]; [|reflexivity].
    now rewrite (crypto_wipe_len (take 44 c) 44).
Qed.

(** [sign] returns or exits with its array [sk] zeroed, on every path. *)
Lemma sign_wipes_sk (fp sk_fp : FILE) (sk : bytes) (p p' : proc)
    (r : run Z) (left : bytes) :
  sign fp sk_fp sk p = Ret (r, p', left) -> left = crypto_wipe left.
Proof.
  unfold sign.
  destruct (find_key_in_file sk sk_fp (fresh 44) p)
    as [[[[r0 sk1] fp1] b64] p1].
  destruct (r0 =? -1).
  - intros H. injection H as _ _ <-. now rewrite crypto_wipe_idem.
  - destruct (read_file fp p1) as [[[[msg n]|] p2]|f]; cbn [bind];
      intros H; try discriminate H;
      injection H as _ _ <-; now rewrite crypto_wipe_idem.
Qed.

End Facts.
End KurvFacts.

(** ** Facts about the two layouts *)

Module LayoutFacts.

(** Where the parts of the envelope lie in a buffer that has the layout of
    ichi-sign, and in one that has the layout of kurv. *)
Lemma joined_layout_parts (buf : bytes) :
  Spec.joined_layout Ichi.SIG_ARMOR_TOP Ichi.SIG_ARMOR_END buf ->
  let k := len buf - 149 in
  0 <= k
  /\ take 30 (drop k buf) = Ichi.SIG_ARMOR_TOP
  /\ take 1 (drop (k + 74) buf) = [NL]
  /\ drop (k + 119) buf = Ichi.SIG_ARMOR_END.
Proof.
  intros (m & h1 & h2 & L1 & L2 & ->). cbv zeta.
  pose proof (len_nonneg m) as Hm.
  assert (Lb : len (m ++ Ichi.SIG_ARMOR_TOP ++ h1 ++ [NL] ++ h2
                    ++ Ichi.SIG_ARMOR_END) - 149 = len m).
  { rewrite !len_app, L1, L2, IchiFacts.len_top, IchiFacts.len_end.
    change (len [NL]) with 1. lia. }
  rewrite Lb. split; [exact Hm|]. split; [|split].
  - rewrite drop_app by reflexivity. now apply take_app.
  - replace (m ++ Ichi.SIG_ARMOR_TOP ++ h1 ++ [NL] ++ h2
             ++ Ichi.SIG_ARMOR_END)
      with ((m ++ Ichi.SIG_ARMOR_TOP ++ h1) ++ [NL] ++ h2
            ++ Ichi.SIG_ARMOR_END) by assoc.
    rewrite drop_app by (rewrite !len_app, L1, IchiFacts.len_top; lia).
    now apply take_app.
  - replace (m ++ Ichi.SIG_ARMOR_TOP ++ h1 ++ [NL] ++ h2
             ++ Ichi.SIG_ARMOR_END)
      with ((m ++ Ichi.SIG_ARMOR_TOP ++ h1 ++ [NL] ++ h2)
            ++ Ichi.SIG_ARMOR_END) by assoc.
    apply drop_app. rewrite !len_app, L1, L2, IchiFacts.len_top.
    change (len [NL]) with 1. lia.
Qed.

Lemma unbroken_layout_parts (buf : bytes) :
  Spec.unbroken_layout Kurv.SIG_START Kurv.SIG_END buf ->
  let k := len buf - 146 in
  0 <= k
  /\ take 30 (drop k buf) = Kurv.SIG_START
  /\ drop (k + 118) buf = Kurv.SIG_END.
Proof.
  intros (m & b64 & Lb & ->). cbv zeta.
  pose proof (len_nonneg m) as Hm.
  assert (Lm : len (m ++ Kurv.SIG_START ++ b64 ++ Kurv.SIG_END) - 146
               = len m).
  { rewrite !len_app, Lb, KurvFacts.len_sig_start, KurvFacts.len_sig_end.
    lia. }
  rewrite Lm. split; [exact Hm|]. split.
  - rewrite drop_app by reflexivity. now apply take_app.
  - replace (m ++ Kurv.SIG_START ++ b64 ++ Kurv.SIG_END)
      with ((m ++ Kurv.SIG_START ++ b64) ++ Kurv.SIG_END) by assoc.
    apply drop_app. rewrite !len_app, Lb, KurvFacts.len_sig_start. lia.
Qed.

End LayoutFacts.

(** ** Facts about reading streams *)

Module StreamFacts.
Section Facts.
Context {B64 : Base64} {MC : Monocypher}.

(** The size [fp_to_buf] reports is the length of the buffer it returns. *)
Lemma fp_to_buf_loop_len (fuel : nat) : forall fp buf total size err r e,
  total = len buf ->
  Ichi.fp_to_buf_loop fuel fp buf total size err = Some (Some r, e) ->
  snd r = len (fst r).
Proof.
  induction fuel as [|fuel IH]; intros fp buf total size err r e Ht;
    [discriminate|].
  cbn [Ichi.fp_to_buf_loop].
  destruct (fread Ichi.BUF_SIZE fp) as [got fp1].
  destruct (ferror fp1); [discriminate|].
  destruct (feof fp1).
  - intros [= <- _]. cbn [fst snd]. rewrite len_app. lia.
  - apply IH. rewrite len_app. lia.
Qed.

Lemma fp_to_buf_len (fp : FILE) (err e : log) (msg : bytes) (n : Z) :
  Ichi.fp_to_buf fp err = (Some (msg, n), e) -> n = len msg.
Proof.
  unfold Ichi.fp_to_buf.
  destruct (Ichi.fp_to_buf_loop _ fp [] 0 Ichi.BUF_SIZE err)
    as [[[r|] e']|] eqn:L; try discriminate.
  intros [= -> _].
  apply (fp_to_buf_loop_len _ _ _ _ _ _ _ _ eq_refl L).
Qed.

Lemma read_file_loop_len (fuel : nat) : forall fp buf total size r b t fp',
  total = len buf ->
  Kurv.read_file_loop fuel fp buf total size r = Some (Ret (b, t, fp')) ->
  t = len b.
Proof.
  induction fuel as [|fuel IH]; intros fp buf total size r b t fp' Ht;
    [discriminate|].
  cbn [Kurv.read_file_loop].
  destruct (feof fp); [now intros [= <- <- _]|].
  destruct (fread_into size total Kurv.READ_SIZE fp) as [[got fp1]|f];
    [|discriminate].
  destruct (len got >? 0); [|now intros [= <- <- _]].
  destruct (size <=? total + len got); apply IH; rewrite len_app; lia.
Qed.

Lemma read_file_len (fp : FILE) (p p' : Kurv.proc) (msg : bytes) (n : Z) :
  Kurv.read_file fp p = Ret (Some (msg, n), p') ->
  n = len msg /\ p' = p.
Proof.
  unfold Kurv.read_file.
  destruct (Kurv.read_file_loop _ fp [] 0 Kurv.READ_SIZE 0)
    as [[[[b t] fp']|f]|] eqn:L; try discriminate.
  destruct (ferror fp'); [discriminate|].
  intros [= <- <- <-]. split; [|reflexivity].
  apply (read_file_loop_len _ _ _ _ _ _ _ _ _ eq_refl L).
Qed.

Lemma read_file_stdout (fp : FILE) (p p' : Kurv.proc)
    (file : option (bytes * Z)) :
  Kurv.read_file fp p = Ret (file, p') -> Kurv.stdout p' = Kurv.stdout p.
Proof.
  unfold Kurv.read_file.
  destruct (Kurv.read_file_loop _ fp [] 0 Kurv.READ_SIZE 0)
    as [[[[b t] fp']|f]|]; try discriminate.
  - destruct (ferror fp'); now intros [= _ <-].
  - now intros [= _ <-].
Qed.

Lemma find_key_in_file_stdout (key b64_key : bytes) (fp : FILE)
    (p : Kurv.proc) :
  Kurv.stdout (snd (Kurv.find_key_in_file key fp b64_key p)) = Kurv.stdout p.
Proof.
  unfold Kurv.find_key_in_file, Kurv.read_exactly.
  destruct (fread Kurv.B64_KEY_SIZE fp) as [got fp'].
  destruct (negb (len got =? Kurv.B64_KEY_SIZE)); cbn [Z.eqb negb];
    [reflexivity|].
  destruct (Kurv.find_key key (store got b64_key) Kurv.B64_KEY_SIZE)
    as [r2 key1].
  now destruct (negb (r2 =? 0)).
Qed.

(** The fuel given to the two reading loops is always enough, whatever the
    state of the stream. *)
Lemma fp_to_buf_loop_fuel (fuel : nat) : forall fp buf total size err,
  (length (f_pending fp) < fuel)%nat ->
  Ichi.fp_to_buf_loop fuel fp buf total size err <> None.
Proof.
  induction fuel as [|fuel IH]; intros fp buf total size err Hf; [lia|].
  cbn [Ichi.fp_to_buf_loop]. unfold fread.
  assert (0 < Ichi.BUF_SIZE) as Hpos by (unfold Ichi.BUF_SIZE; lia).
  destruct (Z.ltb_spec (len (take Ichi.BUF_SIZE (f_pending fp))) Ichi.BUF_SIZE)
    as [Hs|Hs]; cbn [ferror feof f_error f_eof].
  - destruct (f_broken fp); [discriminate|].
    destruct (f_error fp); discriminate.
  - destruct (f_error fp); [discriminate|].
    destruct (f_eof fp); [discriminate|].
    apply IH. cbn [f_pending].
    pose proof (len_take_le (f_pending fp) Ichi.BUF_SIZE).
    pose proof (len_drop (f_pending fp) Ichi.BUF_SIZE ltac:(lia)) as E.
    unfold len in *. lia.
Qed.

Lemma read_file_loop_fuel (fuel : nat) : forall fp buf total size r,
  (length (f_pending fp) < fuel)%nat ->
  Kurv.read_file_loop fuel fp buf total size r <> None.
Proof.
  induction fuel as [|fuel IH]; intros fp buf total size r Hf; [lia|].
  cbn [Kurv.read_file_loop].
  destruct (feof fp); [discriminate|].
  unfold fread_into.
  destruct ((0 <=? total) && (total + Kurv.READ_SIZE <=? size));
    [|discriminate].
  destruct (fread Kurv.READ_SIZE fp) as [got fp1] eqn:R.
  destruct (Z.gtb_spec (len got) 0) as [Hn|Hn]; [|discriminate].
  assert (Hlt : (length (f_pending fp1) < fuel)%nat).
  { unfold fread in R.
    assert (got = take Kurv.READ_SIZE (f_pending fp)
            /\ f_pending fp1 = drop Kurv.READ_SIZE (f_pending fp)) as [-> ->].
    { destruct (len (take Kurv.READ_SIZE (f_pending fp)) <? Kurv.READ_SIZE);
        inversion R; auto. }
    pose proof (take_drop (f_pending fp) Kurv.READ_SIZE) as E.
    apply (f_equal len) in E. rewrite len_app in E. unfold len in *. lia. }
  destruct (size <=? total + len got); now apply IH.
Qed.

End Facts.
End StreamFacts.

(** ** Facts about the keyring scans *)

Module KeyringFacts.
Section Facts.
Context {B64 : Base64} {MC : Monocypher}.

Lemma is_candidate_suffix (name : bytes) :
  Ichi.is_candidate name = true <-> Spec.has_suffix (txt ".sign.pub") name.
Proof.
  unfold Ichi.is_candidate, Spec.has_suffix. split.
  - rewrite andb_true_iff, Z.leb_le, Z.eqb_eq. intros [Hl Hc].
    apply strcmp_eq in Hc. exists (take (len name - 9) name).
    transitivity (take (len name - 9) name ++ drop (len name - 9) name);
      [symmetry; apply take_drop | now rewrite Hc].
  - intros [stem ->]. rewrite len_app. pose proof (len_nonneg stem).
    change (len (txt ".sign.pub")) with 9.
    rewrite andb_true_iff, Z.leb_le, Z.eqb_eq. split; [lia|].
    rewrite drop_app by lia. apply strcmp_refl.
Qed.

Lemma endswith_suffix (name suffix : bytes) :
  Kurv.endswith name suffix = 0 <-> Spec.has_suffix suffix name.
Proof.
  unfold Kurv.endswith, Spec.has_suffix.
  pose proof (len_nonneg name). pose proof (len_nonneg suffix). split.
  - destruct (Z.ltb_spec (len name) (len suffix)) as [|Hl]; [discriminate|].
    intros Hc.
    assert (L : len (drop (len name - len suffix) name) = len suffix)
      by (rewrite len_drop; lia).
    rewrite take_all in Hc by lia.
    apply memcmp_eq in Hc; [|now apply len_eq_length].
    exists (take (len name - len suffix) name).
    transitivity (take (len name - len suffix) name
                  ++ drop (len name - len suffix) name);
      [symmetry; apply take_drop | now rewrite Hc].
  - intros [stem ->]. rewrite len_app. pose proof (len_nonneg stem).
    destruct (Z.ltb_spec (len stem + len suffix) (len suffix)); [lia|].
    rewrite drop_app by lia. rewrite take_all by lia. apply memcmp_refl.
Qed.

Lemma not_candidate_suffix (name : bytes) :
  Kurv.not_candidate name = false <-> Spec.has_suffix (txt ".pub") name.
Proof.
  unfold Kurv.not_candidate. rewrite <- endswith_suffix. split.
  - rewrite !orb_false_iff, negb_false_iff, Z.eqb_eq. tauto.
  - intros He. rewrite He. cbn [Z.eqb negb]. rewrite orb_false_r.
    apply endswith_suffix in He. destruct He as [stem ->].
    apply orb_false_iff. split; apply Z.eqb_neq; intros Hc;
      apply strcmp_eq in Hc; apply (f_equal len) in Hc;
      rewrite len_app in Hc; pose proof (len_nonneg stem);
      vm_compute (len (txt ".pub")) in Hc;
      [vm_compute (len (txt ".")) in Hc | vm_compute (len (txt "..")) in Hc];
      lia.
Qed.

(** What the loop of ichi-sign does with one candidate agrees with the
    loading rule of the specification. *)
Lemma ichi_load_agrees (contents b64_pk : bytes) :
  let got := read contents Ichi.B64_KEY_SIZE in
  let b64_pk1 := store got b64_pk in
  match Spec.load_public_key (Some contents) with
  | None =>
      (len got <? Ichi.B64_KEY_SIZE)
      || b64_bad (take Ichi.B64_KEY_SIZE b64_pk1) 32 = true
  | Some pk =>
      (len got <? Ichi.B64_KEY_SIZE)
      || b64_bad (take Ichi.B64_KEY_SIZE b64_pk1) 32 = false
      /\ b64_decode (take Ichi.B64_KEY_SIZE b64_pk1) = pk
  end.
Proof.
  cbv zeta. unfold read, Ichi.B64_KEY_SIZE, Spec.load_public_key.
  destruct (Z.ltb_spec (len contents) 44) as [Hs|Hl].
  - cbn [orb]. rewrite (take_all contents) by lia.
    destruct (Z.ltb_spec (len contents) 44); [reflexivity | lia].
  - assert (L : len (take 44 contents) = 44) by (apply len_take; lia).
    rewrite L. cbn [Z.ltb Z.compare Pos.compare Pos.compare_cont orb].
    assert (T : take 44 (store (take 44 contents) b64_pk) = take 44 contents).
    { rewrite <- L at 1. apply take_store. }
    rewrite T. destruct (b64_bad (take 44 contents) 32); auto.
Qed.

Lemma write_any (fp : OFILE) (buf : bytes) (n : Z) :
  0 <= n <= len buf ->
  Ichi._write fp buf n = (0, mkOFILE (o_data fp ++ take n buf) (o_ok fp))
  \/ Ichi._write fp buf n = (1, fp).
Proof.
  intros Hn. unfold Ichi._write, fwrite. destruct fp as [d [|]]; cbn.
  - left. rewrite len_take by assumption. now rewrite Z.eqb_refl.
  - destruct n as [|n|n]; [left|right; reflexivity|right; reflexivity].
    rewrite take_nonpos by lia. now rewrite app_nil_r.
Qed.

(** The scan of ichi-sign is a search for the first candidate that loads and
    verifies; entries passed over leave no trace, whatever the reused buffer
    held. *)
Lemma ichi_scan_search (ctx : Ichi.verify_ctx) (keyring_dir msg sig : bytes)
    (n : Z) (err : log) :
  forall (dir : DIR) (b64_pk : bytes),
  Ichi.keyring_scan ctx keyring_dir msg n sig dir b64_pk err
  = match find (fun e => Ichi.is_candidate (d_name e)
                         && Spec.verifies sig (take n msg) e) dir with
    | Some e =>
        let err1 :=
          Ichi.ERR err (Ichi.good_signature_by keyring_dir (d_name e)) in
        if Ichi.v_stream_output ctx
        then Ichi.XWRITE (Ichi.v_output ctx) msg n err1
               (fun out => (0, out, err1))
        else (0, Ichi.v_output ctx, err1)
    | None => (1, Ichi.v_output ctx, err)
    end.
Proof.
  intros dir. induction dir as [|entry rest IH]; intros b64_pk;
    [reflexivity|].
  cbn [Ichi.keyring_scan find].
  destruct (Ichi.is_candidate (d_name entry)); cbn [andb]; [|apply IH].
  unfold Spec.verifies at 1.
  destruct (d_contents entry) as [contents|] eqn:Hc; [|apply IH].
  pose proof (ichi_load_agrees contents b64_pk) as A. cbv zeta in A.
  destruct (Spec.load_public_key (Some contents)) as [pk|].
  - destruct A as [A1 A2]. rewrite A1, A2.
    destruct (crypto_check sig pk (take n msg) =? 0); [reflexivity|apply IH].
  - rewrite A. apply IH.
Qed.

Lemma ichi_scan_find (ctx : Ichi.verify_ctx) (keyring_dir msg sig : bytes)
    (n : Z) (err : log) :
  0 <= n <= len msg -> o_ok (Ichi.v_output ctx) = true ->
  forall (dir : DIR) (b64_pk : bytes),
  Ichi.keyring_scan ctx keyring_dir msg n sig dir b64_pk err
  = match find (fun e => Ichi.is_candidate (d_name e)
                         && Spec.verifies sig (take n msg) e) dir with
    | Some e =>
        (0,
         if Ichi.v_stream_output ctx
         then mkOFILE (o_data (Ichi.v_output ctx) ++ take n msg) true
         else Ichi.v_output ctx,
         Ichi.ERR err (Ichi.good_signature_by keyring_dir (d_name e)))
    | None => (1, Ichi.v_output ctx, err)
    end.
Proof.
  intros Hn Hok dir b64_pk. rewrite ichi_scan_search.
  destruct (find _ dir) as [e|]; [|reflexivity]. cbv zeta.
  destruct (Ichi.v_stream_output ctx); [|reflexivity].
  now rewrite IchiFacts.XWRITE_take.
Qed.

(** Whatever the state of the output stream, the scan of ichi-sign writes
    nothing unless it returns 0 after a candidate key checked the
    signature. *)
Lemma ichi_scan_guarded (ctx : Ichi.verify_ctx) (keyring_dir msg sig : bytes)
    (n : Z) (err : log) :
  0 <= n <= len msg ->
  forall (dir : DIR) (b64_pk : bytes),
  let '(rv, out', _) :=
    Ichi.keyring_scan ctx keyring_dir msg n sig dir b64_pk err in
  out' = Ichi.v_output ctx
  \/ (rv = 0
      /\ (exists pk, crypto_check sig pk (take n msg) = 0)
      /\ o_data out' = o_data (Ichi.v_output ctx) ++ take n msg).
Proof.
  intros Hn dir. induction dir as [|entry rest IH]; intros b64_pk;
    [left; reflexivity|].
  cbn [Ichi.keyring_scan].
  destruct (Ichi.is_candidate (d_name entry)); [|apply IH].
  destruct (d_contents entry) as [contents|]; [|apply IH].
  destruct ((len (read contents Ichi.B64_KEY_SIZE) <? Ichi.B64_KEY_SIZE)
            || b64_bad (take Ichi.B64_KEY_SIZE
                          (store (read contents Ichi.B64_KEY_SIZE) b64_pk)) 32);
    [apply IH|].
  destruct (Z.eqb_spec
              (crypto_check sig
                 (b64_decode (take Ichi.B64_KEY_SIZE
                                (store (read contents Ichi.B64_KEY_SIZE) b64_pk)))
                 (take n msg)) 0) as [Hc|_]; [|apply IH].
  destruct (Ichi.v_stream_output ctx); [|left; reflexivity].
  unfold Ichi.XWRITE.
  destruct (write_any (Ichi.v_output ctx) msg n Hn) as [W|W]; rewrite W;
    cbn [Z.eqb]; [right | left; reflexivity].
  split; [reflexivity|]. split; [eauto | reflexivity].
Qed.

(** The standard output of kurv after the report of a match. *)
Lemma kurv_report (p : Kurv.proc) (name msg : bytes) (n : Z) (id og : bool) :
  o_ok (Kurv.stdout p) = true -> 0 <= n <= len msg ->
  (let p2 := if id then Kurv.put p (name ++ [NL]) (len name + 1) else p in
   if og then Kurv.put p2 msg n else p2)
  = Kurv.mkproc
      (mkOFILE (o_data (Kurv.stdout p)
                ++ (if id then name ++ [NL] else [])
                ++ (if og then take n msg else [])) true)
      (Kurv.stderr p).
Proof.
  intros Hok Hn. cbv zeta.
  assert (Hl : len name + 1 = len (name ++ [NL]))
    by (rewrite len_app, len_cons, len_nil; lia).
  destruct id, og.
  - rewrite (KurvFacts.put_whole p) by assumption.
    rewrite KurvFacts.put_ok by (cbn; auto).
    cbn [Kurv.stdout Kurv.stderr o_data]. now rewrite <- app_assoc.
  - rewrite (KurvFacts.put_whole p) by assumption.
    now rewrite app_nil_r.
  - rewrite KurvFacts.put_ok by assumption. reflexivity.
  - destruct p as [[d ok] e]. cbn in Hok. subst ok. cbn.
    now rewrite app_nil_r.
Qed.

Lemma read_diagnostics_cons (candidate : bytes -> bool) (e : dirent)
    (l : DIR) :
  Spec.read_diagnostics candidate (e :: l)
  = (if candidate (d_name e) && Spec.too_short e
     then [txt "kurv: fread"] else [])
    ++ Spec.read_diagnostics candidate l.
Proof. reflexivity. Qed.

(** The scan of kurv is a search for the first candidate that loads and
    verifies; a candidate that is too short leaves a read diagnostic on
    standard error and is passed over like the others. *)
Lemma kurv_scan_search (w : world) (path msg sig : bytes) (n : Z)
    (id og : bool) :
  forall (dir : DIR) (p : Kurv.proc),
  (forall e, In e dir -> fopen_r w (path ++ d_name e) = d_contents e) ->
  let hit e :=
    negb (Kurv.not_candidate (d_name e)) && Spec.verifies sig (take n msg) e in
  let noise :=
    Spec.read_diagnostics (fun name => negb (Kurv.not_candidate name)) in
  Kurv.keyring_scan w path msg n sig id og dir p
  = match find hit dir with
    | Some e =>
        let p1 :=
          Kurv.mkproc (Kurv.stdout p)
            (Kurv.stderr p ++ noise (Spec.before hit dir)) in
        let p2 :=
          if id then Kurv.put p1 (d_name e ++ [NL]) (len (d_name e) + 1)
          else p1 in
        (Kurv.Exits 0, if og then Kurv.put p2 msg n else p2)
    | None =>
        (Kurv.Exits 1,
         Kurv.mkproc (Kurv.stdout p)
           (Kurv.stderr p ++ noise dir ++ [txt "cannot find a signer."]))
    end.
Proof.
  intros dir p Hco hit noise. revert p Hco.
  induction dir as [|dp rest IH]; intros p Hco; [reflexivity|].
  assert (Hco' : forall e, In e rest -> fopen_r w (path ++ d_name e) = d_contents e)
    by (intros e He; apply Hco; now right).
  (* what the loop does with [dp] when it passes over it *)
  assert (Skip : forall p1 d,
            hit dp = false ->
            (if negb (Kurv.not_candidate (d_name dp)) && Spec.too_short dp
             then [txt "kurv: fread"] else []) = d ->
            Kurv.stdout p1 = Kurv.stdout p ->
            Kurv.stderr p1 = Kurv.stderr p ++ d ->
            Kurv.keyring_scan w path msg n sig id og rest p1
            = match find hit (dp :: rest) with
              | Some e =>
                  let p1 :=
                    Kurv.mkproc (Kurv.stdout p)
                      (Kurv.stderr p ++ noise (Spec.before hit (dp :: rest))) in
                  let p2 :=
                    if id
                    then Kurv.put p1 (d_name e ++ [NL]) (len (d_name e) + 1)
                    else p1 in
                  (Kurv.Exits 0, if og then Kurv.put p2 msg n else p2)
              | None =>
                  (Kurv.Exits 1,
                   Kurv.mkproc (Kurv.stdout p)
                     (Kurv.stderr p ++ noise (dp :: rest)
                      ++ [txt "cannot find a signer."]))
              end).
  { intros p1 d Hhit Hd Ho He. rewrite (IH p1 Hco').
    cbn [find Spec.before]. rewrite Hhit.
    unfold noise. rewrite !read_diagnostics_cons, Hd, Ho, He.
    destruct (find hit rest); repeat rewrite <- app_assoc; reflexivity. }
  cbn [Kurv.keyring_scan].
  destruct (Kurv.not_candidate (d_name dp)) eqn:Hcand.
  { apply (Skip p []); try reflexivity.
    - unfold hit. now rewrite Hcand.
    - now rewrite app_nil_r. }
  rewrite (Hco dp (or_introl eq_refl)).
  destruct (d_contents dp) as [c|] eqn:Hc.
  2:{ apply (Skip p []).
      - unfold hit, Spec.verifies. rewrite Hc. apply andb_false_r.
      - unfold Spec.too_short. rewrite Hc. now rewrite andb_false_r.
      - reflexivity.
      - now rewrite app_nil_r. }
  rewrite KurvFacts.find_key_in_file_load by (now rewrite len_fresh).
  cbv zeta.
  destruct (Z.ltb_spec (len c) 44) as [Hs|Hl].
  - cbn [Z.eqb negb orb]. apply (Skip _ [txt "kurv: fread"]).
    + unfold hit, Spec.verifies, Spec.load_public_key. rewrite Hc.
      destruct (Z.ltb_spec (len c) 44); [apply andb_false_r | lia].
    + unfold Spec.too_short. rewrite Hc.
      destruct (Z.ltb_spec (len c) 44); [reflexivity | lia].
    + reflexivity.
    + reflexivity.
  - assert (Hshort : (if negb false && Spec.too_short dp
                      then [txt "kurv: fread"] else []) = @nil bytes).
    { unfold Spec.too_short. rewrite Hc.
      destruct (Z.ltb_spec (len c) 44); [lia | reflexivity]. }
    destruct (Spec.load_public_key (Some c)) as [pk|] eqn:Hload.
    + cbn [Z.eqb negb orb].
      destruct (crypto_check sig pk (take n msg) =? 0) eqn:Hcheck; cbn [negb].
      * cbn [find Spec.before].
        assert (Hhit : hit dp = true).
        { unfold hit, Spec.verifies. now rewrite Hcand, Hc, Hload. }
        rewrite Hhit. cbv zeta. unfold noise.
        change (Spec.read_diagnostics _ []) with (@nil bytes).
        rewrite app_nil_r. now destruct p.
      * apply (Skip p []); try assumption; try reflexivity.
        -- unfold hit, Spec.verifies. now rewrite Hcand, Hc, Hload.
        -- now rewrite app_nil_r.
    + cbn [Z.eqb negb orb].
      apply (Skip p []); try assumption; try reflexivity.
      * unfold hit, Spec.verifies. now rewrite Hcand, Hc, Hload.
      * now rewrite app_nil_r.
Qed.

Lemma kurv_scan_find (w : world) (path msg sig : bytes) (n : Z)
    (id og : bool) :
  0 <= n <= len msg ->
  forall (dir : DIR) (p : Kurv.proc),
  o_ok (Kurv.stdout p) = true ->
  (forall e, In e dir -> fopen_r w (path ++ d_name e) = d_contents e) ->
  let hit e :=
    negb (Kurv.not_candidate (d_name e)) && Spec.verifies sig (take n msg) e in
  let noise :=
    Spec.read_diagnostics (fun name => negb (Kurv.not_candidate name)) in
  Kurv.keyring_scan w path msg n sig id og dir p
  = match find hit dir with
    | Some e =>
        (Kurv.Exits 0,
         Kurv.mkproc
           (mkOFILE (o_data (Kurv.stdout p)
                     ++ (if id then d_name e ++ [NL] else [])
                     ++ (if og then take n msg else [])) true)
           (Kurv.stderr p ++ noise (Spec.before hit dir)))
    | None =>
        (Kurv.Exits 1,
         Kurv.mkproc (Kurv.stdout p)
           (Kurv.stderr p ++ noise dir ++ [txt "cannot find a signer."]))
    end.
Proof.
  intros Hn dir p Hok Hco. cbv zeta.
  rewrite (kurv_scan_search w path msg sig n id og dir p Hco). cbv zeta.
  destruct (find _ dir) as [e|]; [|reflexivity].
  now rewrite kurv_report.
Qed.

Lemma put_broken (p : Kurv.proc) (buf : bytes) (n : Z) :
  o_ok (Kurv.stdout p) = false -> Kurv.put p buf n = p.
Proof.
  intros Hok. unfold Kurv.put, fwrite. rewrite Hok. now destruct p.
Qed.

(** The report of a match either leaves standard output as it was (the
    stream is broken) or appends the name and the message asked for. *)
Lemma kurv_report_cases (p : Kurv.proc) (name msg : bytes) (n : Z)
    (id og : bool) :
  0 <= n <= len msg ->
  let p2 := if id then Kurv.put p (name ++ [NL]) (len name + 1) else p in
  let p3 := if og then Kurv.put p2 msg n else p2 in
  Kurv.stdout p3 = Kurv.stdout p
  \/ o_data (Kurv.stdout p3)
     = o_data (Kurv.stdout p) ++ (if id then name ++ [NL] else [])
       ++ (if og then take n msg else []).
Proof.
  intros Hn. cbv zeta. destruct (o_ok (Kurv.stdout p)) eqn:Hok.
  - right. now rewrite kurv_report.
  - left. destruct id, og; rewrite ?put_broken; auto.
    now rewrite put_broken.
Qed.

(** Whatever the state of standard output, the scan of kurv writes nothing
    on it unless it exits with 0 after a candidate key checked the
    signature. *)
Lemma kurv_scan_guarded (w : world) (path msg sig : bytes) (n : Z)
    (id og : bool) :
  0 <= n <= len msg ->
  forall (dir : DIR) (p : Kurv.proc),
  let '(outcome, p') := Kurv.keyring_scan w path msg n sig id og dir p in
  Kurv.stdout p' = Kurv.stdout p
  \/ (outcome = Kurv.Exits 0
      /\ exists pk name,
           crypto_check sig pk (take n msg) = 0
           /\ o_data (Kurv.stdout p')
              = o_data (Kurv.stdout p) ++ (if id then name ++ [NL] else [])
                ++ (if og then take n msg else [])).
Proof.
  intros Hn dir. induction dir as [|dp rest IH]; intros p; [left; reflexivity|].
  cbn [Kurv.keyring_scan].
  destruct (Kurv.not_candidate (d_name dp)); [apply IH|].
  destruct (fopen_r w (path ++ d_name dp)) as [c|]; [|apply IH].
  pose proof (StreamFacts.find_key_in_file_stdout (fresh 32) (fresh 44)
                (fopen_on c) p) as Hp1.
  destruct (Kurv.find_key_in_file (fresh 32) (fopen_on c) (fresh 44) p)
    as [[[[r pk] fp1] left] p1]. cbn [snd] in Hp1.
  destruct (negb (r =? 0)); cbn [orb].
  { specialize (IH p1). destruct (Kurv.keyring_scan _ _ _ _ _ _ _ rest p1).
    now rewrite <- Hp1. }
  destruct (Z.eqb_spec (crypto_check sig pk (take n msg)) 0) as [Hc|_];
    cbn [negb].
  - destruct (kurv_report_cases p1 (d_name dp) msg n id og Hn) as [R|R];
      cbv zeta in R.
    + left. now rewrite R.
    + right. split; [reflexivity|]. exists pk, (d_name dp).
      split; [assumption|]. now rewrite R, Hp1.
  - specialize (IH p1). destruct (Kurv.keyring_scan _ _ _ _ _ _ _ rest p1).
    now rewrite <- Hp1.
Qed.

End Facts.
End KeyringFacts.

(** ** Facts about the operations *)

Module OperationFacts.
Section Facts.
Context {B64 : Base64} {MC : Monocypher}.

(** *** ichi-sign on an input that ends in an envelope *)

Lemma trim_layout (m h1 h2 : bytes) (output : OFILE) (err : log) :
  len h1 = 44 -> len h2 = 44 -> b64_bad (h1 ++ h2) 64 = false ->
  o_ok output = true ->
  Ichi.trim
    (fopen_on (m ++ Ichi.SIG_ARMOR_TOP ++ h1 ++ [NL] ++ h2
               ++ Ichi.SIG_ARMOR_END)) output err
  = Ret (0, mkOFILE (o_data output ++ m) true, err).
Proof.
  intros L1 L2 Hv Hok. unfold Ichi.trim.
  rewrite IchiFacts.fp_to_buf_sound.
  rewrite IchiFacts.sig_from_buf_layout by assumption.
  rewrite Hv. cbn [bind Z.eqb negb].
  pose proof (len_nonneg m).
  rewrite IchiFacts.XWRITE_take
    by (try assumption; rewrite len_app; pose proof (len_nonneg (Ichi.SIG_ARMOR_TOP ++ h1 ++ [NL] ++ h2 ++ Ichi.SIG_ARMOR_END)); lia).
  now rewrite take_app.
Qed.

Lemma verify_joined (w : world) (ctx : Ichi.verify_ctx) (m h1 h2 : bytes)
    (err : log) :
  Ichi.v_input ctx
  = fopen_on (m ++ Ichi.SIG_ARMOR_TOP ++ h1 ++ [NL] ++ h2
              ++ Ichi.SIG_ARMOR_END) ->
  Ichi.v_detached ctx = false ->
  len h1 = 44 -> len h2 = 44 -> b64_bad (h1 ++ h2) 64 = false ->
  Ichi.verify w ctx err
  = Ichi.verify_resolve w ctx
      (m ++ Ichi.SIG_ARMOR_TOP ++ h1 ++ [NL] ++ h2 ++ Ichi.SIG_ARMOR_END)
      (len m) (b64_decode (h1 ++ h2)) err.
Proof.
  intros Hin Hd L1 L2 Hv. unfold Ichi.verify.
  rewrite Hin, IchiFacts.fp_to_buf_sound, Hd.
  rewrite IchiFacts.sig_from_buf_layout by assumption.
  rewrite Hv. reflexivity.
Qed.

Lemma verify_malformed (w : world) (ctx : Ichi.verify_ctx) (buf : bytes)
    (err : log) :
  Ichi.v_input ctx = fopen_on buf -> Ichi.v_detached ctx = false ->
  Ichi.sig_from_buf (fresh 64) (len buf) buf (len buf)
  = Ret (-1, fresh 64, len buf) ->
  Ichi.verify w ctx err
  = Ret (1, Ichi.v_output ctx, Ichi.ERR err (txt "malformed signature")).
Proof.
  intros Hin Hd Hr. unfold Ichi.verify.
  rewrite Hin, IchiFacts.fp_to_buf_sound, Hd, Hr. reflexivity.
Qed.

Lemma verify_invalid (w : world) (ctx : Ichi.verify_ctx) (m h1 h2 : bytes)
    (err : log) :
  Ichi.v_input ctx
  = fopen_on (m ++ Ichi.SIG_ARMOR_TOP ++ h1 ++ [NL] ++ h2
              ++ Ichi.SIG_ARMOR_END) ->
  Ichi.v_detached ctx = false -> Ichi.v_keyring ctx = false ->
  len h1 = 44 -> len h2 = 44 -> b64_bad (h1 ++ h2) 64 = false ->
  crypto_check (b64_decode (h1 ++ h2)) (Ichi.v_pk ctx) m <> 0 ->
  Ichi.verify w ctx err
  = Ret (1, Ichi.v_output ctx, Ichi.ERR err (txt "invalid signature")).
Proof.
  intros Hin Hd Hk L1 L2 Hv Hc.
  rewrite (verify_joined w ctx m h1 h2) by assumption.
  unfold Ichi.verify_resolve, Ichi.verify_pk. rewrite Hk.
  rewrite take_app by reflexivity.
  destruct (Z.eqb_spec (crypto_check (b64_decode (h1 ++ h2)) (Ichi.v_pk ctx) m) 0);
    [contradiction | reflexivity].
Qed.

Lemma verify_exhausted (w : world) (ctx : Ichi.verify_ctx) (m h1 h2 : bytes)
    (keyring_dir : bytes) (dir : DIR) (err : log) :
  Ichi.v_input ctx
  = fopen_on (m ++ Ichi.SIG_ARMOR_TOP ++ h1 ++ [NL] ++ h2
              ++ Ichi.SIG_ARMOR_END) ->
  Ichi.v_detached ctx = false -> Ichi.v_keyring ctx = true ->
  len h1 = 44 -> len h2 = 44 -> b64_bad (h1 ++ h2) 64 = false ->
  getenv w (txt "ICHI_SIGN_KEYRING") = Some keyring_dir ->
  opendir w keyring_dir = Some dir ->
  find (fun e => Ichi.is_candidate (d_name e)
                 && Spec.verifies (b64_decode (h1 ++ h2)) m e) dir = None ->
  Ichi.verify w ctx err = Ret (1, Ichi.v_output ctx, err).
Proof.
  intros Hin Hd Hk L1 L2 Hv Hg Ho Hf.
  rewrite (verify_joined w ctx m h1 h2) by assumption.
  unfold Ichi.verify_resolve, Ichi.verify_keyring. rewrite Hk, Hg, Ho.
  cbn [dirfd bind Z.ltb Z.compare].
  rewrite KeyringFacts.ichi_scan_search.
  rewrite take_app by reflexivity. now rewrite Hf.
Qed.

(** Whatever the surroundings and the state of the streams, [verify] leaves
    the output stream as it was unless it returns 0 after [crypto_check]
    accepted the message it then writes. *)
Lemma verify_guarded (w : world) (ctx : Ichi.verify_ctx) (err : log) :
  match Ichi.verify w ctx err with
  | Undef _ => True
  | Ret (rv, out', _) =>
      out' = Ichi.v_output ctx
      \/ (rv = 0
          /\ exists msg sig pk,
               crypto_check sig pk msg = 0
               /\ (Ichi.v_keyring ctx = false -> pk = Ichi.v_pk ctx)
               /\ o_data out' = o_data (Ichi.v_output ctx) ++ msg)
  end.
Proof.
  assert (Resolve : forall msg n sig e,
            0 <= n <= len msg ->
            match Ichi.verify_resolve w ctx msg n sig e with
            | Undef _ => True
            | Ret (rv, out', _) =>
                out' = Ichi.v_output ctx
                \/ (rv = 0
                    /\ exists msg sig pk,
                         crypto_check sig pk msg = 0
                         /\ (Ichi.v_keyring ctx = false -> pk = Ichi.v_pk ctx)
                         /\ o_data out' = o_data (Ichi.v_output ctx) ++ msg)
            end).
  { intros msg n sig e Hn. unfold Ichi.verify_resolve.
    destruct (Ichi.v_keyring ctx) eqn:Hk.
    - unfold Ichi.verify_keyring.
      destruct (getenv w _) as [kd|]; [|now left].
      destruct (opendir w kd) as [dir|]; [|exact I].
      cbn [dirfd bind Z.ltb Z.compare].
      pose proof (KeyringFacts.ichi_scan_guarded ctx kd msg sig n e Hn dir
                    (fresh 44)) as G.
      destruct (Ichi.keyring_scan ctx kd msg n sig dir (fresh 44) e)
        as [[rv out'] e'].
      destruct G as [G|(G1 & (pk & G2) & G3)]; [now left|right].
      split; [assumption|]. exists (take n msg), sig, pk.
      repeat split; [assumption | discriminate | assumption].
    - unfold Ichi.verify_pk.
      destruct (Z.eqb_spec (crypto_check sig (Ichi.v_pk ctx) (take n msg)) 0)
        as [Hc|_]; cbn [negb]; [|now left].
      destruct (Ichi.v_stream_output ctx); [|now left].
      unfold Ichi.XWRITE.
      destruct (KeyringFacts.write_any (Ichi.v_output ctx) msg n Hn) as [W|W];
        rewrite W; cbn [Z.eqb]; [right | now left].
      split; [reflexivity|]. exists (take n msg), sig, (Ichi.v_pk ctx).
      repeat split; assumption. }
  unfold Ichi.verify.
  destruct (Ichi.fp_to_buf (Ichi.v_input ctx) err) as [[[msg n]|] e1] eqn:F;
    [|now left].
  apply StreamFacts.fp_to_buf_len in F. subst n. pose proof (len_nonneg msg).
  destruct (Ichi.v_detached ctx).
  - destruct (Ichi.v_sig ctx) as [sfp|]; [|exact I].
    destruct (Ichi.sig_from_file sfp (fresh 64) e1) as [[[r sig1] fp'] e2].
    destruct (negb (r =? 0)); [now left|]. apply Resolve. lia.
  - destruct (IchiFacts.sig_from_buf_cases (fresh 64) (len msg) msg)
      as [R|(m & h1 & h2 & L1 & L2 & Hb & Hv & R)]; rewrite R; cbn [bind].
    + now left.
    + cbn [Z.eqb negb]. apply Resolve. rewrite Hb, len_app.
      pose proof (len_nonneg m).
      pose proof (len_nonneg (Ichi.SIG_ARMOR_TOP ++ h1 ++ [NL] ++ h2
                              ++ Ichi.SIG_ARMOR_END)). lia.
Qed.

(** *** kurv on an input that ends in an envelope *)

Lemma detach_layout (m b64 : bytes) (p : Kurv.proc) :
  len b64 = 88 -> b64_bad b64 64 = false -> o_ok (Kurv.stdout p) = true ->
  Kurv.detach (fopen_on (m ++ Kurv.SIG_START ++ b64 ++ Kurv.SIG_END)) p
  = Ret (Kurv.Returns 0,
         Kurv.mkproc (mkOFILE (o_data (Kurv.stdout p) ++ m) true)
           (Kurv.stderr p)).
Proof.
  intros Lb Hv Hok. unfold Kurv.detach.
  rewrite KurvFacts.read_file_sound. cbn [bind].
  rewrite KurvFacts.find_signature_layout by assumption.
  rewrite Hv. cbn [bind Z.ltb Z.compare].
  pose proof (len_nonneg m).
  pose proof (len_nonneg (Kurv.SIG_START ++ b64 ++ Kurv.SIG_END)).
  rewrite KurvFacts.put_ok by (try assumption; rewrite len_app; lia).
  now rewrite take_app.
Qed.

(** [check] once the key file has loaded and the envelope has been found:
    the outcome is decided by [crypto_check] alone. *)
Lemma check_layout (m b64 kf pk pk_fn : bytes) (id og : bool)
    (p : Kurv.proc) :
  len b64 = 88 -> b64_bad b64 64 = false ->
  Spec.load_public_key (Some kf) = Some pk ->
  Kurv.check (fopen_on (m ++ Kurv.SIG_START ++ b64 ++ Kurv.SIG_END))
    (fopen_on kf) pk_fn id og p
  = if crypto_check (b64_decode b64) pk m =? 0
    then
      Ret (Kurv.Returns 0,
           let p3 := if id then Kurv.put p (pk_fn ++ [NL]) (len pk_fn + 1)
                     else p in
           if og
           then Kurv.put p3 (m ++ Kurv.SIG_START ++ b64 ++ Kurv.SIG_END)
                  (len m)
           else p3)
    else Ret (Kurv.die p (txt "invalid signature.")).
Proof.
  intros Lb Hv Hload. unfold Kurv.check.
  rewrite KurvFacts.find_key_in_file_load by (now rewrite len_fresh).
  cbv zeta.
  assert (Hl : (len kf <? 44) = false).
  { unfold Spec.load_public_key in Hload.
    destruct (len kf <? 44); [discriminate | reflexivity]. }
  rewrite Hl, Hload. cbn [Z.eqb].
  rewrite KurvFacts.read_file_sound. cbn [bind].
  rewrite KurvFacts.find_signature_layout by assumption.
  rewrite Hv. cbn [bind Z.ltb Z.compare].
  rewrite take_app by reflexivity.
  now destruct (crypto_check (b64_decode b64) pk m =? 0).
Qed.

Lemma check_malformed (buf pk_fn : bytes) (pk_fp : FILE) (id og : bool)
    (p : Kurv.proc) :
  Kurv.find_signature (fresh 64) buf (len buf)
  = Ret (-1, fresh 64, len buf) ->
  exists p',
    Kurv.check (fopen_on buf) pk_fp pk_fn id og p = Ret (Kurv.Exits 1, p')
    /\ Kurv.stdout p' = Kurv.stdout p.
Proof.
  intros Hr. unfold Kurv.check.
  pose proof (StreamFacts.find_key_in_file_stdout (fresh 32) (fresh 44)
                pk_fp p) as Hp1.
  destruct (Kurv.find_key_in_file (fresh 32) pk_fp (fresh 44) p)
    as [[[[r pk] fp1] left] p1]. cbn [snd] in Hp1.
  destruct (r =? -1); [eexists; split; [reflexivity | exact Hp1]|].
  rewrite KurvFacts.read_file_sound. cbn [bind]. rewrite Hr.
  cbn [bind Z.ltb Z.compare].
  eexists; split; [reflexivity | exact Hp1].
Qed.

Lemma check_keyring_malformed (w : world) (buf : bytes) (id og : bool)
    (p : Kurv.proc) :
  Kurv.find_signature (fresh 64) buf (len buf)
  = Ret (-1, fresh 64, len buf) ->
  exists p',
    Kurv.check_keyring w (fopen_on buf) id og p = Ret (Kurv.Exits 1, p')
    /\ Kurv.stdout p' = Kurv.stdout p.
Proof.
  intros Hr. unfold Kurv.check_keyring.
  destruct (getenv w _) as [kd|];
    [|eexists; split; reflexivity].
  destruct (len kd =? 0); [eexists; split; reflexivity|].
  rewrite KurvFacts.read_file_sound. cbn [bind]. rewrite Hr.
  cbn [bind Z.ltb Z.compare].
  eexists; split; reflexivity.
Qed.

(** The path prefix [check_keyring] builds from the keyring directory. *)
Lemma check_keyring_layout (w : world) (m b64 kd : bytes) (dir : DIR)
    (id og : bool) (p : Kurv.proc) :
  len b64 = 88 -> b64_bad b64 64 = false ->
  getenv w (txt "KURV_KEYRING") = Some kd -> len kd <> 0 ->
  opendir w kd = Some dir ->
  Kurv.check_keyring w
    (fopen_on (m ++ Kurv.SIG_START ++ b64 ++ Kurv.SIG_END)) id og p
  = Ret (Kurv.keyring_scan w
           (if negb (Byte.eqb (char_at kd (len kd - 1)) x2f)
            then kd ++ txt "/" else kd)
           (m ++ Kurv.SIG_START ++ b64 ++ Kurv.SIG_END) (len m)
           (b64_decode b64) id og dir p).
Proof.
  intros Lb Hv Hg Hl Ho. unfold Kurv.check_keyring. rewrite Hg.
  destruct (Z.eqb_spec (len kd) 0); [contradiction|].
  rewrite KurvFacts.read_file_sound. cbn [bind].
  rewrite KurvFacts.find_signature_layout by assumption.
  rewrite Hv. cbn [bind Z.ltb Z.compare]. now rewrite Ho.
Qed.

(** Whatever the streams hold, [check] writes nothing on standard output
    unless it returns 0 after [crypto_check] accepted the message. *)
Lemma check_guarded (fp pk_fp : FILE) (pk_fn : bytes) (id og : bool)
    (p : Kurv.proc) :
  match Kurv.check fp pk_fp pk_fn id og p with
  | Undef _ => True
  | Ret (outcome, p') =>
      Kurv.stdout p' = Kurv.stdout p
      \/ (outcome = Kurv.Returns 0
          /\ exists msg sig pk name,
               crypto_check sig pk msg = 0
               /\ o_data (Kurv.stdout p')
                  = o_data (Kurv.stdout p)
                    ++ (if id then name ++ [NL] else [])
                    ++ (if og then msg else []))
  end.
Proof.
  unfold Kurv.check.
  pose proof (StreamFacts.find_key_in_file_stdout (fresh 32) (fresh 44)
                pk_fp p) as Hp1.
  destruct (Kurv.find_key_in_file (fresh 32) pk_fp (fresh 44) p)
    as [[[[r pk] fp1] left] p1]. cbn [snd] in Hp1.
  destruct (r =? -1); [now left|].
  destruct (Kurv.read_file fp p1) as [[[[msg n]|] p2]|f] eqn:F;
    cbn [bind]; [| |exact I].
  2:{ left. cbn [Kurv.die Kurv.err Kurv.stdout snd].
      apply StreamFacts.read_file_stdout in F. congruence. }
  apply StreamFacts.read_file_len in F. destruct F as [-> ->].
  destruct (KurvFacts.find_signature_cases (fresh 64) msg)
    as [R|(m & b64 & Lb & Hb & Hv & R)]; rewrite R; cbn [bind Z.ltb Z.compare].
  - left. cbn [Kurv.die Kurv.err Kurv.stdout]. congruence.
  - pose proof (len_nonneg m) as Hm.
    assert (Hn : 0 <= len m <= len msg).
    { rewrite Hb, len_app.
      pose proof (len_nonneg (Kurv.SIG_START ++ b64 ++ Kurv.SIG_END)). lia. }
    destruct (Z.eqb_spec (crypto_check (b64_decode b64) pk (take (len m) msg)) 0)
      as [Hc|_]; cbn [negb].
    + destruct (KeyringFacts.kurv_report_cases p1 pk_fn msg (len m) id og Hn)
        as [E|E]; cbv zeta in E.
      * left. rewrite E. congruence.
      * right. split; [reflexivity|].
        exists (take (len m) msg), (b64_decode b64), pk, pk_fn.
        split; [assumption|]. rewrite E. congruence.
    + left. cbn [Kurv.die Kurv.err Kurv.stdout]. congruence.
Qed.

Lemma check_keyring_guarded (w : world) (fp : FILE) (id og : bool)
    (p : Kurv.proc) :
  match Kurv.check_keyring w fp id og p with
  | Undef _ => True
  | Ret (outcome, p') =>
      Kurv.stdout p' = Kurv.stdout p
      \/ (outcome = Kurv.Exits 0
          /\ exists msg sig pk name,
               crypto_check sig pk msg = 0
               /\ o_data (Kurv.stdout p')
                  = o_data (Kurv.stdout p)
                    ++ (if id then name ++ [NL] else [])
                    ++ (if og then msg else []))
  end.
Proof.
  unfold Kurv.check_keyring.
  destruct (getenv w _) as [kd|]; [|now left].
  destruct (len kd =? 0); [now left|].
  destruct (Kurv.read_file fp p) as [[[[msg n]|] p1]|f] eqn:F;
    cbn [bind]; [| |exact I].
  2:{ left. cbn [Kurv.die Kurv.err Kurv.stdout snd].
      now apply StreamFacts.read_file_stdout in F. }
  apply StreamFacts.read_file_len in F. destruct F as [-> ->].
  destruct (KurvFacts.find_signature_cases (fresh 64) msg)
    as [R|(m & b64 & Lb & Hb & Hv & R)]; rewrite R; cbn [bind Z.ltb Z.compare].
  - left. cbn [Kurv.die Kurv.err Kurv.stdout]. congruence.
  - pose proof (len_nonneg m) as Hm.
    assert (Hn : 0 <= len m <= len msg).
    { rewrite Hb, len_app.
      pose proof (len_nonneg (Kurv.SIG_START ++ b64 ++ Kurv.SIG_END)). lia. }
    destruct (opendir w kd) as [dir|];
      [|left; cbn [Kurv.errdie Kurv.err Kurv.stdout]; congruence].
    match goal with
    | |- context [Kurv.keyring_scan w ?path msg (len m) ?sig id og dir p] =>
        pose proof (KeyringFacts.kurv_scan_guarded w path msg sig (len m) id og
                      Hn dir p) as G;
        destruct (Kurv.keyring_scan w path msg (len m) sig id og dir p)
          as [outcome p']
    end.
    destruct G as [G|(G1 & pk & name & G2 & G3)].
    + left. congruence.
    + right. split; [assumption|].
      exists (take (len m) msg), (b64_decode b64), pk, name.
      split; [assumption|]. rewrite G3. congruence.
Qed.

(** *** The keyring configuration *)

Lemma ichi_keyring_unset (w : world) (ctx : Ichi.verify_ctx)
    (msg sig : bytes) (n : Z) (err : log) :
  getenv w (txt "ICHI_SIGN_KEYRING") = None ->
  Ichi.verify_keyring w ctx msg n sig err
  = Ret (1, Ichi.v_output ctx,
         Ichi.ERR err (txt "$ICHI_SIGN_KEYRING is unset")).
Proof. intros Hg. unfold Ichi.verify_keyring. now rewrite Hg. Qed.

(** The directory that cannot be opened: [dirfd] receives NULL. *)
Lemma ichi_keyring_unopenable (w : world) (ctx : Ichi.verify_ctx)
    (msg sig kd : bytes) (n : Z) (err : log) :
  getenv w (txt "ICHI_SIGN_KEYRING") = Some kd -> opendir w kd = None ->
  Ichi.verify_keyring w ctx msg n sig err = Undef NullStream.
Proof. intros Hg Ho. unfold Ichi.verify_keyring. now rewrite Hg, Ho. Qed.

Lemma kurv_keyring_unset (w : world) (fp : FILE) (id og : bool)
    (p : Kurv.proc) :
  getenv w (txt "KURV_KEYRING") = None
  \/ getenv w (txt "KURV_KEYRING") = Some [] ->
  Kurv.check_keyring w fp id og p
  = Ret (Kurv.die p (txt "$KURV_KEYRING is not set.")).
Proof.
  intros [Hg|Hg]; unfold Kurv.check_keyring; now rewrite Hg.
Qed.

(** kurv tests what [opendir] returned. *)
Lemma kurv_keyring_unopenable (w : world) (m b64 kd : bytes) (id og : bool)
    (p : Kurv.proc) :
  len b64 = 88 -> b64_bad b64 64 = false ->
  getenv w (txt "KURV_KEYRING") = Some kd -> len kd <> 0 ->
  opendir w kd = None ->
  Kurv.check_keyring w
    (fopen_on (m ++ Kurv.SIG_START ++ b64 ++ Kurv.SIG_END)) id og p
  = Ret (Kurv.errdie p (txt "opendir")).
Proof.
  intros Lb Hv Hg Hl Ho. unfold Kurv.check_keyring. rewrite Hg.
  destruct (Z.eqb_spec (len kd) 0); [contradiction|].
  rewrite KurvFacts.read_file_sound. cbn [bind].
  rewrite KurvFacts.find_signature_layout by assumption.
  rewrite Hv. cbn [bind Z.ltb Z.compare]. now rewrite Ho.
Qed.

(** *** The writers reach their output step with the signature of the input *)

Lemma ichi_sign_reaches_output (ctx : Ichi.sign_ctx) (m : bytes) (err : log) :
  Ichi.s_input ctx = fopen_on m ->
  Ichi.sign ctx err
  = Ichi.sign_output (Ichi.s_output ctx) (Ichi.s_detached ctx) m (len m)
      (crypto_sign (Ichi.s_sk ctx) (crypto_sign_public_key (Ichi.s_sk ctx)) m)
      err.
Proof.
  intros Hin. unfold Ichi.sign.
  rewrite Hin, IchiFacts.fp_to_buf_sound. now rewrite take_all by lia.
Qed.

Lemma kurv_sign_reaches_output (m kf sk sk0 : bytes) (p : Kurv.proc) :
  Spec.load_public_key (Some kf) = Some sk ->
  Kurv.sign (fopen_on m) (fopen_on kf) sk0 p
  = Ret (Kurv.Returns 0,
         Kurv.sign_output m (len m)
           (crypto_sign sk (crypto_sign_public_key sk) m) p,
         crypto_wipe sk).
Proof.
  intros Hload. unfold Kurv.sign.
  rewrite KurvFacts.find_key_in_file_load by (now rewrite len_fresh).
  cbv zeta.
  assert (Hl : (len kf <? 44) = false).
  { unfold Spec.load_public_key in Hload.
    destruct (len kf <? 44); [discriminate | reflexivity]. }
  rewrite Hl, Hload. cbn [Z.eqb].
  rewrite KurvFacts.read_file_sound. cbn [bind].
  now rewrite take_all by lia.
Qed.

End Facts.
End OperationFacts.

(** ** Facts about the readers and their allocation *)

Module ReaderFacts.

(** *** [fp_to_buf] *)

Lemma fp_to_buf_loop_stream (fuel : nat) : forall data b e buf total size err,
  (length data < fuel)%nat ->
  Ichi.fp_to_buf_loop fuel (mkFILE data b false e) buf total size err
  = Some (if b || e then (None, Ichi.ERR err (txt "fread()"))
          else (Some (buf ++ data, total + len data), err)).
Proof.
  induction fuel as [|fuel IH]; intros data b e buf total size err Hf; [lia|].
  cbn [Ichi.fp_to_buf_loop].
  assert (0 < Ichi.BUF_SIZE) as Hpos by (unfold Ichi.BUF_SIZE; lia).
  destruct (FreadFacts.fread_cases Ichi.BUF_SIZE data b e Hpos)
    as [(Hs & R)|(Hs & Ht & R)]; rewrite R.
  - cbn [ferror feof f_error f_eof]. destruct b, e; reflexivity.
  - cbn [ferror feof f_error f_eof].
    destruct e; [now rewrite orb_true_r|].
    pose proof (len_drop data Ichi.BUF_SIZE ltac:(lia)) as E.
    rewrite IH by (unfold len in E; lia).
    destruct b; [reflexivity|]. cbn [orb].
    rewrite <- app_assoc, take_drop, Ht, E.
    replace (total + Ichi.BUF_SIZE + (len data - Ichi.BUF_SIZE))
      with (total + len data) by lia.
    reflexivity.
Qed.

Lemma fp_to_buf_loop_alloc_fits (fuel : nat) : forall fp buf total size err,
  0 <= total -> total + Ichi.BUF_SIZE <= size ->
  Ichi.fp_to_buf_loop_alloc fuel fp buf total size err
  = option_map Ret (Ichi.fp_to_buf_loop fuel fp buf total size err).
Proof.
  induction fuel as [|fuel IH]; intros fp buf total size err Ht Hs;
    [reflexivity|].
  cbn [Ichi.fp_to_buf_loop_alloc Ichi.fp_to_buf_loop]. unfold fread_into.
  destruct (Z.leb_spec 0 total); [|lia].
  destruct (Z.leb_spec (total + Ichi.BUF_SIZE) size); [|lia].
  cbn [andb].
  assert (0 <= Ichi.BUF_SIZE) as Hpos by (unfold Ichi.BUF_SIZE; lia).
  pose proof (FreadFacts.len_fread_bound Ichi.BUF_SIZE fp Hpos) as Hg.
  destruct (fread Ichi.BUF_SIZE fp) as [got fp1]. cbn [fst] in Hg.
  destruct (ferror fp1); [reflexivity|].
  destruct (feof fp1); [reflexivity|].
  apply IH; [lia|].
  destruct (Z.gtb_spec (total + len got + Ichi.BUF_SIZE) size); lia.
Qed.

(** *** [read_file] *)

Lemma read_file_loop_stream (fuel : nat) : forall data b e buf total size r,
  (length data < fuel)%nat ->
  exists fp',
    Kurv.read_file_loop_unchecked fuel (mkFILE data b false e) buf total size
      r
    = Some (buf ++ data, total + len data, fp')
    /\ ferror fp' = b || e.
Proof.
  induction fuel as [|fuel IH]; intros data b e buf total size r Hf; [lia|].
  cbn [Kurv.read_file_loop_unchecked feof f_eof].
  assert (0 < Kurv.READ_SIZE) as Hpos by (unfold Kurv.READ_SIZE; lia).
  destruct (FreadFacts.fread_cases Kurv.READ_SIZE data b e Hpos)
    as [(Hs & R)|(Hs & Ht & R)]; rewrite R.
  - destruct data as [|x t].
    + cbn [len length Z.of_nat Z.gtb Z.compare].
      eexists. split; [now rewrite app_nil_r, Z.add_0_r | reflexivity].
    + replace (len (x :: t) >? 0) with true
        by (rewrite len_cons; pose proof (len_nonneg t); symmetry;
            apply Z.gtb_lt; lia).
      destruct fuel as [|fuel]; [simpl in Hf; lia|].
      destruct b.
      * cbn [negb orb].
        assert (Hnil : (length (@nil byte) < S fuel)%nat) by (simpl; lia).
        destruct (size <=? total + len (x :: t)).
        -- destruct (IH [] true true (buf ++ x :: t) (total + len (x :: t))
                       (size + (r + 1) * Kurv.READ_SIZE) (r + 1) Hnil)
             as (fp' & R' & E').
           exists fp'. rewrite R'. split; [|assumption].
           now rewrite app_nil_r, (@len_nil byte), Z.add_0_r.
        -- destruct (IH [] true true (buf ++ x :: t) (total + len (x :: t))
                       size r Hnil) as (fp' & R' & E').
           exists fp'. rewrite R'. split; [|assumption].
           now rewrite app_nil_r, (@len_nil byte), Z.add_0_r.
      * cbn [negb orb].
        destruct (size <=? total + len (x :: t));
          cbn [Kurv.read_file_loop_unchecked feof f_eof];
          eexists; split; reflexivity.
  - rewrite Ht.
    replace (Kurv.READ_SIZE >? 0) with true by (symmetry; apply Z.gtb_lt; lia).
    pose proof (len_drop data Kurv.READ_SIZE ltac:(lia)) as E.
    assert (length (drop Kurv.READ_SIZE data) < fuel)%nat as Hf'
      by (unfold len in E; lia).
    destruct (size <=? total + Kurv.READ_SIZE).
    + destruct (IH (drop Kurv.READ_SIZE data) b e
                  (buf ++ take Kurv.READ_SIZE data) (total + Kurv.READ_SIZE)
                  (size + (r + 1) * Kurv.READ_SIZE) (r + 1) Hf')
        as (fp' & R' & E').
      exists fp'. split; [|assumption]. rewrite R'.
      rewrite <- app_assoc, take_drop, E.
      replace (total + Kurv.READ_SIZE + (len data - Kurv.READ_SIZE))
        with (total + len data) by lia.
      reflexivity.
    + destruct (IH (drop Kurv.READ_SIZE data) b e
                  (buf ++ take Kurv.READ_SIZE data) (total + Kurv.READ_SIZE)
                  size r Hf') as (fp' & R' & E').
      exists fp'. split; [|assumption]. rewrite R'.
      rewrite <- app_assoc, take_drop, E.
      replace (total + Kurv.READ_SIZE + (len data - Kurv.READ_SIZE))
        with (total + len data) by lia.
      reflexivity.
Qed.

Lemma read_file_unchecked_stream (data : bytes) (b e : bool)
    (p : Kurv.proc) :
  Kurv.read_file_unchecked (mkFILE data b false e) p
  = if b || e then (None, Kurv.err p (txt "kurv: fread"))
    else (Some (data, len data), p).
Proof.
  destruct (read_file_loop_stream (S (length data)) data b e [] 0
              Kurv.READ_SIZE 0) as (fp' & R & E); [lia|].
  unfold Kurv.read_file_unchecked. cbn [f_pending]. rewrite R, E.
  reflexivity.
Qed.

(** The only fault of [read_file] is a region handed to [fread] that ends
    past the allocation, and it takes a device that fails. *)
Lemma read_file_loop_fault (fuel : nat) : forall fp buf total size r f,
  Kurv.read_file_loop fuel fp buf total size r = Some (Undef f) ->
  f = OutOfBounds.
Proof.
  induction fuel as [|fuel IH]; intros fp buf total size r f; [discriminate|].
  cbn [Kurv.read_file_loop].
  destruct (feof fp); [discriminate|].
  unfold fread_into.
  destruct ((0 <=? total) && (total + Kurv.READ_SIZE <=? size));
    [|now intros [= <-]].
  destruct (fread Kurv.READ_SIZE fp) as [got fp1].
  destruct (len got >? 0); [|discriminate].
  destruct (size <=? total + len got); apply IH.
Qed.

Lemma read_file_undef (fp : FILE) (p : Kurv.proc) (f : fault) :
  Kurv.read_file fp p = Undef f -> f = OutOfBounds /\ f_broken fp = true.
Proof.
  intros H. split.
  - unfold Kurv.read_file in H.
    destruct (Kurv.read_file_loop _ fp [] 0 Kurv.READ_SIZE 0)
      as [[[[buf total] fp']|f']|] eqn:L; try discriminate H.
    + destruct (ferror fp'); discriminate H.
    + injection H as ->. now apply read_file_loop_fault in L.
  - destruct (f_broken fp) eqn:Hb; [reflexivity|].
    rewrite KurvFacts.read_file_fits in H by exact Hb. discriminate H.
Qed.


End ReaderFacts.

(** ** Facts about acceptance *)

Module AcceptFacts.
Section Facts.
Context {B64 : Base64} {MC : Monocypher}.

(** [sig_from_file] on a file just opened. *)
Lemma sig_from_file_cases (s sig : bytes) (err : log) :
  Ichi.sig_from_file (fopen_on s) sig err
  = let fp' := snd (fread 88 (fopen_on s)) in
    if len s <? 88 then (1, sig, fp', Ichi.ERR err (txt "fread()"))
    else if b64_bad (take 88 s) 64
    then (1, sig, fp', Ichi.ERR err (txt "malformed signature"))
    else (0, b64_decode (take 88 s), fp', err).
Proof.
  unfold Ichi.sig_from_file, Ichi._read, Ichi.B64_SIG_SIZE. cbv zeta.
  destruct (FreadFacts.fread_cases 88 s false false ltac:(lia))
    as [(Hs & R)|(Hs & Ht & R)]; unfold fopen_on; rewrite R; cbn [snd].
  - destruct (Z.eqb_spec (len s) 88); [lia|]. cbn [negb Z.eqb].
    destruct (Z.ltb_spec (len s) 88); [reflexivity | lia].
  - rewrite Ht, Z.eqb_refl. cbn [negb Z.eqb].
    destruct (Z.ltb_spec (len s) 88); [lia|].
    rewrite take_take by lia. now destruct (b64_bad (take 88 s) 64).
Qed.

(** The explicit-key branch of [verify] when the output accepts data. *)
Lemma verify_pk_cases (ctx : Ichi.verify_ctx) (msg sig : bytes) (n : Z)
    (err : log) :
  o_ok (Ichi.v_output ctx) = true -> 0 <= n <= len msg ->
  Ichi.verify_pk ctx msg n sig err
  = if crypto_check sig (Ichi.v_pk ctx) (take n msg) =? 0
    then (0,
          if Ichi.v_stream_output ctx
          then mkOFILE (o_data (Ichi.v_output ctx) ++ take n msg) true
          else Ichi.v_output ctx,
          Ichi.ERR err
            (txt "good signature by '" ++ Ichi.v_pk_fn ctx ++ txt "'"))
    else (1, Ichi.v_output ctx, Ichi.ERR err (txt "invalid signature")).
Proof.
  intros Hok Hn. unfold Ichi.verify_pk.
  destruct (crypto_check sig (Ichi.v_pk ctx) (take n msg) =? 0);
    cbn [negb]; [|reflexivity].
  destruct (Ichi.v_stream_output ctx); [|reflexivity].
  now rewrite IchiFacts.XWRITE_take.
Qed.

(** [verify] with an explicit key and a detached signature file. *)
Lemma verify_detached_cases (w : world) (data sigdata pk_fn pk : bytes)
    (output : OFILE) (x : bool) (err : log) :
  o_ok output = true ->
  Ichi.verify w
    (Ichi.mk_verify_ctx (fopen_on data) output (Some (fopen_on sigdata))
       pk_fn pk true false x) err
  = if len sigdata <? 88
    then Ret (1, output, Ichi.ERR err (txt "fread()"))
    else if b64_bad (take 88 sigdata) 64
    then Ret (1, output, Ichi.ERR err (txt "malformed signature"))
    else if crypto_check (b64_decode (take 88 sigdata)) pk data =? 0
    then Ret (0,
              if x then mkOFILE (o_data output ++ data) true else output,
              Ichi.ERR err (txt "good signature by '" ++ pk_fn ++ txt "'"))
    else Ret (1, output, Ichi.ERR err (txt "invalid signature")).
Proof.
  intros Hok. unfold Ichi.verify.
  cbn [Ichi.v_input Ichi.v_detached Ichi.v_sig Ichi.v_output].
  rewrite IchiFacts.fp_to_buf_sound, sig_from_file_cases.
  cbv zeta. destruct (len sigdata <? 88); [reflexivity|].
  destruct (b64_bad (take 88 sigdata) 64); [reflexivity|].
  cbn [Z.eqb negb]. unfold Ichi.verify_resolve. cbn [Ichi.v_keyring].
  rewrite verify_pk_cases
    by (try exact Hok; pose proof (len_nonneg data); lia).
  cbn [Ichi.v_pk Ichi.v_stream_output Ichi.v_output Ichi.v_pk_fn].
  rewrite (take_all data) by lia.
  now destruct (crypto_check (b64_decode (take 88 sigdata)) pk data =? 0).
Qed.

(** [verify] with an explicit key on a joined input that has the layout. *)
Lemma verify_joined_cases (w : world) (m h1 h2 pk_fn pk : bytes)
    (output : OFILE) (x : bool) (err : log) :
  o_ok output = true ->
  len h1 = 44 -> len h2 = 44 -> b64_bad (h1 ++ h2) 64 = false ->
  Ichi.verify w
    (Ichi.mk_verify_ctx
       (fopen_on (m ++ Ichi.SIG_ARMOR_TOP ++ h1 ++ [NL] ++ h2
                  ++ Ichi.SIG_ARMOR_END))
       output None pk_fn pk false false x) err
  = if crypto_check (b64_decode (h1 ++ h2)) pk m =? 0
    then Ret (0,
              if x then mkOFILE (o_data output ++ m) true else output,
              Ichi.ERR err (txt "good signature by '" ++ pk_fn ++ txt "'"))
    else Ret (1, output, Ichi.ERR err (txt "invalid signature")).
Proof.
  intros Hok L1 L2 Hv.
  rewrite (OperationFacts.verify_joined w _ m h1 h2)
    by (try assumption; reflexivity).
  unfold Ichi.verify_resolve. cbn [Ichi.v_keyring].
  rewrite verify_pk_cases.
  - cbn [Ichi.v_pk Ichi.v_stream_output Ichi.v_output Ichi.v_pk_fn].
    rewrite take_app by reflexivity.
    now destruct (crypto_check (b64_decode (h1 ++ h2)) pk m =? 0).
  - exact Hok.
  - rewrite len_app. pose proof (len_nonneg m).
    pose proof (len_nonneg (Ichi.SIG_ARMOR_TOP ++ h1 ++ [NL] ++ h2
                            ++ Ichi.SIG_ARMOR_END)). lia.
Qed.

End Facts.
End AcceptFacts.

(** ** Facts about memory writes and C strings *)

Module MemFacts.

Lemma mem_write_at (pre old suf data : bytes) :
  len old = len data ->
  mem_write (pre ++ old ++ suf) (len pre) data = Ret (pre ++ data ++ suf).
Proof.
  intros Hl. unfold mem_write.
  pose proof (len_nonneg pre). pose proof (len_nonneg suf).
  destruct (Z.leb_spec 0 (len pre)); [|lia].
  destruct (Z.leb_spec (len pre + len data) (len (pre ++ old ++ suf)))
    as [_|Hn]; [|rewrite !len_app in Hn; lia].
  cbn [andb]. rewrite take_app by reflexivity.
  replace (pre ++ old ++ suf) with ((pre ++ old) ++ suf)
    by (now rewrite app_assoc).
  rewrite drop_app by (rewrite len_app; lia). reflexivity.
Qed.

Lemma mem_write_outside (buf : bytes) (off : Z) (data : bytes) :
  len buf < off + len data -> mem_write buf off data = Undef OutOfBounds.
Proof.
  intros Hl. unfold mem_write.
  destruct (Z.leb_spec (off + len data) (len buf)); [lia|].
  now rewrite andb_false_r.
Qed.

Lemma mem_read_start (buf : bytes) (n : Z) :
  0 <= n <= len buf -> mem_read buf 0 n = Ret (take n buf).
Proof.
  intros Hn. rewrite mem_read_defined by lia. now rewrite drop_nonpos by lia.
Qed.

(** A buffer cut at three successive sizes. *)
Lemma cut3 (buf : bytes) (a b c : Z) :
  0 <= a -> 0 <= b -> 0 <= c -> a + b + c <= len buf ->
  exists d1 d2 d3,
    buf = d1 ++ d2 ++ d3 ++ drop (a + b + c) buf
    /\ len d1 = a /\ len d2 = b /\ len d3 = c.
Proof.
  intros Ha Hb Hc Hl.
  exists (take a buf), (take b (drop a buf)), (take c (drop (a + b) buf)).
  split.
  - rewrite <- (take_drop buf a) at 1. f_equal.
    rewrite (slice_next buf a b) at 1 by lia. f_equal.
    rewrite (slice_next buf (a + b) c) at 1 by lia. reflexivity.
  - split; [apply len_take; lia|].
    split; apply len_take; rewrite ?len_drop by lia; lia.
Qed.

Lemma cstr_text (s rest : bytes) :
  ~ In x00 s -> cstr (s ++ x00 :: rest) = s.
Proof.
  induction s as [|x s IH]; intros Hn; [reflexivity|].
  cbn [app cstr].
  destruct (Byte.eqb x x00) eqn:E.
  - exfalso. apply Hn. left. symmetry. now apply Byte.byte_dec_bl.
  - f_equal. apply IH. intros Hin. apply Hn. now right.
Qed.

Lemma len_calloc (n : Z) : 0 <= n -> len (calloc n) = n.
Proof.
  intros Hn. unfold calloc, len. rewrite repeat_length. lia.
Qed.

End MemFacts.

(** ** Facts about key generation *)

Module GenerateFacts.

Lemma mem_write_cases (buf : bytes) (off : Z) (data : bytes) :
  0 <= off ->
  (off + len data <= len buf
   /\ exists r, mem_write buf off data = Ret r /\ len r = len buf)
  \/ (len buf < off + len data /\ mem_write buf off data = Undef OutOfBounds).
Proof.
  intros Ho. destruct (Z.le_gt_cases (off + len data) (len buf)) as [Hl|Hl].
  - left. split; [assumption|]. unfold mem_write.
    destruct (Z.leb_spec 0 off); [|lia].
    destruct (Z.leb_spec (off + len data) (len buf)); [|lia].
    cbn [andb]. eexists. split; [reflexivity|].
    pose proof (len_nonneg data).
    rewrite !len_app, len_take, len_drop by lia. lia.
  - right. split; [lia|]. apply MemFacts.mem_write_outside. lia.
Qed.

Lemma concat_fits (dst a b : bytes) (a_size b_size : Z) :
  0 <= a_size <= len a -> 0 <= b_size <= len b ->
  a_size + b_size + 1 <= len dst ->
  Kurv.concat dst a a_size b b_size
  = Ret (take a_size a ++ take b_size b ++ [x00]
         ++ drop (a_size + b_size + 1) dst).
Proof.
  intros Ha Hb Hd.
  destruct (MemFacts.cut3 dst a_size b_size 1)
    as (d1 & d2 & d3 & E & L1 & L2 & L3); try lia.
  unfold Kurv.concat. rewrite !MemFacts.mem_read_start by assumption.
  cbn [bind].
  assert (Lx : len (take a_size a) = a_size) by (apply len_take; lia).
  assert (Ly : len (take b_size b) = b_size) by (apply len_take; lia).
  set (x := take a_size a) in *. set (y := take b_size b) in *.
  set (rest := drop (a_size + b_size + 1) dst) in *.
  rewrite E.
  pose proof (MemFacts.mem_write_at [] d1 (d2 ++ d3 ++ rest) x) as W1.
  rewrite !app_nil_l in W1. change (len (@nil byte)) with 0 in W1.
  rewrite W1 by lia. cbn [bind].
  pose proof (MemFacts.mem_write_at x d2 (d3 ++ rest) y) as W2.
  rewrite Lx in W2. rewrite W2 by lia. cbn [bind].
  pose proof (MemFacts.mem_write_at (x ++ y) d3 rest [x00]) as W3.
  rewrite len_app, Lx, Ly in W3. rewrite <- app_assoc in W3.
  rewrite W3 by (rewrite L3; reflexivity).
  now rewrite <- app_assoc.
Qed.

Lemma concat_outside (dst a b : bytes) (a_size b_size : Z) :
  0 <= a_size <= len a -> 0 <= b_size <= len b ->
  len dst < a_size + b_size + 1 ->
  Kurv.concat dst a a_size b b_size = Undef OutOfBounds.
Proof.
  intros Ha Hb Hd.
  unfold Kurv.concat. rewrite !MemFacts.mem_read_start by assumption.
  cbn [bind].
  assert (Lx : len (take a_size a) = a_size) by (apply len_take; lia).
  assert (Ly : len (take b_size b) = b_size) by (apply len_take; lia).
  destruct (mem_write_cases dst 0 (take a_size a))
    as [(H1 & r1 & W1 & Lr1)|(H1 & W1)]; [lia| |now rewrite W1].
  rewrite W1. cbn [bind].
  destruct (mem_write_cases r1 a_size (take b_size b))
    as [(H2 & r2 & W2 & Lr2)|(H2 & W2)]; [lia| |now rewrite W2].
  rewrite W2. cbn [bind].
  apply MemFacts.mem_write_outside. change (len [x00]) with 1. lia.
Qed.

Section Generate.
Context {B64 : Base64} {MC : Monocypher}.

Lemma priv_path (base : bytes) :
  ~ In x00 base ->
  let path := calloc (len base + 5 + 1) in
  Kurv.concat path (cstring base) (len base) (cstring (txt ".priv")) 5
  = Ret (base ++ txt ".priv" ++ [x00])
  /\ cstr (base ++ txt ".priv" ++ [x00]) = base ++ txt ".priv".
Proof.
  intros Hn path. pose proof (len_nonneg base) as Hb.
  assert (Lp : len path = len base + 5 + 1)
    by (apply MemFacts.len_calloc; lia).
  split.
  - rewrite concat_fits.
    + unfold cstring. rewrite take_app by reflexivity.
      change (take 5 (txt ".priv" ++ [x00])) with (txt ".priv").
      rewrite drop_all by lia. now rewrite app_nil_r.
    + unfold cstring. rewrite len_app. change (len [x00]) with 1. lia.
    + unfold cstring. rewrite len_app. change (len (txt ".priv")) with 5.
      change (len [x00]) with 1. lia.
    + lia.
  - rewrite app_assoc. apply MemFacts.cstr_text.
    intros Hin. apply in_app_or in Hin. destruct Hin as [Hin|Hin];
      [now apply Hn|].
    cbn in Hin. repeat (destruct Hin as [Hin|Hin]; [discriminate Hin|]).
    exact Hin.
Qed.

Lemma pub_path (base : bytes) :
  ~ In x00 base ->
  Kurv.concat (base ++ txt ".priv" ++ [x00]) (cstring base) (len base)
    (cstring (txt ".pub")) 4
  = Ret (base ++ txt ".pub" ++ [x00; x00])
  /\ cstr (base ++ txt ".pub" ++ [x00; x00]) = base ++ txt ".pub".
Proof.
  intros Hn. pose proof (len_nonneg base) as Hb.
  split.
  - rewrite concat_fits.
    + unfold cstring. rewrite take_app by reflexivity.
      change (take 4 (txt ".pub" ++ [x00])) with (txt ".pub").
      replace (len base + 4 + 1) with (len base + 5) by lia.
      rewrite <- drop_drop by lia. rewrite drop_app by reflexivity.
      reflexivity.
    + unfold cstring. rewrite len_app. change (len [x00]) with 1. lia.
    + unfold cstring. rewrite len_app. change (len (txt ".pub")) with 4.
      change (len [x00]) with 1. lia.
    + rewrite !len_app. change (len (txt ".priv")) with 5.
      change (len [x00]) with 1. lia.
  - replace (base ++ txt ".pub" ++ [x00; x00])
      with ((base ++ txt ".pub") ++ x00 :: [x00])
      by (now rewrite <- app_assoc).
    apply MemFacts.cstr_text.
    intros Hin. apply in_app_or in Hin. destruct Hin as [Hin|Hin];
      [now apply Hn|].
    cbn in Hin. repeat (destruct Hin as [Hin|Hin]; [discriminate Hin|]).
    exact Hin.
Qed.

(** Writing the 44 characters of a key and a newline to a file just
    created: the stream takes them whatever the device does, and they reach
    the file when the device accepts them. *)
Lemma write_key_file (text : bytes) (ok : bool) :
  len text = 44 ->
  fwrite_buffered text 44 (mkOFILE [] ok) = (44, mkOFILE text ok)
  /\ fwrite_buffered [NL] 1 (mkOFILE text ok)
     = (1, mkOFILE (text ++ [NL]) ok)
  /\ flushed (mkOFILE (text ++ [NL]) ok)
     = if ok then mkOFILE (text ++ [NL]) true else mkOFILE [] false.
Proof.
  intros Ht. unfold fwrite_buffered, flushed. cbn [o_data o_ok app].
  rewrite (take_all text) by lia. rewrite Ht.
  split; [reflexivity|]. split; [reflexivity|]. now destruct ok.
Qed.

(** [generate] once [getrandom] has delivered 32 bytes, for a codec that
    encodes 32 bytes in 44 characters: the course of the call is decided by
    the two opens, and what each file holds by its device. *)
Lemma generate_run (random base : bytes) (open_w : bytes -> Z -> option bool)
    (p : Kurv.proc) :
  let pk := crypto_sign_public_key random in
  let zero := repeat x00 32 in
  let priv := base ++ txt ".priv" in
  let pub := base ++ txt ".pub" in
  let priv_file (ok : bool) :=
    mkcreated priv 416
      (if ok then mkOFILE (b64_encode random ++ [NL]) true
       else mkOFILE [] false) in
  let pub_file (ok : bool) :=
    mkcreated pub 420
      (if ok then mkOFILE (b64_encode pk ++ [NL]) true
       else mkOFILE [] false) in
  len random = 32 -> len pk = 32 ->
  len (b64_encode random) = 44 -> len (b64_encode pk) = 44 ->
  ~ In x00 base ->
  Kurv.generate (Some random) open_w base p
  = match open_w priv 416 with
    | None =>
        Ret (Kurv.Exits 1,
             Kurv.mk_generated
               (Kurv.err (Kurv.err p (txt "open"))
                  (txt "cannot write private key")) []
               (Kurv.mk_key_arrays zero zero (b64_encode random)
                  (b64_encode pk)))
    | Some ok1 =>
        match open_w pub 420 with
        | None =>
            Ret (Kurv.Exits 1,
                 Kurv.mk_generated
                   (Kurv.err (Kurv.err p (txt "open"))
                      (txt "cannot write public key")) [priv_file ok1]
                   (Kurv.mk_key_arrays zero zero (repeat x00 44)
                      (b64_encode pk)))
        | Some ok2 =>
            Ret (Kurv.Returns 0,
                 Kurv.mk_generated p [priv_file ok1; pub_file ok2]
                   (Kurv.mk_key_arrays zero zero (repeat x00 44)
                      (repeat x00 44)))
        end
    end.
Proof.
  intros pk zero priv pub priv_file pub_file Lr Lk Ls Lp Hn.
  unfold Kurv.generate.
  rewrite (take_all random) by lia.
  rewrite (store_whole random) by (rewrite len_fresh; lia).
  rewrite (take_all random) by lia. fold pk.
  rewrite (take_all pk) by lia.
  rewrite (store_whole (b64_encode random)) by (rewrite len_fresh; lia).
  rewrite (store_whole (b64_encode pk)) by (rewrite len_fresh; lia).
  rewrite (crypto_wipe_len random 32), (crypto_wipe_len pk 32) by assumption.
  fold zero.
  change (Z.lor (Z.lor (Z.lor S_IWUSR S_IRUSR) S_IRGRP) S_IROTH) with 420.
  change (Z.lor (Z.lor S_IWUSR S_IRUSR) S_IRGRP) with 416.
  destruct (priv_path base Hn) as [P1 C1]. cbv zeta in P1.
  rewrite P1. cbn [bind]. rewrite C1. fold priv.
  unfold Kurv.safe_fopen_w at 1.
  destruct (open_w priv 416) as [ok1|]; [|reflexivity].
  destruct (write_key_file (b64_encode random) ok1 Ls) as (W1 & W2 & W3).
  rewrite W1. cbv beta iota. rewrite Z.eqb_refl. cbn [negb].
  rewrite W2. cbv beta iota. cbn [Z.ltb Z.compare]. rewrite W3.
  rewrite (crypto_wipe_len (b64_encode random) 44) by assumption.
  destruct (pub_path base Hn) as [P2 C2].
  rewrite P2. cbn [bind]. rewrite C2. fold pub.
  unfold Kurv.safe_fopen_w.
  destruct (open_w pub 420) as [ok2|]; [|reflexivity].
  destruct (write_key_file (b64_encode pk) ok2 Lp) as (W4 & W5 & W6).
  rewrite W4. cbv beta iota. rewrite Z.eqb_refl. cbn [negb].
  rewrite W5. cbv beta iota. cbn [Z.ltb Z.compare]. rewrite W6.
  rewrite (crypto_wipe_len (b64_encode pk) 44) by assumption.
  reflexivity.
Qed.

End Generate.

End GenerateFacts.

(** ** Facts about names and paths *)

Module NameFacts.

Lemma char_at_end (s : bytes) : char_at s (len s) = x00.
Proof.
  unfold char_at, len. rewrite Nat2Z.id. now apply nth_overflow.
Qed.

(** The last character of a non-empty C string is a slash exactly when the
    string ends in one. *)
Lemma last_char_slash (s : bytes) :
  len s <> 0 ->
  Byte.eqb (char_at s (len s - 1)) x2f = true
  <-> Spec.has_suffix (txt "/") s.
Proof.
  intros Hl.
  assert (Hne : s <> []) by (intros ->; now apply Hl).
  destruct (exists_last Hne) as (stem & c & ->).
  assert (E : char_at (stem ++ [c]) (len (stem ++ [c]) - 1) = c).
  { unfold char_at. rewrite len_app. change (len [c]) with 1.
    replace (len stem + 1 - 1) with (len stem) by lia.
    unfold len. rewrite Nat2Z.id. apply nth_middle. }
  rewrite E. split.
  - intros H. apply Byte.byte_dec_bl in H. subst c. now exists stem.
  - intros (stem' & H). apply app_inj_tail in H. destruct H as [_ ->].
    reflexivity.
Qed.

End NameFacts.

(** ** Facts about what the operations never do *)

Module SafetyFacts.
Section Facts.
Context {B64 : Base64} {MC : Monocypher}.






Lemma trim_defined (input : FILE) (output : OFILE) (err : log) :
  exists r, Ichi.trim input output err = Ret r.
Proof.
  unfold Ichi.trim.
  destruct (Ichi.fp_to_buf input err) as [[[msg n]|] e1] eqn:F;
    [|eexists; reflexivity].
  apply StreamFacts.fp_to_buf_len in F. subst n.
  destruct (IchiFacts.sig_from_buf_cases (fresh 64) (len msg) msg)
    as [R|(m & h1 & h2 & _ & _ & _ & _ & R)]; rewrite R;
    cbn [bind Z.eqb negb]; eexists; reflexivity.
Qed.

Lemma verify_resolve_undef (w : world) (ctx : Ichi.verify_ctx)
    (msg sig : bytes) (n : Z) (e : log) (f : fault) :
  Ichi.verify_resolve w ctx msg n sig e = Undef f ->
  f = NullStream
  /\ Ichi.v_keyring ctx = true
  /\ exists kd,
       getenv w (txt "ICHI_SIGN_KEYRING") = Some kd /\ opendir w kd = None.
Proof.
  unfold Ichi.verify_resolve.
  destruct (Ichi.v_keyring ctx); [|discriminate].
  unfold Ichi.verify_keyring.
  destruct (getenv w _) as [kd|]; [|discriminate].
  destruct (opendir w kd) as [dir|] eqn:Ho.
  - cbn [dirfd bind Z.ltb Z.compare]. discriminate.
  - cbn [dirfd bind]. intros E. injection E as <-.
    split; [reflexivity|]. split; [reflexivity|]. now exists kd.
Qed.

Lemma verify_undef (w : world) (ctx : Ichi.verify_ctx) (err : log)
    (f : fault) :
  Ichi.verify w ctx err = Undef f ->
  f = NullStream
  /\ ((Ichi.v_detached ctx = true /\ Ichi.v_sig ctx = None)
      \/ (Ichi.v_keyring ctx = true
          /\ exists kd,
               getenv w (txt "ICHI_SIGN_KEYRING") = Some kd
               /\ opendir w kd = None)).
Proof.
  intros H. unfold Ichi.verify in H.
  destruct (Ichi.fp_to_buf (Ichi.v_input ctx) err) as [[[msg n]|] e1] eqn:F;
    [|discriminate H].
  apply StreamFacts.fp_to_buf_len in F. subst n.
  destruct (Ichi.v_detached ctx).
  - destruct (Ichi.v_sig ctx) as [sfp|].
    + destruct (Ichi.sig_from_file sfp (fresh 64) e1) as [[[r sig1] fp'] e2].
      destruct (negb (r =? 0)); [discriminate H|].
      destruct (verify_resolve_undef _ _ _ _ _ _ _ H) as (-> & Hk & Hd).
      split; [reflexivity|]. right. now split.
    + injection H as <-. split; [reflexivity|]. left. now split.
  - destruct (IchiFacts.sig_from_buf_cases (fresh 64) (len msg) msg)
      as [R|(m & h1 & h2 & _ & _ & _ & _ & R)]; rewrite R in H;
      cbn [bind Z.eqb negb] in H; [discriminate H|].
    destruct (verify_resolve_undef _ _ _ _ _ _ _ H) as (-> & Hk & Hd).
    split; [reflexivity|]. right. now split.
Qed.

(** *** Without a request to stream or print, verification writes nothing *)

Lemma ichi_scan_quiet (ctx : Ichi.verify_ctx) (kd msg sig : bytes) (n : Z)
    (err : log) :
  Ichi.v_stream_output ctx = false ->
  forall (dir : DIR) (b64_pk : bytes),
  snd (fst (Ichi.keyring_scan ctx kd msg n sig dir b64_pk err))
  = Ichi.v_output ctx.
Proof.
  intros Hx dir b64_pk. rewrite KeyringFacts.ichi_scan_search.
  destruct (find _ dir); [|reflexivity]. cbv zeta. now rewrite Hx.
Qed.

Lemma verify_quiet (w : world) (ctx : Ichi.verify_ctx) (err : log) :
  Ichi.v_stream_output ctx = false ->
  forall rv out e,
  Ichi.verify w ctx err = Ret (rv, out, e) -> out = Ichi.v_output ctx.
Proof.
  intros Hx rv out e H.
  assert (Resolve : forall msg n sig e1,
            Ichi.verify_resolve w ctx msg n sig e1 = Ret (rv, out, e) ->
            out = Ichi.v_output ctx).
  { intros msg n sig e1. unfold Ichi.verify_resolve.
    destruct (Ichi.v_keyring ctx).
    - unfold Ichi.verify_keyring.
      destruct (getenv w _) as [kd|]; [|now intros [= _ <- _]].
      destruct (opendir w kd) as [dir|]; [|discriminate].
      cbn [dirfd bind Z.ltb Z.compare].
      pose proof (ichi_scan_quiet ctx kd msg sig n e1 Hx dir (fresh 44)) as Q.
      intros [= E]. rewrite E in Q. exact Q.
    - unfold Ichi.verify_pk. rewrite Hx.
      destruct (negb (crypto_check sig (Ichi.v_pk ctx) (take n msg) =? 0));
        now intros [= _ <- _]. }
  unfold Ichi.verify in H.
  destruct (Ichi.fp_to_buf (Ichi.v_input ctx) err) as [[[msg n]|] e1];
    [|now injection H as _ <- _].
  destruct (Ichi.v_detached ctx).
  - destruct (Ichi.v_sig ctx) as [sfp|]; [|discriminate H].
    destruct (Ichi.sig_from_file sfp (fresh 64) e1) as [[[r sig1] fp'] e2].
    destruct (negb (r =? 0)); [now injection H as _ <- _|].
    now apply Resolve in H.
  - destruct (Ichi.sig_from_buf (fresh 64) n msg n) as [[[r sig1] n1]|];
      [|discriminate H].
    cbn [bind] in H.
    destruct (negb (r =? 0)); [now injection H as _ <- _|].
    now apply Resolve in H.
Qed.

Lemma kurv_scan_quiet (w : world) (path msg sig : bytes) (n : Z) :
  forall (dir : DIR) (p : Kurv.proc),
  Kurv.stdout (snd (Kurv.keyring_scan w path msg n sig false false dir p))
  = Kurv.stdout p.
Proof.
  induction dir as [|dp rest IH]; intros p; [reflexivity|].
  cbn [Kurv.keyring_scan].
  destruct (Kurv.not_candidate (d_name dp)); [apply IH|].
  destruct (fopen_r w (path ++ d_name dp)) as [contents|]; [|apply IH].
  pose proof (StreamFacts.find_key_in_file_stdout (fresh 32) (fresh 44)
                (fopen_on contents) p) as Hp1.
  destruct (Kurv.find_key_in_file (fresh 32) (fopen_on contents) (fresh 44) p)
    as [[[[r pk] fp1] left] p1]. cbn [snd] in Hp1.
  destruct (negb (r =? 0) || negb (crypto_check sig pk (take n msg) =? 0)).
  - rewrite IH. exact Hp1.
  - exact Hp1.
Qed.

Lemma check_quiet (fp pk_fp : FILE) (pk_fn : bytes) (p : Kurv.proc) :
  forall r p',
  Kurv.check fp pk_fp pk_fn false false p = Ret (r, p') ->
  Kurv.stdout p' = Kurv.stdout p.
Proof.
  intros r p' H.
  pose proof (OperationFacts.check_guarded fp pk_fp pk_fn false false p) as G.
  rewrite H in G. destruct G as [G|(_ & msg & sig & pk & name & _ & G)];
    [exact G|].
  unfold Kurv.check in H.
  pose proof (StreamFacts.find_key_in_file_stdout (fresh 32) (fresh 44)
                pk_fp p) as Hp1.
  destruct (Kurv.find_key_in_file (fresh 32) pk_fp (fresh 44) p)
    as [[[[r0 pk0] fp1] left] p1]. cbn [snd] in Hp1.
  destruct (r0 =? -1); [injection H as _ <-; exact Hp1|].
  destruct (Kurv.read_file fp p1) as [[file p2]|f] eqn:F; [|discriminate H].
  apply StreamFacts.read_file_stdout in F. rename F into Hp2.
  cbn [bind] in H.
  destruct file as [[m n]|];
    [|injection H as _ <-; cbn [Kurv.err Kurv.stdout]; congruence].
  destruct (Kurv.find_signature (fresh 64) m n) as [[[r1 sig1] n1]|];
    [|discriminate H].
  cbn [bind] in H.
  destruct (r1 <? 0);
    [injection H as _ <-; cbn [Kurv.err Kurv.stdout]; congruence|].
  destruct (negb (crypto_check sig1 pk0 (take n1 m) =? 0));
    injection H as _ <-; cbn [Kurv.err Kurv.stdout]; congruence.
Qed.

Lemma check_keyring_quiet (w : world) (fp : FILE) (p : Kurv.proc) :
  forall r p',
  Kurv.check_keyring w fp false false p = Ret (r, p') ->
  Kurv.stdout p' = Kurv.stdout p.
Proof.
  intros r p' H. unfold Kurv.check_keyring in H.
  destruct (getenv w _) as [kd|]; [|now injection H as _ <-].
  destruct (len kd =? 0); [now injection H as _ <-|].
  destruct (Kurv.read_file fp p) as [[file p1]|f] eqn:F; [|discriminate H].
  apply StreamFacts.read_file_stdout in F. rename F into Hp1.
  cbn [bind] in H.
  destruct file as [[m n]|];
    [|injection H as _ <-; cbn [Kurv.err Kurv.stdout]; congruence].
  destruct (Kurv.find_signature (fresh 64) m n) as [[[r1 sig1] n1]|];
    [|discriminate H].
  cbn [bind] in H.
  destruct (r1 <? 0);
    [injection H as _ <-; cbn [Kurv.err Kurv.stdout]; congruence|].
  destruct (opendir w kd) as [dir|];
    [|injection H as _ <-; cbn [Kurv.err Kurv.stdout]; congruence].
  injection H as H.
  match type of H with
  | Kurv.keyring_scan w ?path m n1 sig1 false false dir p1 = _ =>
      pose proof (kurv_scan_quiet w path m sig1 n1 dir p1) as Q
  end.
  rewrite H in Q. cbn [snd] in Q. congruence.
Qed.

End Facts.
End SafetyFacts.

(** ** Facts about the two [main] functions *)

Module IchiMainFacts.
Section Facts.
Context {B64 : Base64} {MC : Monocypher}.
Variable fopen_w : world -> bytes -> option (OFILE * world).

(** Splits the [switch] of the option loop into its cases. *)
Ltac by_option c :=
  unfold Ichi.main_option;
  repeat match goal with
         | |- context [if Ascii.eqb c ?x then _ else _] =>
             let E := fresh "E" in
             destruct (Ascii.eqb c x) eqn:E;
             [apply Ascii.eqb_eq in E|]
         end.

Lemma main_option_has_sig (c : ascii) (optarg : bytes) (s s' : Ichi.locals) :
  Loop.ichi_has_sig s ->
  Ichi.main_option fopen_w c optarg s = Ichi.Next s' ->
  Loop.ichi_has_sig s'.
Proof.
  intros Hs. by_option c; try discriminate.
  - destruct (fopen_w (Ichi.l_world s) optarg) as [[f w]|]; [|discriminate].
    intros [= <-]. exact Hs.
  - destruct (Ichi.read_key_from_file (Ichi.l_world s) optarg (Ichi.l_sk s)
                (fresh 44) (Ichi.l_err s)) as [[[r sk] left] e].
    destruct (negb (r =? 0)); [discriminate|]. intros [= <-]. exact Hs.
  - intros [= <-]. exact Hs.
  - intros [= <-]. exact Hs.
  - destruct (Ichi.read_key_from_file (Ichi.l_world s) optarg (Ichi.l_pk s)
                (fresh 44) (Ichi.l_err s)) as [[[r pk] left] e].
    destruct (negb (r =? 0)); [discriminate|]. intros [= <-]. exact Hs.
  - destruct (fopen_r (Ichi.l_world s) optarg) as [contents|];
      [|discriminate].
    intros [= <-]. intros _. discriminate.
  - intros [= <-]. exact Hs.
  - intros [= <-]. exact Hs.
Qed.

Lemma main_options_has_sig (opts : list (ascii * bytes)) :
  forall s s',
  Loop.ichi_has_sig s ->
  Ichi.main_options fopen_w opts s = Ichi.Next s' ->
  Loop.ichi_has_sig s'.
Proof.
  induction opts as [|[c optarg] rest IH]; intros s s' Hs H.
  - injection H as <-. exact Hs.
  - cbn [Ichi.main_options] in H.
    destruct (Ichi.main_option fopen_w c optarg s) as [s1|rv s1] eqn:E;
      [|discriminate H].
    eapply IH; [|exact H]. eapply main_option_has_sig; eassumption.
Qed.

(** Opening the output file is the only step that changes the
    surroundings. *)
Lemma main_option_same_keyring (w : world) (c : ascii) (optarg : bytes)
    (s s' : Ichi.locals) :
  (forall w0 fn o w1, fopen_w w0 fn = Some (o, w1) ->
     forall x, getenv w1 x = getenv w0 x
               /\ (opendir w1 x = None -> opendir w0 x = None)) ->
  Loop.ichi_same_keyring w s ->
  Ichi.main_option fopen_w c optarg s = Ichi.Next s' ->
  Loop.ichi_same_keyring w s'.
Proof.
  intros Hkeep Hs. by_option c; try discriminate.
  - destruct (fopen_w (Ichi.l_world s) optarg) as [[f w1]|] eqn:O;
      [|discriminate].
    intros [= <-]. intros x. cbn [Ichi.set_output Ichi.l_world].
    destruct (Hkeep _ _ _ _ O x) as [G D]. destruct (Hs x) as [G0 D0].
    split; [congruence | auto].
  - destruct (Ichi.read_key_from_file (Ichi.l_world s) optarg (Ichi.l_sk s)
                (fresh 44) (Ichi.l_err s)) as [[[r sk] left] e].
    destruct (negb (r =? 0)); [discriminate|]. intros [= <-]. exact Hs.
  - intros [= <-]. exact Hs.
  - intros [= <-]. exact Hs.
  - destruct (Ichi.read_key_from_file (Ichi.l_world s) optarg (Ichi.l_pk s)
                (fresh 44) (Ichi.l_err s)) as [[[r pk] left] e].
    destruct (negb (r =? 0)); [discriminate|]. intros [= <-]. exact Hs.
  - destruct (fopen_r (Ichi.l_world s) optarg) as [contents|];
      [|discriminate].
    intros [= <-]. exact Hs.
  - intros [= <-]. exact Hs.
  - intros [= <-]. exact Hs.
Qed.

Lemma main_option_asked (all : list (ascii * bytes)) (c : ascii)
    (optarg : bytes) (s s' : Ichi.locals) :
  In (c, optarg) all ->
  Loop.ichi_asked_to_verify all s ->
  Ichi.main_option fopen_w c optarg s = Ichi.Next s' ->
  Loop.ichi_asked_to_verify all s'.
Proof.
  intros Hin Hs. by_option c; try discriminate.
  - destruct (fopen_w (Ichi.l_world s) optarg) as [[f w1]|]; [|discriminate].
    intros [= <-]. exact Hs.
  - destruct (Ichi.read_key_from_file (Ichi.l_world s) optarg (Ichi.l_sk s)
                (fresh 44) (Ichi.l_err s)) as [[[r sk] left] e].
    destruct (negb (r =? 0)); [discriminate|]. intros [= <-]. exact Hs.
  - intros [= <-]. exact Hs.
  - intros [= <-]. intros _. subst c. now exists optarg.
  - destruct (Ichi.read_key_from_file (Ichi.l_world s) optarg (Ichi.l_pk s)
                (fresh 44) (Ichi.l_err s)) as [[[r pk] left] e].
    destruct (negb (r =? 0)); [discriminate|]. intros [= <-]. exact Hs.
  - destruct (fopen_r (Ichi.l_world s) optarg) as [contents|];
      [|discriminate].
    intros [= <-]. exact Hs.
  - intros [= <-]. exact Hs.
  - intros [= <-]. intros D. discriminate D.
Qed.

Lemma main_options_keyring (w : world) (all opts : list (ascii * bytes)) :
  (forall w0 fn o w1, fopen_w w0 fn = Some (o, w1) ->
     forall x, getenv w1 x = getenv w0 x
               /\ (opendir w1 x = None -> opendir w0 x = None)) ->
  (forall o, In o opts -> In o all) ->
  forall s s',
  Loop.ichi_same_keyring w s -> Loop.ichi_asked_to_verify all s ->
  Ichi.main_options fopen_w opts s = Ichi.Next s' ->
  Loop.ichi_same_keyring w s' /\ Loop.ichi_asked_to_verify all s'.
Proof.
  intros Hkeep. induction opts as [|[c optarg] rest IH];
    intros Hincl s s' Hw Ha H.
  - injection H as <-. now split.
  - cbn [Ichi.main_options] in H.
    destruct (Ichi.main_option fopen_w c optarg s) as [s1|rv s1] eqn:E;
      [|discriminate H].
    apply (IH (fun o Hin => Hincl o (or_intror Hin)) s1 s'); [| |exact H].
    + eapply main_option_same_keyring; eassumption.
    + eapply main_option_asked; [|eassumption..].
      apply Hincl. now left.
Qed.

Lemma ichi_action_undef (input : FILE) (s : Ichi.locals) (f : fault) :
  Loop.ichi_has_sig s -> Ichi.main_action input s = Undef f ->
  f = NullStream
  /\ Ichi.l_action s = Ichi.ACTION_VERIFY
  /\ exists kd,
       getenv (Ichi.l_world s) (txt "ICHI_SIGN_KEYRING") = Some kd
       /\ opendir (Ichi.l_world s) kd = None.
Proof.
  intros Hs H. unfold Ichi.main_action in H.
  destruct (Ichi.l_action s).
  - destruct (negb (Ichi.l_kflag s)); [discriminate H|].
    destruct (Ichi.sign _ (Ichi.l_err s)) as [[rv out] e]. discriminate H.
  - match type of H with
    | bind (Ichi.verify ?w ?ctx ?e) _ = _ =>
        destruct (Ichi.verify w ctx e) as [[[rv out] e']|f'] eqn:V
    end; [discriminate H|].
    cbn [bind] in H. injection H as ->.
    apply SafetyFacts.verify_undef in V.
    destruct V as (-> & [(Hd & Hn)|(_ & Hk)]).
    + cbn [Ichi.v_detached Ichi.v_sig] in Hd, Hn. now apply Hs in Hd.
    + split; [reflexivity|]. split; [reflexivity | exact Hk].
  - destruct (SafetyFacts.trim_defined input (Ichi.output_of s)
                (Ichi.l_err s)) as ([[rv out] e] & T).
    rewrite T in H. discriminate H.
Qed.

(** [main] can only be undefined in a keyring verification, asked for by
    [-V], whose directory cannot be opened. *)
Lemma ichi_main_undef (w : world) (stdin : FILE) (stdout : OFILE)
    (opts : list (ascii * bytes)) (operands : list bytes) (f : fault) :
  (forall w0 fn o w1, fopen_w w0 fn = Some (o, w1) ->
     forall x, getenv w1 x = getenv w0 x
               /\ (opendir w1 x = None -> opendir w0 x = None)) ->
  Ichi.main fopen_w w stdin stdout opts operands = Undef f ->
  f = NullStream
  /\ (exists optarg, In ("V"%char, optarg) opts)
  /\ exists kd,
       getenv w (txt "ICHI_SIGN_KEYRING") = Some kd /\ opendir w kd = None.
Proof.
  intros Hkeep H. unfold Ichi.main in H.
  match type of H with
  | match Ichi.main_options _ _ ?s0 with _ => _ end = _ =>
      destruct (Ichi.main_options fopen_w opts s0) as [s|rv s] eqn:O;
      [pose proof (main_options_has_sig opts s0 s
                     ltac:(intros D; discriminate D) O) as Hsig;
       destruct (main_options_keyring w opts opts Hkeep (fun o Hin => Hin)
                   s0 s ltac:(intros x; now split)
                   ltac:(intros D; discriminate D) O) as [Hw Ha]
      |discriminate H]
  end.
  assert (A : forall input,
            Ichi.main_action input s = Undef f ->
            f = NullStream
            /\ (exists optarg, In ("V"%char, optarg) opts)
            /\ exists kd,
                 getenv w (txt "ICHI_SIGN_KEYRING") = Some kd
                 /\ opendir w kd = None).
  { intros input HA.
    destruct (ichi_action_undef input s f Hsig HA)
      as (-> & Act & kd & Hg & Ho).
    split; [reflexivity|]. split; [now apply Ha|].
    exists kd. destruct (Hw kd) as [_ D].
    destruct (Hw (txt "ICHI_SIGN_KEYRING")) as [G _].
    split; [congruence | now apply D]. }
  destruct operands as [|fn [|fn' rest]];
    [now apply (A stdin)| |discriminate H].
  destruct (fopen_r (Ichi.l_world s) fn) as [contents|]; [|discriminate H].
  now apply (A (fopen_on contents)).
Qed.

(** *** What is written when nothing asks for output *)

Lemma quiet_leave (stdout : OFILE) (rv : Z) (s : Ichi.locals) :
  Loop.ichi_quiet fopen_w stdout s ->
  Loop.ichi_untouched fopen_w stdout (Ichi.leave rv s).
Proof. intros (_ & _ & _ & Ho & Hf). split; assumption. Qed.

Lemma ichi_option_quiet (stdout : OFILE) (c : ascii) (optarg : bytes)
    (s : Ichi.locals) :
  c <> "k"%char -> c <> "T"%char -> c <> "x"%char -> c <> "h"%char ->
  Loop.ichi_quiet fopen_w stdout s ->
  match Ichi.main_option fopen_w c optarg s with
  | Ichi.Next s' => Loop.ichi_quiet fopen_w stdout s'
  | Ichi.Error rv s' => Loop.ichi_quiet fopen_w stdout s'
  end.
Proof.
  intros Nk NT Nx Nh (Hk & Ha & Hx & Ho & Hf).
  by_option c; try contradiction.
  - destruct (fopen_w (Ichi.l_world s) optarg) as [[f w]|] eqn:O.
    + repeat split; try assumption. cbn [Ichi.l_output Ichi.set_output].
      intros f' [= <-]. now exists (Ichi.l_world s), optarg, w.
    + repeat split; try assumption. discriminate.
  - repeat split; assumption.
  - repeat split; try assumption. discriminate.
  - destruct (Ichi.read_key_from_file (Ichi.l_world s) optarg (Ichi.l_pk s)
                (fresh 44) (Ichi.l_err s)) as [[[r pk] left] e].
    destruct (negb (r =? 0)); repeat split; assumption.
  - destruct (fopen_r (Ichi.l_world s) optarg) as [contents|];
      repeat split; assumption.
  - repeat split; assumption.
Qed.

Lemma ichi_options_quiet (stdout : OFILE) (opts : list (ascii * bytes)) :
  (forall c optarg, In (c, optarg) opts ->
     c <> "k"%char /\ c <> "T"%char /\ c <> "x"%char /\ c <> "h"%char) ->
  forall s, Loop.ichi_quiet fopen_w stdout s ->
  match Ichi.main_options fopen_w opts s with
  | Ichi.Next s' => Loop.ichi_quiet fopen_w stdout s'
  | Ichi.Error rv s' => Loop.ichi_quiet fopen_w stdout s'
  end.
Proof.
  induction opts as [|[c optarg] rest IH]; intros Hall s Hq; [exact Hq|].
  cbn [Ichi.main_options].
  destruct (Hall c optarg (or_introl eq_refl)) as (Nk & NT & Nx & Nh).
  pose proof (ichi_option_quiet stdout c optarg s Nk NT Nx Nh Hq) as Q.
  destruct (Ichi.main_option fopen_w c optarg s) as [s1|rv s1];
    [|exact Q].
  apply IH; [|exact Q]. intros c' a' Hin. apply (Hall c' a'). now right.
Qed.

Lemma ichi_action_quiet (stdout : OFILE) (input : FILE) (s : Ichi.locals) :
  Loop.ichi_quiet fopen_w stdout s ->
  match Ichi.main_action input s with
  | Ret r => Loop.ichi_untouched fopen_w stdout r
  | Undef _ => True
  end.
Proof.
  intros Hq. unfold Ichi.main_action.
  destruct (Ichi.l_action s) eqn:Act;
    destruct Hq as (Hk & Ha & Hx & Ho & Hf); [| |congruence].
  - rewrite Hk. cbn [negb]. apply quiet_leave. repeat split; assumption.
  - match goal with
    | |- match bind (Ichi.verify ?w ?ctx ?e) _ with _ => _ end =>
        destruct (Ichi.verify w ctx e) as [[[rv out] e']|f'] eqn:V
    end; [|exact I].
    cbn [bind].
    apply SafetyFacts.verify_quiet in V; [|exact Hx].
    cbn [Ichi.v_output] in V. subst out.
    unfold Ichi.set_written, Ichi.output_of.
    destruct (Ichi.l_output s) as [f0|] eqn:Of.
    + split; [exact Ho|]. cbn [Ichi.leave Ichi.r_output Ichi.set_err
                                Ichi.set_output Ichi.l_output].
      intros f [= <-]. now apply Hf.
    + split; [exact Ho|]. cbn [Ichi.leave Ichi.r_output Ichi.set_err
                                Ichi.set_stdout Ichi.l_output].
      rewrite Of. discriminate.
Qed.

Lemma ichi_main_quiet (w : world) (stdin : FILE) (stdout : OFILE)
    (opts : list (ascii * bytes)) (operands : list bytes) :
  (forall c optarg, In (c, optarg) opts ->
     c <> "k"%char /\ c <> "T"%char /\ c <> "x"%char /\ c <> "h"%char) ->
  match Ichi.main fopen_w w stdin stdout opts operands with
  | Ret r => Loop.ichi_untouched fopen_w stdout r
  | Undef _ => True
  end.
Proof.
  intros Hall. unfold Ichi.main.
  match goal with
  | |- match (match Ichi.main_options _ _ ?s0 with _ => _ end) with
       | _ => _
       end =>
      assert (Q0 : Loop.ichi_quiet fopen_w stdout s0)
        by (repeat split; try reflexivity; discriminate);
      pose proof (ichi_options_quiet stdout opts Hall s0 Q0) as Q;
      destruct (Ichi.main_options fopen_w opts s0) as [s|rv s]
  end; [|now apply quiet_leave].
  destruct operands as [|fn [|fn' rest]].
  - now apply ichi_action_quiet.
  - destruct (fopen_r (Ichi.l_world s) fn) as [contents|].
    + now apply ichi_action_quiet.
    + apply quiet_leave. destruct Q as (Hk & Ha & Hx & Ho & Hf).
      repeat split; assumption.
  - apply quiet_leave. destruct Q as (Hk & Ha & Hx & Ho & Hf).
    repeat split; assumption.
Qed.

End Facts.
End IchiMainFacts.

Module KurvMainFacts.
Section Facts.
Context {B64 : Base64} {MC : Monocypher}.

Lemma concat_defined (dst a b : bytes) (a_size b_size : Z) :
  0 <= a_size <= len a -> 0 <= b_size <= len b ->
  a_size + b_size + 1 <= len dst ->
  exists r, Kurv.concat dst a a_size b b_size = Ret r /\ len r = len dst.
Proof.
  intros Ha Hb Hd. rewrite GenerateFacts.concat_fits by assumption.
  eexists. split; [reflexivity|].
  rewrite !len_app, !len_take, len_drop by lia.
  change (len [x00]) with 1. lia.
Qed.

(** [generate] is defined on every base name and in all surroundings, and
    writes nothing on standard output. *)
Lemma generate_defined (getrandom : option bytes)
    (open_w : bytes -> Z -> option bool) (base : bytes) (p : Kurv.proc) :
  exists r g,
    Kurv.generate getrandom open_w base p = Ret (r, g)
    /\ Kurv.stdout (Kurv.g_proc g) = Kurv.stdout p.
Proof.
  unfold Kurv.generate.
  destruct getrandom as [random|];
    [|eexists; eexists; split; reflexivity].
  pose proof (len_nonneg base) as Hb.
  assert (Lb : len (cstring base) = len base + 1)
    by (unfold cstring; rewrite len_app; reflexivity).
  destruct (concat_defined (calloc (len base + 5 + 1)) (cstring base)
              (cstring (txt ".priv")) (len base) 5)
    as (path1 & C1 & L1);
    [lia | split; discriminate | rewrite MemFacts.len_calloc; lia|].
  rewrite MemFacts.len_calloc in L1 by lia.
  rewrite C1. cbn [bind]. unfold Kurv.safe_fopen_w.
  destruct (open_w (cstr path1) _) as [ok1|];
    [|eexists; eexists; split; reflexivity].
  destruct (fwrite_buffered _ 44 (mkOFILE [] ok1)) as [k1 fp1].
  destruct (negb (k1 =? 44)); [eexists; eexists; split; reflexivity|].
  destruct (fwrite_buffered [NL] 1 fp1) as [k2 fp2].
  destruct (k2 <? 0); [eexists; eexists; split; reflexivity|].
  destruct (concat_defined path1 (cstring base) (cstring (txt ".pub"))
              (len base) 4)
    as (path2 & C2 & L2); [lia | split; discriminate | lia|].
  rewrite C2. cbn [bind].
  destruct (open_w (cstr path2) _) as [ok2|];
    [|eexists; eexists; split; reflexivity].
  destruct (fwrite_buffered _ 44 (mkOFILE [] ok2)) as [k3 fp3].
  destruct (negb (k3 =? 44)); [eexists; eexists; split; reflexivity|].
  destruct (fwrite_buffered [NL] 1 fp3) as [k4 fp4].
  destruct (k4 <? 0); eexists; eexists; split; reflexivity.
Qed.

(** Splits the [switch] of the option loop into its cases. *)
Ltac by_option c :=
  unfold Kurv.main_option;
  repeat match goal with
         | |- context [if Ascii.eqb c ?x then _ else _] =>
             let E := fresh "E" in
             destruct (Ascii.eqb c x) eqn:E;
             [apply Ascii.eqb_eq in E|]
         end.

Lemma fopen_or_die_stdout (w : world) (ctx fn : bytes) (p : Kurv.proc) :
  Kurv.stdout (snd (Kurv.fopen_or_die w ctx fn p)) = Kurv.stdout p.
Proof.
  unfold Kurv.fopen_or_die.
  destruct (strcmp fn (txt "-") =? 0); [reflexivity|].
  now destruct (fopen_r w fn).
Qed.

Lemma fopen_warn_stdout (fn : bytes) (is_priv : bool) (p : Kurv.proc) :
  Kurv.stdout (Kurv.fopen_warn fn is_priv p) = Kurv.stdout p.
Proof.
  unfold Kurv.fopen_warn.
  destruct (negb (Kurv.endswith fn _ =? 0)); [|reflexivity].
  now destruct is_priv.
Qed.



(** *** The streams of [main] *)



(** The three [fclose] fail only on a second [fclose(stdin)], which takes
    two pointers that designate standard input. *)
Lemma finish_cases (fp pk_fp sk_fp : option Kurv.stream) (r : Kurv.run Z)
    (p : Kurv.proc) (files : list created) :
  match Kurv.finish fp pk_fp sk_fp r p files with
  | Ret e => Kurv.e_proc e = p
  | Undef f =>
      f = ClosedStream
      /\ (2 <= Loop.kurv_on_stdin fp + Loop.kurv_on_stdin pk_fp
               + Loop.kurv_on_stdin sk_fp)%nat
  end.
Proof.
  destruct r as [rv|code]; [|reflexivity].
  destruct fp as [[|c1]|], pk_fp as [[|c2]|], sk_fp as [[|c3]|];
    cbn; try reflexivity; split; try reflexivity; lia.
Qed.

Lemma finish_proc (fp pk_fp sk_fp : option Kurv.stream) (r : Kurv.run Z)
    (p : Kurv.proc) (files : list created) (e : Kurv.ended) :
  Kurv.finish fp pk_fp sk_fp r p files = Ret e -> Kurv.e_proc e = p.
Proof.
  intros H.
  pose proof (finish_cases fp pk_fp sk_fp r p files) as C.
  now rewrite H in C.
Qed.






(** *** What is written when nothing asks for output *)

Lemma kurv_option_quiet (w : world) (stdout : OFILE) (c : ascii)
    (optarg : bytes) (s : Kurv.locals) :
  c <> "h"%char -> c <> "s"%char -> c <> "d"%char -> c <> "i"%char ->
  c <> "o"%char ->
  Loop.kurv_quiet stdout s ->
  match Kurv.main_option w c optarg s with
  | Kurv.Next s' => Loop.kurv_quiet stdout s'
  | Kurv.Exit code p => Kurv.stdout p = stdout
  end.
Proof.
  intros Nh Ns Nd Ni No (Hi & Ho & Hs & Hd & Hp).
  by_option c; try contradiction.
  - repeat split; try assumption; discriminate.
  - pose proof (fopen_or_die_stdout w (txt "checking") optarg (Kurv.l_proc s))
      as F.
    destruct (Kurv.fopen_or_die w _ optarg _) as [[fp|code] p1];
      cbn [snd] in F; [|congruence].
    repeat split; try assumption; try discriminate.
    cbn [Kurv.set_fp Kurv.l_proc]. congruence.
  - pose proof (fopen_or_die_stdout w (txt "private key file") optarg
                  (Kurv.fopen_warn optarg true (Kurv.l_proc s))) as F.
    rewrite fopen_warn_stdout in F.
    destruct (Kurv.fopen_or_die w _ optarg _) as [[fp|code] p1];
      cbn [snd] in F; [|congruence].
    repeat split; try assumption.
    cbn [Kurv.set_sk_fp Kurv.l_proc]. congruence.
  - pose proof (fopen_or_die_stdout w (txt "public key file") optarg
                  (Kurv.fopen_warn optarg false (Kurv.l_proc s))) as F.
    rewrite fopen_warn_stdout in F.
    destruct (Kurv.fopen_or_die w _ optarg _) as [[fp|code] p1];
      cbn [snd] in F; [|congruence].
    repeat split; try assumption.
    cbn [Kurv.set_pk_fp Kurv.l_proc]. congruence.
  - exact Hp.
Qed.

Lemma kurv_options_quiet (w : world) (stdout : OFILE)
    (opts : list (ascii * bytes)) :
  (forall c optarg, In (c, optarg) opts ->
     c <> "h"%char /\ c <> "s"%char /\ c <> "d"%char /\ c <> "i"%char
     /\ c <> "o"%char) ->
  forall s, Loop.kurv_quiet stdout s ->
  match Kurv.main_options w opts s with
  | Kurv.Next s' => Loop.kurv_quiet stdout s'
  | Kurv.Exit code p => Kurv.stdout p = stdout
  end.
Proof.
  induction opts as [|[c optarg] rest IH]; intros Hall s Hq; [exact Hq|].
  cbn [Kurv.main_options].
  destruct (Hall c optarg (or_introl eq_refl)) as (Nh & Ns & Nd & Ni & No).
  pose proof (kurv_option_quiet w stdout c optarg s Nh Ns Nd Ni No Hq) as Q.
  destruct (Kurv.main_option w c optarg s) as [s1|code p1]; [|exact Q].
  apply IH; [|exact Q]. intros c' a' Hin. apply (Hall c' a'). now right.
Qed.

Lemma kurv_action_quiet (w : world) (stdin : FILE) (stdout : OFILE)
    (getrandom : option bytes) (open_w : bytes -> Z -> option bool)
    (s : Kurv.locals) (e : Kurv.ended) :
  Loop.kurv_quiet stdout s ->
  Kurv.main_action w stdin getrandom open_w s = Ret e ->
  Kurv.stdout (Kurv.e_proc e) = stdout.
Proof.
  intros (Hi & Ho & Hs & Hd & Hp) H. unfold Kurv.main_action in H.
  cbv zeta in H.
  destruct (Ascii.eqb (Kurv.l_action s) "g").
  { destruct (Kurv.l_base s) as [base|]; [|discriminate H].
    destruct (generate_defined getrandom open_w base (Kurv.l_proc s))
      as (r & g & G & Gs).
    rewrite G in H. cbn [bind] in H. apply finish_proc in H. congruence. }
  destruct (Ascii.eqb (Kurv.l_action s) "s") eqn:Es;
    [apply Ascii.eqb_eq in Es; contradiction|].
  destruct (Ascii.eqb (Kurv.l_action s) "c").
  { destruct (Kurv.l_fp s) as [fp|]; [|now injection H as <-].
    rewrite Hi, Ho in H.
    destruct (Kurv.l_pk_fp s) as [pk_fp|].
    - destruct (Kurv.check _ _ _ false false _) as [[r p1]|f] eqn:C;
        [|discriminate H].
      apply SafetyFacts.check_quiet in C.
      cbn [bind] in H. apply finish_proc in H. congruence.
    - destruct (Kurv.check_keyring w _ false false _) as [[r p1]|f] eqn:C;
        [|discriminate H].
      apply SafetyFacts.check_keyring_quiet in C.
      cbn [bind] in H. apply finish_proc in H. congruence. }
  destruct (Ascii.eqb (Kurv.l_action s) "d") eqn:Ed;
    [apply Ascii.eqb_eq in Ed; contradiction|].
  now injection H as <-.
Qed.

Lemma kurv_main_quiet (w : world) (stdin : FILE) (stdout : OFILE)
    (getrandom : option bytes) (open_w : bytes -> Z -> option bool)
    (opts : list (ascii * bytes)) (e : Kurv.ended) :
  (forall c optarg, In (c, optarg) opts ->
     c <> "h"%char /\ c <> "s"%char /\ c <> "d"%char /\ c <> "i"%char
     /\ c <> "o"%char) ->
  Kurv.main w stdin stdout getrandom open_w opts = Ret e ->
  Kurv.stdout (Kurv.e_proc e) = stdout.
Proof.
  intros Hall H. unfold Kurv.main in H.
  match type of H with
  | match Kurv.main_options _ _ ?s0 with _ => _ end = _ =>
      assert (Q0 : Loop.kurv_quiet stdout s0)
        by (repeat split; try reflexivity; discriminate);
      pose proof (kurv_options_quiet w stdout opts Hall s0 Q0) as Q;
      destruct (Kurv.main_options w opts s0) as [s|code p]
  end.
  - eapply kurv_action_quiet; eassumption.
  - injection H as <-. exact Q.
Qed.

End Facts.
End KurvMainFacts.

(** ** The armor codec *)

(** C2.  Round trip: for every 64-byte signature [s] and message [m], the
    reader of each tool, applied to what its own writer produced by appending
    the joined envelope of [s] to [m], returns exactly [s] and the length of
    [m]: [sig_from_buf] on the output of ichi-sign's [sign], [find_signature]
    on the output of kurv's [sign].  The codec is assumed to encode [s] in 88
    characters that it accepts and decodes back to [s]. *)
Theorem joined_roundtrip {B64 : Base64} (s m sig0 : bytes) (n0 : Z)
    (out : OFILE) (err : log) (p : Kurv.proc) :
  len s = 64 -> len (b64_encode s) = 88 ->
  b64_bad (b64_encode s) 64 = false -> b64_decode (b64_encode s) = s ->
  o_ok out = true -> o_data out = [] ->
  o_ok (Kurv.stdout p) = true -> o_data (Kurv.stdout p) = [] ->
  (exists out',
     Ichi.sign_output out false m (len m) s err = (0, out', err)
     /\ Ichi.sig_from_buf sig0 n0 (o_data out') (len (o_data out'))
        = Ret (0, s, len m))
  /\ (let written := o_data (Kurv.stdout (Kurv.sign_output m (len m) s p)) in
      Kurv.find_signature sig0 written (len written) = Ret (0, s, len m)).
Proof.
  intros Hs He Hv Hd Hok Hnil Hok' Hnil'.
  destruct (IchiFacts.halves (b64_encode s) He) as (L1 & L2 & Hcat).
  split.
  - eexists. split; [apply IchiFacts.sign_output_joined; assumption|].
    cbn [o_data]. rewrite Hnil, app_nil_l.
    rewrite IchiFacts.sig_from_buf_layout by assumption.
    now rewrite Hcat, Hv, Hd.
  - cbv zeta. rewrite KurvFacts.sign_output_eq by assumption.
    cbn [Kurv.stdout o_data]. rewrite Hnil', app_nil_l.
    rewrite KurvFacts.find_signature_layout by assumption.
    now rewrite Hv, Hd.
Qed.

Lemma joined_roundtrip_witness :
  (exists out',
     Ichi.sign_output Sample.out0 false Sample.message (len Sample.message)
       Sample.raw_sig [] = (0, out', [])
     /\ Ichi.sig_from_buf (fresh 64) 0 (o_data out') (len (o_data out'))
        = Ret (0, Sample.raw_sig, len Sample.message))
  /\ (let written :=
        o_data (Kurv.stdout (Kurv.sign_output Sample.message
                               (len Sample.message) Sample.raw_sig
                               Sample.proc0)) in
      Kurv.find_signature (fresh 64) written (len written)
      = Ret (0, Sample.raw_sig, len Sample.message)).
Proof.
  apply (joined_roundtrip Sample.raw_sig Sample.message (fresh 64) 0
           Sample.out0 [] Sample.proc0); reflexivity.
Defined.

(** C3, counterexample.  kurv's [sign] does not add
    [len(start_marker)+44+1+44+len(end_marker)] bytes to the message: on
    [hello] it adds one byte less, the 88 characters being written without a
    separator. *)
Lemma kurv_envelope_length_counterexample :
  len (o_data (Kurv.stdout (Kurv.sign_output Sample.message
                              (len Sample.message) Sample.raw_sig
                              Sample.proc0)))
  <> len Sample.message
     + (len Kurv.SIG_START + 44 + 1 + 44 + len Kurv.SIG_END).
Proof. vm_compute. discriminate. Qed.

(** C3, as amended.  With a codec that encodes the 64-byte signature [s] in
    88 characters: ichi-sign's detached output is exactly those 88
    characters, and its joined output is the message followed by the start
    marker, the first 44 characters, a single newline, the remaining 44
    characters and the end marker, that is
    [len(start_marker)+44+1+44+len(end_marker)] added bytes; kurv, which has
    no detached mode, writes the message followed by the start marker, the 88
    characters unbroken and the end marker, that is
    [len(start_marker)+88+len(end_marker)] added bytes. *)
Theorem wrap_layout {B64 : Base64} (s m : bytes) (out : OFILE) (err : log)
    (p : Kurv.proc) :
  len s = 64 -> len (b64_encode s) = 88 ->
  o_ok out = true -> o_ok (Kurv.stdout p) = true ->
  let e := b64_encode s in
  let ichi_envelope :=
    Ichi.SIG_ARMOR_TOP ++ take 44 e ++ [NL] ++ drop 44 e
    ++ Ichi.SIG_ARMOR_END in
  let kurv_envelope := Kurv.SIG_START ++ e ++ Kurv.SIG_END in
  Ichi.sign_output out true m (len m) s err
  = (0, mkOFILE (o_data out ++ e) true, err)
  /\ Ichi.sign_output out false m (len m) s err
     = (0, mkOFILE (o_data out ++ m ++ ichi_envelope) true, err)
  /\ len (take 44 e) = 44 /\ len (drop 44 e) = 44
  /\ take 44 e ++ drop 44 e = e
  /\ len ichi_envelope
     = len Ichi.SIG_ARMOR_TOP + 44 + 1 + 44 + len Ichi.SIG_ARMOR_END
  /\ Kurv.sign_output m (len m) s p
     = Kurv.mkproc (mkOFILE (o_data (Kurv.stdout p) ++ m ++ kurv_envelope)
                      true) (Kurv.stderr p)
  /\ len kurv_envelope = len Kurv.SIG_START + 88 + len Kurv.SIG_END.
Proof.
  intros Hs He Hok Hok'. cbv zeta.
  destruct (IchiFacts.halves (b64_encode s) He) as (L1 & L2 & Hcat).
  split; [now apply IchiFacts.sign_output_detached|].
  split; [now apply IchiFacts.sign_output_joined|].
  repeat split; try assumption.
  - rewrite !len_app, L1, L2. rewrite len_cons, len_nil. lia.
  - now apply KurvFacts.sign_output_eq.
  - rewrite !len_app, He. lia.
Qed.

Lemma wrap_layout_witness :
  let e := b64_encode Sample.raw_sig in
  Ichi.sign_output Sample.out0 true Sample.message (len Sample.message)
    Sample.raw_sig []
  = (0, mkOFILE ([] ++ e) true, [])
  /\ Ichi.sign_output Sample.out0 false Sample.message (len Sample.message)
       Sample.raw_sig []
     = (0, mkOFILE ([] ++ Sample.ichi_signed) true, []).
Proof.
  assert (Hs : len Sample.raw_sig = 64) by reflexivity.
  assert (He : len (b64_encode Sample.raw_sig) = 88) by reflexivity.
  destruct (wrap_layout Sample.raw_sig Sample.message Sample.out0 []
              Sample.proc0 Hs He eq_refl eq_refl)
    as (D & J & _).
  split; [exact D | exact J].
Defined.

(** C4, counterexample.  kurv's [find_signature] accepts a buffer in which
    no separator byte stands between the two 44-character halves: the buffer
    that kurv's [sign] writes for [hello] is accepted although it does not
    have the layout with a newline between the halves. *)
Lemma kurv_accepts_without_separator_counterexample :
  Kurv.find_signature (fresh 64) Sample.kurv_signed (len Sample.kurv_signed)
  = Ret (0, Sample.raw_sig, 5)
  /\ ~ Spec.joined_layout Kurv.SIG_START Kurv.SIG_END Sample.kurv_signed.
Proof.
  split; [reflexivity|].
  intros (m & h1 & h2 & L1 & L2 & E).
  assert (Lm : len m = 4).
  { apply (f_equal len) in E. rewrite !len_app, L1, L2 in E.
    rewrite KurvFacts.len_sig_start, KurvFacts.len_sig_end in E.
    change (len Sample.kurv_signed) with 151 in E.
    change (len [NL]) with 1 in E. lia. }
  assert (D : drop 78 Sample.kurv_signed = [NL] ++ h2 ++ Kurv.SIG_END).
  { rewrite E.
    replace (m ++ Kurv.SIG_START ++ h1 ++ [NL] ++ h2 ++ Kurv.SIG_END)
      with ((m ++ Kurv.SIG_START ++ h1) ++ [NL] ++ h2 ++ Kurv.SIG_END)
      by assoc.
    apply drop_app. rewrite !len_app, Lm, L1, KurvFacts.len_sig_start. lia. }
  vm_compute in D. discriminate D.
Qed.

(** C4, as amended.  ichi-sign's [sig_from_buf] either fails with -1, leaving
    the signature and the size untouched, or the buffer ends in the start
    marker, 44 characters, a newline, 44 characters and the end marker, the 88
    characters are accepted by the codec, and the result is their decoding
    with the length of what precedes the envelope; in particular a buffer
    that does not have this layout is rejected.  kurv's [find_signature] does
    the same for its own layout, in which the 88 characters follow the start
    marker in one piece and no separator is required.  Neither ever reads
    outside the buffer. *)
Theorem unwrap_all_or_nothing {B64 : Base64} (sig buf : bytes) (n : Z) :
  (Ichi.sig_from_buf sig n buf (len buf) = Ret (-1, sig, n)
   \/ exists m h1 h2,
        len h1 = 44 /\ len h2 = 44
        /\ buf = m ++ Ichi.SIG_ARMOR_TOP ++ h1 ++ [NL] ++ h2
                 ++ Ichi.SIG_ARMOR_END
        /\ b64_bad (h1 ++ h2) 64 = false
        /\ Ichi.sig_from_buf sig n buf (len buf)
           = Ret (0, b64_decode (h1 ++ h2), len m))
  /\ (~ Spec.joined_layout Ichi.SIG_ARMOR_TOP Ichi.SIG_ARMOR_END buf ->
      Ichi.sig_from_buf sig n buf (len buf) = Ret (-1, sig, n))
  /\ (Kurv.find_signature sig buf (len buf) = Ret (-1, sig, len buf)
      \/ exists m b64,
           len b64 = 88
           /\ buf = m ++ Kurv.SIG_START ++ b64 ++ Kurv.SIG_END
           /\ b64_bad b64 64 = false
           /\ Kurv.find_signature sig buf (len buf)
              = Ret (0, b64_decode b64, len m))
  /\ (~ Spec.unbroken_layout Kurv.SIG_START Kurv.SIG_END buf ->
      Kurv.find_signature sig buf (len buf) = Ret (-1, sig, len buf)).
Proof.
  pose proof (IchiFacts.sig_from_buf_cases sig n buf) as I.
  pose proof (KurvFacts.find_signature_cases sig buf) as K.
  split; [exact I|]. split; [|split; [exact K|]].
  - intros Hno. destruct I as [I|(m & h1 & h2 & L1 & L2 & Hb & _)];
      [exact I|].
    exfalso. apply Hno. exists m, h1, h2. auto.
  - intros Hno. destruct K as [K|(m & b64 & Lb & Hb & _)]; [exact K|].
    exfalso. apply Hno. exists m, b64. auto.
Qed.

(** The theorem at buffers that pass the length test and fail one
    comparison each (the separator, the start marker, the end marker), and at
    a buffer too short to hold an envelope. *)
Lemma unwrap_all_or_nothing_witness :
  let ichi_rejects buf :=
    ~ Spec.joined_layout Ichi.SIG_ARMOR_TOP Ichi.SIG_ARMOR_END buf
    /\ Ichi.sig_from_buf (fresh 64) 0 buf (len buf) = Ret (-1, fresh 64, 0) in
  let kurv_rejects buf :=
    ~ Spec.unbroken_layout Kurv.SIG_START Kurv.SIG_END buf
    /\ Kurv.find_signature (fresh 64) buf (len buf)
       = Ret (-1, fresh 64, len buf) in
  (ichi_rejects Sample.ichi_no_newline
   /\ ichi_rejects Sample.ichi_bad_top
   /\ ichi_rejects Sample.ichi_bad_end
   /\ ichi_rejects Sample.message)
  /\ (kurv_rejects Sample.kurv_bad_start
      /\ kurv_rejects Sample.kurv_bad_end
      /\ kurv_rejects Sample.message).
Proof.
  cbv zeta.
  assert (I : forall buf,
            ~ Spec.joined_layout Ichi.SIG_ARMOR_TOP Ichi.SIG_ARMOR_END buf ->
            ~ Spec.joined_layout Ichi.SIG_ARMOR_TOP Ichi.SIG_ARMOR_END buf
            /\ Ichi.sig_from_buf (fresh 64) 0 buf (len buf)
               = Ret (-1, fresh 64, 0)).
  { intros buf Hno. split; [exact Hno|].
    exact (proj1 (proj2 (unwrap_all_or_nothing (fresh 64) buf 0)) Hno). }
  assert (K : forall buf,
            ~ Spec.unbroken_layout Kurv.SIG_START Kurv.SIG_END buf ->
            ~ Spec.unbroken_layout Kurv.SIG_START Kurv.SIG_END buf
            /\ Kurv.find_signature (fresh 64) buf (len buf)
               = Ret (-1, fresh 64, len buf)).
  { intros buf Hno. split; [exact Hno|].
    exact (proj2 (proj2 (proj2 (unwrap_all_or_nothing (fresh 64) buf 0)))
             Hno). }
  split; [split; [|split; [|split]] | split; [|split]].
  - (* the byte between the halves is not a newline *)
    apply I. intros H. apply LayoutFacts.joined_layout_parts in H.
    destruct H as (_ & _ & D & _). vm_compute in D. discriminate D.
  - (* the start marker differs *)
    apply I. intros H. apply LayoutFacts.joined_layout_parts in H.
    destruct H as (_ & D & _ & _). vm_compute in D. discriminate D.
  - (* the end marker differs *)
    apply I. intros H. apply LayoutFacts.joined_layout_parts in H.
    destruct H as (_ & _ & _ & D). vm_compute in D. discriminate D.
  - (* too short to hold an envelope *)
    apply I. intros H. apply LayoutFacts.joined_layout_parts in H.
    destruct H as (D & _). vm_compute in D. now apply D.
  - apply K. intros H. apply LayoutFacts.unbroken_layout_parts in H.
    destruct H as (_ & D & _). vm_compute in D. discriminate D.
  - apply K. intros H. apply LayoutFacts.unbroken_layout_parts in H.
    destruct H as (_ & _ & D). vm_compute in D. discriminate D.
  - apply K. intros H. apply LayoutFacts.unbroken_layout_parts in H.
    destruct H as (D & _). vm_compute in D. now apply D.
Defined.

(** C5.  A buffer strictly shorter than the minimum envelope length is
    rejected with -1 by [sig_from_buf] (149 bytes for ichi-sign) and by
    [find_signature] (146 bytes for kurv), as a defined result and not as a
    read outside the buffer; a buffer that is exactly one valid envelope has
    the minimum length and is accepted with a message of length zero. *)
Theorem minimum_envelope {B64 : Base64} (buf h1 h2 sig : bytes) (n : Z) :
  let ichi_minimum :=
    len Ichi.SIG_ARMOR_TOP + (44 + 1 + 44) + len Ichi.SIG_ARMOR_END in
  let kurv_minimum := len Kurv.SIG_START + 88 + len Kurv.SIG_END in
  let exact_i :=
    Ichi.SIG_ARMOR_TOP ++ h1 ++ [NL] ++ h2 ++ Ichi.SIG_ARMOR_END in
  let exact_k := Kurv.SIG_START ++ (h1 ++ h2) ++ Kurv.SIG_END in
  (len buf < ichi_minimum ->
   Ichi.sig_from_buf sig n buf (len buf) = Ret (-1, sig, n))
  /\ (len buf < kurv_minimum ->
      Kurv.find_signature sig buf (len buf) = Ret (-1, sig, len buf))
  /\ (len h1 = 44 -> len h2 = 44 -> b64_bad (h1 ++ h2) 64 = false ->
      len exact_i = ichi_minimum
      /\ Ichi.sig_from_buf sig n exact_i (len exact_i)
         = Ret (0, b64_decode (h1 ++ h2), 0)
      /\ len exact_k = kurv_minimum
      /\ Kurv.find_signature sig exact_k (len exact_k)
         = Ret (0, b64_decode (h1 ++ h2), 0)).
Proof.
  cbv zeta.
  rewrite IchiFacts.len_top, IchiFacts.len_end,
    KurvFacts.len_sig_start, KurvFacts.len_sig_end.
  split; [intros Hi; apply IchiFacts.sig_from_buf_short; lia|].
  split; [intros Hk; apply KurvFacts.find_signature_short; lia|].
  intros L1 L2 Hv.
  split; [rewrite !len_app, L1, L2, IchiFacts.len_top, IchiFacts.len_end,
            len_cons, len_nil; lia|].
  split.
  - pose proof (IchiFacts.sig_from_buf_layout sig n [] h1 h2 L1 L2) as R.
    rewrite app_nil_l in R. rewrite R, Hv. reflexivity.
  - split; [rewrite !len_app, L1, L2, KurvFacts.len_sig_start,
              KurvFacts.len_sig_end; lia|].
    pose proof (KurvFacts.find_signature_layout sig [] (h1 ++ h2)) as R.
    rewrite app_nil_l in R. rewrite R, Hv by (rewrite len_app; lia).
    reflexivity.
Qed.

Lemma minimum_envelope_witness :
  Ichi.sig_from_buf (fresh 64) 0 Sample.message (len Sample.message)
  = Ret (-1, fresh 64, 0)
  /\ Ichi.sig_from_buf (fresh 64) 0 (drop 5 Sample.ichi_signed)
       (len (drop 5 Sample.ichi_signed))
     = Ret (0, Sample.raw_sig, 0).
Proof.
  assert (Hi : len Sample.message
               < len Ichi.SIG_ARMOR_TOP + (44 + 1 + 44)
                 + len Ichi.SIG_ARMOR_END) by reflexivity.
  assert (L1 : len (take 44 (b64_encode Sample.raw_sig)) = 44)
    by reflexivity.
  assert (L2 : len (drop 44 (b64_encode Sample.raw_sig)) = 44)
    by reflexivity.
  assert (Hv : b64_bad (take 44 (b64_encode Sample.raw_sig)
                        ++ drop 44 (b64_encode Sample.raw_sig)) 64 = false)
    by reflexivity.
  destruct (minimum_envelope Sample.message
              (take 44 (b64_encode Sample.raw_sig))
              (drop 44 (b64_encode Sample.raw_sig)) (fresh 64) 0)
    as (A & _ & B).
  destruct (B L1 L2 Hv) as (_ & B' & _).
  split; [exact (A Hi) | exact B'].
Defined.

(** ** Detached signatures *)

(** C9.  Reading a detached signature consumes exactly the first 88 bytes
    of the source: when the source holds [head ++ rest] with [head] of 88
    bytes, the status and the decoded signature of [sig_from_file] are a
    function of [head] alone (a [head] the codec accepts gives status 0 and
    its decoding, whatever [rest] is), and [rest] is still pending in the
    stream afterwards; [read_exactly] of kurv likewise stores [head] and
    leaves [rest] pending. *)
Theorem detached_signature_prefix {B64 : Base64} (head rest sig buf : bytes)
    (fp : FILE) (err : log) (p : Kurv.proc) :
  len head = 88 -> f_pending fp = head ++ rest ->
  let fp' := mkFILE rest (f_broken fp) (f_eof fp) (f_error fp) in
  Ichi.sig_from_file fp sig err
  = (if b64_bad head 64
     then (1, sig, fp', Ichi.ERR err (txt "malformed signature"))
     else (0, b64_decode head, fp', err))
  /\ Kurv.read_exactly buf 88 fp p = (0, store head buf, fp', p).
Proof.
  intros Hh Hp. cbv zeta.
  assert (R : fread 88 fp
              = (head, mkFILE rest (f_broken fp) (f_eof fp) (f_error fp))).
  { unfold fread. rewrite Hp, take_app, drop_app by lia.
    rewrite Hh. now rewrite Z.ltb_irrefl. }
  split.
  - unfold Ichi.sig_from_file, Ichi._read, Ichi.B64_SIG_SIZE.
    rewrite R, Hh, Z.eqb_refl. cbn [Z.eqb negb].
    rewrite take_all by lia. now destruct (b64_bad head 64).
  - unfold Kurv.read_exactly. rewrite R, Hh, Z.eqb_refl. reflexivity.
Qed.

Lemma detached_signature_prefix_witness :
  Ichi.sig_from_file
    (fopen_on (b64_encode Sample.raw_sig ++ txt "trailing bytes"))
    (fresh 64) []
  = (0, Sample.raw_sig, fopen_on (txt "trailing bytes"), []).
Proof.
  assert (Hh : len (b64_encode Sample.raw_sig) = 88) by reflexivity.
  assert (Hp : f_pending (fopen_on (b64_encode Sample.raw_sig
                                    ++ txt "trailing bytes"))
               = b64_encode Sample.raw_sig ++ txt "trailing bytes")
    by reflexivity.
  destruct (detached_signature_prefix (b64_encode Sample.raw_sig)
              (txt "trailing bytes") (fresh 64) (fresh 88)
              (fopen_on (b64_encode Sample.raw_sig ++ txt "trailing bytes"))
              [] Sample.proc0 Hh Hp) as [A _].
  exact A.
Defined.

(** ** Secret wiping *)

(** C7, at the failing input.  kurv's key loader, given a key file that
    holds a valid encoded secret key, returns success and leaves its array of
    encoded text holding the 44 characters of the key: the array is not the
    zeroed array.  ichi-sign's key loader, on the same file, returns with the
    array zeroed. *)
Theorem kurv_key_text_left_unwiped :
  Kurv.find_key_in_file (fresh 32) (fopen_on Sample.key_file) (fresh 44)
    Sample.proc0
  = (0, Sample.secret_key, fopen_on [NL], Sample.key_text, Sample.proc0)
  /\ Sample.key_text <> crypto_wipe Sample.key_text
  /\ Ichi.read_key_from_file (Sample.file_world Sample.key_file) (txt "sk")
       (fresh 32) (fresh 44) []
     = (0, Sample.secret_key, crypto_wipe Sample.key_text, []).
Proof.
  split; [reflexivity|]. split; [|reflexivity]. vm_compute. discriminate.
Qed.

(** ** Keyring configuration *)

(** C6, at the failing input.  When the keyring variable names a directory
    that cannot be opened, ichi-sign's [verify_keyring] applies [dirfd] to the
    NULL stream that [opendir] returned: the outcome is undefined behaviour,
    not a failure status.  In the same surroundings kurv's [check_keyring],
    which tests what [opendir] returned, exits with status 1 and a
    diagnostic. *)
Theorem ichi_keyring_unopenable_is_undefined :
  Ichi.verify_keyring Sample.missing_keyring Sample.keyring_ctx
    Sample.message (len Sample.message) Sample.raw_sig []
  = Undef NullStream
  /\ Kurv.check_keyring Sample.missing_keyring (fopen_on Sample.kurv_signed)
       false false Sample.proc0
     = Ret (Kurv.Exits 1, Kurv.mkproc Sample.out0 [txt "opendir"]).
Proof. split; reflexivity. Qed.

(** ** Keyring resolution *)

(** C1, at the failing input.  In kurv a candidate of the keyring that is too
    short to hold a key is passed over, but not silently: it is loaded
    through [read_exactly], which reports the short read, so the scan leaves
    [kurv: fread] on standard error and the process does not end in the
    state it ends in without that entry.  The same scan passes over a
    candidate that cannot be opened, and over one whose 44 characters do not
    decode, without a trace; and so does the scan of ichi-sign over a
    candidate that is too short. *)
Theorem kurv_short_candidate_is_reported :
  let kurv_scan (e : dirent) :=
    Kurv.keyring_scan (Sample.world_of [e]) (txt "/keys/") Sample.message 5
      Sample.good_sig false false [e] Sample.proc0 in
  let not_found :=
    (@Kurv.Exits Z 1, Kurv.mkproc Sample.out0 [txt "cannot find a signer."]) in
  kurv_scan Sample.short_entry
  = (Kurv.Exits 1,
     Kurv.mkproc Sample.out0
       [txt "kurv: fread"; txt "cannot find a signer."])
  /\ kurv_scan Sample.short_entry <> not_found
  /\ Kurv.keyring_scan (Sample.world_of []) (txt "/keys/") Sample.message 5
       Sample.good_sig false false [] Sample.proc0
     = not_found
  /\ kurv_scan Sample.locked_entry = not_found
  /\ kurv_scan Sample.garbled_entry = not_found
  /\ Ichi.keyring_scan Sample.keyring_ctx (txt "/keys") Sample.message 5
       Sample.good_sig
       [mkdirent (txt "short.sign.pub") (Some (txt "abc"))] (fresh 44) []
     = (1, Sample.out0, []).
Proof.
  cbv zeta. split; [reflexivity|]. split; [vm_compute; discriminate|].
  repeat split; reflexivity.
Qed.

(** The two scans in full.  The scan of each tool considers exactly the
    entries whose names end in the candidate suffix ([.sign.pub] for
    ichi-sign, [.pub] for kurv); a candidate that fails to open, read or decode as a public key
    never aborts the scan: ichi-sign passes over it without a trace, kurv
    passes over it too but leaves a read diagnostic on standard error when the
    candidate is shorter than 44 bytes; at the first candidate under which the
    signature verifies the scan stops with success, ichi-sign naming the
    entry in its diagnostic and writing the message when streaming is
    requested, kurv printing the entry's file name and the message when they
    are requested; when no entry matches, the result is failure (status 1)
    with nothing written on the output.  The output stream is assumed to
    accept data. *)
Theorem keyring_first_match {B64 : Base64} {MC : Monocypher} (w : world)
    (ctx : Ichi.verify_ctx) (keyring_dir path msg sig b64_pk : bytes) (n : Z)
    (dir : DIR) (err : log) (id og : bool) (p : Kurv.proc) :
  let m := take n msg in
  let ichi_hit e := Ichi.is_candidate (d_name e) && Spec.verifies sig m e in
  let kurv_candidate name := negb (Kurv.not_candidate name) in
  let kurv_hit e := kurv_candidate (d_name e) && Spec.verifies sig m e in
  (forall name,
     Ichi.is_candidate name = true
     <-> Spec.has_suffix (txt ".sign.pub") name)
  /\ (forall name,
        kurv_candidate name = true <-> Spec.has_suffix (txt ".pub") name)
  /\ (0 <= n <= len msg -> o_ok (Ichi.v_output ctx) = true ->
      Ichi.keyring_scan ctx keyring_dir msg n sig dir b64_pk err
      = match find ichi_hit dir with
        | Some e =>
            (0,
             if Ichi.v_stream_output ctx
             then mkOFILE (o_data (Ichi.v_output ctx) ++ m) true
             else Ichi.v_output ctx,
             Ichi.ERR err (Ichi.good_signature_by keyring_dir (d_name e)))
        | None => (1, Ichi.v_output ctx, err)
        end)
  /\ (0 <= n <= len msg -> o_ok (Kurv.stdout p) = true ->
      (forall e, In e dir -> fopen_r w (path ++ d_name e) = d_contents e) ->
      Kurv.keyring_scan w path msg n sig id og dir p
      = match find kurv_hit dir with
        | Some e =>
            (Kurv.Exits 0,
             Kurv.mkproc
               (mkOFILE (o_data (Kurv.stdout p)
                         ++ (if id then d_name e ++ [NL] else [])
                         ++ (if og then m else [])) true)
               (Kurv.stderr p
                ++ Spec.read_diagnostics kurv_candidate
                     (Spec.before kurv_hit dir)))
        | None =>
            (Kurv.Exits 1,
             Kurv.mkproc (Kurv.stdout p)
               (Kurv.stderr p ++ Spec.read_diagnostics kurv_candidate dir
                ++ [txt "cannot find a signer."]))
        end).
Proof.
  cbv zeta.
  split; [apply KeyringFacts.is_candidate_suffix|].
  split.
  - intros name. rewrite negb_true_iff.
    apply KeyringFacts.not_candidate_suffix.
  - split.
    + intros Hn Hok. now apply KeyringFacts.ichi_scan_find.
    + intros Hn Hok Hco. now apply KeyringFacts.kurv_scan_find.
Qed.

Lemma keyring_first_match_witness :
  Ichi.keyring_scan Sample.keyring_ctx (txt "/keys") Sample.message 5
    Sample.good_sig Sample.ichi_keyring (fresh 44) []
  = (0, mkOFILE (txt "hello") true,
     [txt "good signature by '/keys/alice.sign.pub'"])
  /\ Kurv.keyring_scan Sample.keys_world (txt "/keys/") Sample.message 5
       Sample.good_sig true true Sample.kurv_keyring Sample.proc0
     = (Kurv.Exits 0,
        Kurv.mkproc (mkOFILE (txt "alice.pub" ++ [NL] ++ txt "hello") true)
          [txt "kurv: fread"]).
Proof.
  assert (Hn : 0 <= 5 <= len Sample.message) by (vm_compute; split; discriminate).
  assert (Hco : forall e, In e Sample.kurv_keyring ->
                  fopen_r Sample.keys_world (txt "/keys/" ++ d_name e)
                  = d_contents e).
  { intros e [<-|[<-|[<-|[<-|[<-|[<-|[]]]]]]]; reflexivity. }
  destruct (keyring_first_match Sample.keys_world Sample.keyring_ctx
              (txt "/keys") (txt "/keys/") Sample.message Sample.good_sig
              (fresh 44) 5 Sample.kurv_keyring [] true true Sample.proc0)
    as (_ & _ & _ & K).
  destruct (keyring_first_match Sample.keys_world Sample.keyring_ctx
              (txt "/keys") (txt "/keys/") Sample.message Sample.good_sig
              (fresh 44) 5 Sample.ichi_keyring [] true true Sample.proc0)
    as (_ & _ & I & _).
  split; [exact (I Hn eq_refl) | exact (K Hn eq_refl Hco)].
Defined.

(** ** The operations *)

(** C8.  On every input that ends in a well-formed joined envelope whose
    encoded text the codec accepts, Trim ([trim] of ichi-sign, [detach] of
    kurv) succeeds and writes exactly the message with the envelope removed.
    No cryptographic check takes part: when the embedded signature is not a
    valid signature of the message under a key, Verify on the same input
    with that key ([verify] of ichi-sign, [check] of kurv) fails with "invalid
    signature", and Trim succeeds all the same.  The output stream is assumed
    to accept data. *)
Theorem trim_checks_nothing {B64 : Base64} {MC : Monocypher}
    (m h1 h2 pk_fn : bytes) (w : world) (output : OFILE) (err : log)
    (id og : bool) (p : Kurv.proc) :
  len h1 = 44 -> len h2 = 44 -> b64_bad (h1 ++ h2) 64 = false ->
  o_ok output = true -> o_ok (Kurv.stdout p) = true ->
  let ichi_signed :=
    m ++ Ichi.SIG_ARMOR_TOP ++ h1 ++ [NL] ++ h2 ++ Ichi.SIG_ARMOR_END in
  let kurv_signed := m ++ Kurv.SIG_START ++ (h1 ++ h2) ++ Kurv.SIG_END in
  let sig := b64_decode (h1 ++ h2) in
  Ichi.trim (fopen_on ichi_signed) output err
  = Ret (0, mkOFILE (o_data output ++ m) true, err)
  /\ Kurv.detach (fopen_on kurv_signed) p
     = Ret (Kurv.Returns 0,
            Kurv.mkproc (mkOFILE (o_data (Kurv.stdout p) ++ m) true)
              (Kurv.stderr p))
  /\ (forall pk,
        crypto_check sig pk m <> 0 ->
        Ichi.verify w
          (Ichi.mk_verify_ctx (fopen_on ichi_signed) output None pk_fn pk
             false false true) err
        = Ret (1, output, Ichi.ERR err (txt "invalid signature")))
  /\ (forall kf pk,
        Spec.load_public_key (Some kf) = Some pk ->
        crypto_check sig pk m <> 0 ->
        Kurv.check (fopen_on kurv_signed) (fopen_on kf) pk_fn id og p
        = Ret (Kurv.die p (txt "invalid signature."))).
Proof.
  intros L1 L2 Hv Hok Hok'. cbv zeta.
  assert (L : len (h1 ++ h2) = 88) by (rewrite len_app; lia).
  split; [now apply OperationFacts.trim_layout|].
  split; [now apply OperationFacts.detach_layout|].
  split.
  - intros pk Hc.
    exact (OperationFacts.verify_invalid w
             (Ichi.mk_verify_ctx _ output None pk_fn pk false false true)
             m h1 h2 err eq_refl eq_refl eq_refl L1 L2 Hv Hc).
  - intros kf pk Hload Hc.
    rewrite (OperationFacts.check_layout m (h1 ++ h2) kf pk) by assumption.
    destruct (Z.eqb_spec (crypto_check (b64_decode (h1 ++ h2)) pk m) 0);
      [contradiction | reflexivity].
Qed.

Lemma trim_checks_nothing_witness :
  Ichi.trim (fopen_on Sample.ichi_signed) Sample.out0 []
  = Ret (0, mkOFILE (txt "hello") true, [])
  /\ Kurv.detach (fopen_on Sample.kurv_signed) Sample.proc0
     = Ret (Kurv.Returns 0, Kurv.mkproc (mkOFILE (txt "hello") true) [])
  /\ Ichi.verify Sample.keys_world
       (Ichi.mk_verify_ctx (fopen_on Sample.ichi_signed) Sample.out0 None
          (txt "alice.pub") Sample.public_key false false true) []
     = Ret (1, Sample.out0, [txt "invalid signature"]).
Proof.
  assert (L1 : len (take 44 (b64_encode Sample.raw_sig)) = 44)
    by reflexivity.
  assert (L2 : len (drop 44 (b64_encode Sample.raw_sig)) = 44)
    by reflexivity.
  assert (Hv : b64_bad (take 44 (b64_encode Sample.raw_sig)
                        ++ drop 44 (b64_encode Sample.raw_sig)) 64 = false)
    by reflexivity.
  assert (Hc : crypto_check
                 (b64_decode (take 44 (b64_encode Sample.raw_sig)
                              ++ drop 44 (b64_encode Sample.raw_sig)))
                 Sample.public_key Sample.message <> 0)
    by (vm_compute; discriminate).
  destruct (trim_checks_nothing Sample.message
              (take 44 (b64_encode Sample.raw_sig))
              (drop 44 (b64_encode Sample.raw_sig))
              (txt "alice.pub")
              Sample.keys_world Sample.out0 [] true true Sample.proc0
              L1 L2 Hv eq_refl eq_refl) as (T & D & V & _).
  split; [exact T | split; [exact D | exact (V Sample.public_key Hc)]].
Defined.

(** C10.  Verify writes nothing on the output stream before verification
    has succeeded.  For ichi-sign's [verify], whatever the surroundings and
    the streams: the output stream is left as it was unless the status is 0
    and the bytes appended are a message that [crypto_check] accepted (under
    the explicit key when one was given); and the status is 1 with the output
    stream untouched when the envelope is malformed, when the signature is
    invalid under the explicit key, and when the keyring scan finds no
    matching candidate.  The same holds for kurv's [check] and
    [check_keyring] and its standard output. *)
Theorem no_output_before_verification {B64 : Base64} {MC : Monocypher}
    (w : world) (ctx : Ichi.verify_ctx) (err : log) (fp pk_fp : FILE)
    (pk_fn buf m h1 h2 kd kf pk : bytes) (dir : DIR) (id og : bool)
    (p : Kurv.proc) :
  let ichi_signed :=
    m ++ Ichi.SIG_ARMOR_TOP ++ h1 ++ [NL] ++ h2 ++ Ichi.SIG_ARMOR_END in
  let kurv_signed := m ++ Kurv.SIG_START ++ (h1 ++ h2) ++ Kurv.SIG_END in
  let sig := b64_decode (h1 ++ h2) in
  let well_formed :=
    len h1 = 44 /\ len h2 = 44 /\ b64_bad (h1 ++ h2) 64 = false in
  (* ichi-sign: nothing is written unless verification succeeded *)
  match Ichi.verify w ctx err with
  | Undef _ => True
  | Ret (rv, out', _) =>
      out' = Ichi.v_output ctx
      \/ (rv = 0
          /\ exists msg sig pk,
               crypto_check sig pk msg = 0
               /\ (Ichi.v_keyring ctx = false -> pk = Ichi.v_pk ctx)
               /\ o_data out' = o_data (Ichi.v_output ctx) ++ msg)
  end
  (* ichi-sign: malformed envelope *)
  /\ (Ichi.v_input ctx = fopen_on buf -> Ichi.v_detached ctx = false ->
      Ichi.sig_from_buf (fresh 64) (len buf) buf (len buf)
      = Ret (-1, fresh 64, len buf) ->
      Ichi.verify w ctx err
      = Ret (1, Ichi.v_output ctx, Ichi.ERR err (txt "malformed signature")))
  (* ichi-sign: invalid signature *)
  /\ (Ichi.v_input ctx = fopen_on ichi_signed ->
      Ichi.v_detached ctx = false -> Ichi.v_keyring ctx = false ->
      well_formed -> crypto_check sig (Ichi.v_pk ctx) m <> 0 ->
      Ichi.verify w ctx err
      = Ret (1, Ichi.v_output ctx, Ichi.ERR err (txt "invalid signature")))
  (* ichi-sign: keyring exhausted *)
  /\ (Ichi.v_input ctx = fopen_on ichi_signed ->
      Ichi.v_detached ctx = false -> Ichi.v_keyring ctx = true ->
      well_formed ->
      getenv w (txt "ICHI_SIGN_KEYRING") = Some kd ->
      opendir w kd = Some dir ->
      find (fun e => Ichi.is_candidate (d_name e) && Spec.verifies sig m e)
        dir = None ->
      Ichi.verify w ctx err = Ret (1, Ichi.v_output ctx, err))
  (* kurv: nothing is written unless verification succeeded *)
  /\ match Kurv.check fp pk_fp pk_fn id og p with
     | Undef _ => True
     | Ret (outcome, p') =>
         Kurv.stdout p' = Kurv.stdout p
         \/ (outcome = Kurv.Returns 0
             /\ exists msg sig pk name,
                  crypto_check sig pk msg = 0
                  /\ o_data (Kurv.stdout p')
                     = o_data (Kurv.stdout p)
                       ++ (if id then name ++ [NL] else [])
                       ++ (if og then msg else []))
     end
  /\ match Kurv.check_keyring w fp id og p with
     | Undef _ => True
     | Ret (outcome, p') =>
         Kurv.stdout p' = Kurv.stdout p
         \/ (outcome = Kurv.Exits 0
             /\ exists msg sig pk name,
                  crypto_check sig pk msg = 0
                  /\ o_data (Kurv.stdout p')
                     = o_data (Kurv.stdout p)
                       ++ (if id then name ++ [NL] else [])
                       ++ (if og then msg else []))
     end
  (* kurv: malformed envelope *)
  /\ (Kurv.find_signature (fresh 64) buf (len buf)
      = Ret (-1, fresh 64, len buf) ->
      (exists p',
         Kurv.check (fopen_on buf) pk_fp pk_fn id og p
         = Ret (Kurv.Exits 1, p')
         /\ Kurv.stdout p' = Kurv.stdout p)
      /\ (exists p',
            Kurv.check_keyring w (fopen_on buf) id og p
            = Ret (Kurv.Exits 1, p')
            /\ Kurv.stdout p' = Kurv.stdout p))
  (* kurv: invalid signature *)
  /\ (well_formed -> Spec.load_public_key (Some kf) = Some pk ->
      crypto_check sig pk m <> 0 ->
      Kurv.check (fopen_on kurv_signed) (fopen_on kf) pk_fn id og p
      = Ret (Kurv.Exits 1,
             Kurv.mkproc (Kurv.stdout p)
               (Kurv.stderr p ++ [txt "invalid signature."])))
  (* kurv: keyring exhausted *)
  /\ (well_formed ->
      getenv w (txt "KURV_KEYRING") = Some kd -> len kd <> 0 ->
      opendir w kd = Some dir ->
      let path := if negb (Byte.eqb (char_at kd (len kd - 1)) x2f)
                  then kd ++ txt "/" else kd in
      (forall e, In e dir -> fopen_r w (path ++ d_name e) = d_contents e) ->
      find (fun e => negb (Kurv.not_candidate (d_name e))
                     && Spec.verifies sig m e) dir = None ->
      exists p',
        Kurv.check_keyring w (fopen_on kurv_signed) id og p
        = Ret (Kurv.Exits 1, p')
        /\ Kurv.stdout p' = Kurv.stdout p).
Proof.
  cbv zeta.
  split; [apply OperationFacts.verify_guarded|].
  split; [apply OperationFacts.verify_malformed|].
  split.
  { intros Hin Hd Hk (L1 & L2 & Hv) Hc.
    now apply (OperationFacts.verify_invalid w ctx m h1 h2). }
  split.
  { intros Hin Hd Hk (L1 & L2 & Hv) Hg Ho Hf.
    now apply (OperationFacts.verify_exhausted w ctx m h1 h2 kd dir). }
  split; [apply OperationFacts.check_guarded|].
  split; [apply OperationFacts.check_keyring_guarded|].
  split.
  { intros Hr. split;
      [now apply OperationFacts.check_malformed
      | now apply OperationFacts.check_keyring_malformed]. }
  split.
  { intros (L1 & L2 & Hv) Hload Hc.
    assert (L : len (h1 ++ h2) = 88) by (rewrite len_app; lia).
    rewrite (OperationFacts.check_layout m (h1 ++ h2) kf pk) by assumption.
    destruct (Z.eqb_spec (crypto_check (b64_decode (h1 ++ h2)) pk m) 0);
      [contradiction | reflexivity]. }
  intros (L1 & L2 & Hv) Hg Hl Ho Hco Hf.
  assert (L : len (h1 ++ h2) = 88) by (rewrite len_app; lia).
  rewrite (OperationFacts.check_keyring_layout w m (h1 ++ h2) kd dir)
    by assumption.
  rewrite (KeyringFacts.kurv_scan_search w _ _ _ _ id og dir p Hco).
  cbv zeta. rewrite take_app by reflexivity. rewrite Hf.
  eexists. split; reflexivity.
Qed.

Lemma no_output_before_verification_witness :
  Ichi.verify Sample.keys_world
    (Ichi.mk_verify_ctx (fopen_on Sample.ichi_signed) Sample.out0 None
       (txt "alice.sign.pub") Sample.public_key false false true) []
  = Ret (1, Sample.out0, [txt "invalid signature"])
  /\ Kurv.check (fopen_on Sample.kurv_signed) (fopen_on Sample.pub_file)
       (txt "alice.pub") true true Sample.proc0
     = Ret (Kurv.Exits 1,
            Kurv.mkproc Sample.out0 [txt "invalid signature."]).
Proof.
  assert (W : len (take 44 (b64_encode Sample.raw_sig)) = 44
              /\ len (drop 44 (b64_encode Sample.raw_sig)) = 44
              /\ b64_bad (take 44 (b64_encode Sample.raw_sig)
                          ++ drop 44 (b64_encode Sample.raw_sig)) 64 = false)
    by (repeat split; reflexivity).
  assert (Hload : Spec.load_public_key (Some Sample.pub_file)
                  = Some Sample.public_key) by reflexivity.
  assert (Hc : crypto_check
                 (b64_decode (take 44 (b64_encode Sample.raw_sig)
                              ++ drop 44 (b64_encode Sample.raw_sig)))
                 Sample.public_key Sample.message <> 0)
    by (vm_compute; discriminate).
  destruct (no_output_before_verification Sample.keys_world
              (Ichi.mk_verify_ctx (fopen_on Sample.ichi_signed) Sample.out0
                 None (txt "alice.sign.pub") Sample.public_key false false
                 true)
              [] (fopen_on Sample.kurv_signed) (fopen_on Sample.pub_file)
              (txt "alice.pub") Sample.message Sample.message
              (take 44 (b64_encode Sample.raw_sig))
              (drop 44 (b64_encode Sample.raw_sig))
              (txt "/keys") Sample.pub_file Sample.public_key
              Sample.kurv_keyring true true Sample.proc0)
    as (_ & _ & I & _ & _ & _ & _ & K & _).
  split; [exact (I eq_refl eq_refl eq_refl W Hc) | exact (K W Hload Hc)].
Defined.

(** ** Reading a stream to its end *)

(** X1.  [fp_to_buf] of ichi-sign returns the whole contents of a stream
    that reaches its end, whatever their size, together with their exact
    length and without a diagnostic.  When the device fails, or the error
    indicator of the stream was already set, it returns NULL and reports
    [fread()]. *)
Theorem fp_to_buf_whole_stream (data : bytes) (broken error : bool)
    (err : log) :
  Ichi.fp_to_buf (mkFILE data broken false error) err
  = if broken || error then (None, Ichi.ERR err (txt "fread()"))
    else (Some (data, len data), err).
Proof.
  unfold Ichi.fp_to_buf. cbn [f_pending].
  rewrite ReaderFacts.fp_to_buf_loop_stream by lia.
  destruct (broken || error); [reflexivity|].
  now rewrite app_nil_l, Z.add_0_l.
Qed.

(** X2.  [fp_to_buf] never hands [fread] a region outside its buffer: with
    every [fread] checked against the capacity that [malloc] and [realloc]
    have granted so far, the function is defined on every stream, and it
    returns what [fp_to_buf] returns. *)
Theorem fp_to_buf_stays_in_allocation (fp : FILE) (err : log) :
  Ichi.fp_to_buf_alloc fp err = Ret (Ichi.fp_to_buf fp err).
Proof.
  unfold Ichi.fp_to_buf_alloc, Ichi.fp_to_buf.
  rewrite ReaderFacts.fp_to_buf_loop_alloc_fits
    by (unfold Ichi.BUF_SIZE; lia).
  now destruct (Ichi.fp_to_buf_loop _ fp [] 0 Ichi.BUF_SIZE err).
Qed.

(** X3.  [read_file] of kurv, on a stream whose device does not fail,
    returns the whole contents of the stream, whatever their size, together
    with their exact length and without a diagnostic, every [fread] having
    stayed inside the buffer.  When the error indicator of the stream was
    already set, it returns NULL and reports [kurv: fread]. *)
Theorem read_file_whole_stream (data : bytes) (error : bool)
    (p : Kurv.proc) :
  Kurv.read_file (mkFILE data false false error) p
  = Ret (if error then (None, Kurv.err p (txt "kurv: fread"))
         else (Some (data, len data), p)).
Proof.
  rewrite KurvFacts.read_file_fits by reflexivity.
  now rewrite ReaderFacts.read_file_unchecked_stream.
Qed.

(** X4.  On a stream whose device does not fail, [read_file] never hands
    [fread] a region outside its buffer: with every [fread] checked against
    the capacity that [malloc] and [reallocarray] have granted so far, the
    function is defined and returns what its loop computes when the test on
    the allocation is left out. *)
Theorem read_file_stays_in_allocation (fp : FILE) (p : Kurv.proc) :
  f_broken fp = false ->
  Kurv.read_file fp p = Ret (Kurv.read_file_unchecked fp p).
Proof.
  intros Hb. unfold Kurv.read_file, Kurv.read_file_unchecked.
  rewrite KurvFacts.read_file_loop_fits.
  - destruct (Kurv.read_file_loop_unchecked _ fp [] 0 Kurv.READ_SIZE 0)
      as [[[buf total] fp']|]; [|reflexivity].
    cbn [option_map]. now destruct (ferror fp').
  - assumption.
  - right. exists 0, 1. unfold Kurv.READ_SIZE. lia.
Qed.

Lemma read_file_stays_in_allocation_witness :
  f_broken (fopen_on Sample.kurv_signed) = false
  /\ Kurv.read_file (fopen_on Sample.kurv_signed) Sample.proc0
     = Ret (Kurv.read_file_unchecked (fopen_on Sample.kurv_signed)
              Sample.proc0).
Proof.
  split; [reflexivity|].
  apply (read_file_stays_in_allocation (fopen_on Sample.kurv_signed)
           Sample.proc0).
  reflexivity.
Defined.

(** X5.  When the device fails after a first read that came back short
    (at least one byte, fewer than [READ_SIZE]), [read_file] calls [fread]
    once more, the loop testing [feof] only, and asks for [READ_SIZE] bytes
    at [buf + total]: that region ends past the [READ_SIZE] bytes
    allocated. *)
Theorem read_file_overruns_after_error (data : bytes) (error : bool)
    (p : Kurv.proc) :
  0 < len data < Kurv.READ_SIZE ->
  Kurv.read_file (mkFILE data true false error) p = Undef OutOfBounds.
Proof.
  intros [Hpos Hlt]. unfold Kurv.read_file. cbn [f_pending].
  destruct data as [|x t]; [rewrite (@len_nil byte) in Hpos; lia|].
  cbn [length Kurv.read_file_loop feof f_eof].
  unfold fread_into at 1.
  replace ((0 <=? 0) && (0 + Kurv.READ_SIZE <=? Kurv.READ_SIZE)) with true
    by (rewrite Z.add_0_l, Z.leb_refl; reflexivity).
  destruct (FreadFacts.fread_cases Kurv.READ_SIZE (x :: t) true error)
    as [(_ & R)|(Hge & _)]; [lia| |lia].
  rewrite R.
  replace (len (x :: t) >? 0) with true by (symmetry; apply Z.gtb_lt; lia).
  rewrite Z.add_0_l.
  destruct (Z.leb_spec Kurv.READ_SIZE (len (x :: t))); [lia|].
  cbn [Kurv.read_file_loop feof f_eof negb]. unfold fread_into.
  pose proof (len_nonneg (x :: t)).
  destruct (Z.leb_spec 0 (len (x :: t))); [|lia].
  destruct (Z.leb_spec (len (x :: t) + Kurv.READ_SIZE) Kurv.READ_SIZE); [lia|].
  reflexivity.
Qed.

Lemma read_file_overruns_after_error_witness :
  0 < len Sample.message < Kurv.READ_SIZE
  /\ Kurv.read_file (mkFILE Sample.message true false false) Sample.proc0
     = Undef OutOfBounds.
Proof.
  assert (H : 0 < len Sample.message < Kurv.READ_SIZE)
    by (split; reflexivity).
  split; [exact H|].
  exact (read_file_overruns_after_error Sample.message false Sample.proc0 H).
Defined.

(** ** What is accepted *)

(** X6.  [check] of kurv returns 0 exactly when the signed file is a message
    followed by the start marker, 88 characters that the codec accepts as 64
    bytes and the end marker, the key file loads as a public key, and
    [crypto_check] accepts the decoded signature for that message under that
    key. *)
Theorem check_accepts_iff {B64 : Base64} {MC : Monocypher}
    (data kf pk_fn : bytes) (id og : bool) (p : Kurv.proc) :
  (exists p',
     Kurv.check (fopen_on data) (fopen_on kf) pk_fn id og p
     = Ret (Kurv.Returns 0, p'))
  <-> (exists m b64 pk,
         data = m ++ Kurv.SIG_START ++ b64 ++ Kurv.SIG_END
         /\ len b64 = 88 /\ b64_bad b64 64 = false
         /\ Spec.load_public_key (Some kf) = Some pk
         /\ crypto_check (b64_decode b64) pk m = 0).
Proof.
  split.
  - intros (p' & H). unfold Kurv.check in H.
    rewrite KurvFacts.find_key_in_file_load in H by (now rewrite len_fresh).
    cbv zeta in H.
    destruct (len kf <? 44) eqn:Hl; [discriminate H|].
    destruct (Spec.load_public_key (Some kf)) as [pk|] eqn:Hload;
      [|discriminate H].
    cbn [Z.eqb] in H. rewrite KurvFacts.read_file_sound in H.
    cbn [bind] in H.
    destruct (KurvFacts.find_signature_cases (fresh 64) data)
      as [R|(m & b64 & Lb & Hb & Hv & R)]; rewrite R in H;
      cbn [bind Z.ltb Z.compare] in H; [discriminate H|].
    exists m, b64, pk. repeat split; try assumption.
    rewrite Hb in H. rewrite take_app in H by reflexivity.
    destruct (Z.eqb_spec (crypto_check (b64_decode b64) pk m) 0) as [E|E];
      [exact E | discriminate H].
  - intros (m & b64 & pk & -> & Lb & Hv & Hload & Hc).
    rewrite (OperationFacts.check_layout m b64 kf pk) by assumption.
    rewrite Hc. cbn [Z.eqb]. eexists. reflexivity.
Qed.

(** X7.  With an explicit public key and an output that accepts data,
    [verify] of ichi-sign returns 0 on a joined input exactly when the input
    is a message followed by the start marker, 44 characters, a newline, 44
    characters and the end marker, the codec accepts the 88 characters as 64
    bytes, and [crypto_check] accepts the decoded signature for that message
    under the key. *)
Theorem verify_accepts_iff {B64 : Base64} {MC : Monocypher} (w : world)
    (data pk_fn pk : bytes) (output : OFILE) (x : bool) (err : log) :
  o_ok output = true ->
  (exists out' err',
     Ichi.verify w
       (Ichi.mk_verify_ctx (fopen_on data) output None pk_fn pk false false x)
       err
     = Ret (0, out', err'))
  <-> (exists m h1 h2,
         data = m ++ Ichi.SIG_ARMOR_TOP ++ h1 ++ [NL] ++ h2
                ++ Ichi.SIG_ARMOR_END
         /\ len h1 = 44 /\ len h2 = 44 /\ b64_bad (h1 ++ h2) 64 = false
         /\ crypto_check (b64_decode (h1 ++ h2)) pk m = 0).
Proof.
  intros Hok. split.
  - intros (out' & err' & H).
    destruct (IchiFacts.sig_from_buf_cases (fresh 64) (len data) data)
      as [R|(m & h1 & h2 & L1 & L2 & Hb & Hv & _)].
    + rewrite (OperationFacts.verify_malformed w
                 (Ichi.mk_verify_ctx (fopen_on data) output None pk_fn pk
                    false false x) data err eq_refl eq_refl R) in H.
      discriminate H.
    + subst data. exists m, h1, h2. repeat split; try assumption.
      rewrite AcceptFacts.verify_joined_cases in H by assumption.
      destruct (Z.eqb_spec (crypto_check (b64_decode (h1 ++ h2)) pk m) 0)
        as [E|E]; [exact E | discriminate H].
  - intros (m & h1 & h2 & -> & L1 & L2 & Hv & Hc).
    rewrite AcceptFacts.verify_joined_cases by assumption.
    rewrite Hc. cbn [Z.eqb]. eexists. eexists. reflexivity.
Qed.

Lemma verify_accepts_iff_witness :
  exists out' err',
    Ichi.verify Sample.keys_world
      (Ichi.mk_verify_ctx (fopen_on Sample.ichi_good) Sample.out0 None
         (txt "alice.pub") Sample.public_key false false true) []
    = Ret (0, out', err').
Proof.
  assert (Hok : o_ok Sample.out0 = true) by reflexivity.
  apply (proj2 (verify_accepts_iff Sample.keys_world Sample.ichi_good
                  (txt "alice.pub") Sample.public_key Sample.out0 true []
                  Hok)).
  exists Sample.message, (take 44 Sample.good_text),
    (drop 44 Sample.good_text).
  repeat split; reflexivity.
Defined.

(** X8.  With an explicit public key, a detached signature file and an
    output that accepts data, [verify] of ichi-sign returns 0 exactly when
    the signature file starts with 88 characters that the codec accepts as
    64 bytes and [crypto_check] accepts the decoded signature for the whole
    input under the key: in this mode nothing is stripped from the input. *)
Theorem verify_detached_accepts_iff {B64 : Base64} {MC : Monocypher}
    (w : world) (data sigdata pk_fn pk : bytes) (output : OFILE) (x : bool)
    (err : log) :
  o_ok output = true ->
  (exists out' err',
     Ichi.verify w
       (Ichi.mk_verify_ctx (fopen_on data) output (Some (fopen_on sigdata))
          pk_fn pk true false x) err
     = Ret (0, out', err'))
  <-> (exists head rest,
         sigdata = head ++ rest /\ len head = 88
         /\ b64_bad head 64 = false
         /\ crypto_check (b64_decode head) pk data = 0).
Proof.
  intros Hok. rewrite AcceptFacts.verify_detached_cases by exact Hok. split.
  - intros (out' & err' & H).
    destruct (Z.ltb_spec (len sigdata) 88) as [|Hl]; [discriminate H|].
    destruct (b64_bad (take 88 sigdata) 64) eqn:Hv; [discriminate H|].
    destruct (Z.eqb_spec (crypto_check (b64_decode (take 88 sigdata)) pk data)
                0) as [E|E]; [|discriminate H].
    exists (take 88 sigdata), (drop 88 sigdata).
    repeat split; try assumption.
    + symmetry. apply take_drop.
    + apply len_take. lia.
  - intros (head & rest & -> & Lh & Hv & Hc).
    pose proof (len_nonneg rest).
    destruct (Z.ltb_spec (len (head ++ rest)) 88) as [Hl|_];
      [rewrite len_app in Hl; lia|].
    rewrite take_app by (symmetry; exact Lh).
    rewrite Hv, Hc. cbn [Z.eqb]. eexists. eexists. reflexivity.
Qed.

Lemma verify_detached_accepts_iff_witness :
  exists out' err',
    Ichi.verify Sample.keys_world
      (Ichi.mk_verify_ctx (fopen_on Sample.message) Sample.out0
         (Some (fopen_on (Sample.good_text ++ [NL])))
         (txt "alice.pub") Sample.public_key true false true) []
    = Ret (0, out', err').
Proof.
  assert (Hok : o_ok Sample.out0 = true) by reflexivity.
  apply (proj2 (verify_detached_accepts_iff Sample.keys_world Sample.message
                  (Sample.good_text ++ [NL]) (txt "alice.pub")
                  Sample.public_key Sample.out0 true [] Hok)).
  exists Sample.good_text, [NL]. repeat split; reflexivity.
Defined.

(** ** Signing, then reading back *)

(** X9.  What kurv signs, kurv accepts.  When the private key file loads as
    [sk], the public key file loads as the public key of [sk], the codec
    encodes the signature of the message in 88 characters that it accepts
    and decodes back, and [crypto_check] accepts that signature, [sign]
    returns 0 and [check], run on what [sign] wrote, returns 0, having
    printed the name of the key file and the original message where they
    were asked for. *)
Theorem kurv_sign_then_check {B64 : Base64} {MC : Monocypher}
    (m kf pf sk sk0 pk_fn : bytes) (id og : bool) (p : Kurv.proc) :
  let pk := crypto_sign_public_key sk in
  let s := crypto_sign sk pk m in
  Spec.load_public_key (Some kf) = Some sk ->
  Spec.load_public_key (Some pf) = Some pk ->
  len s = 64 -> len (b64_encode s) = 88 ->
  b64_bad (b64_encode s) 64 = false -> b64_decode (b64_encode s) = s ->
  crypto_check s pk m = 0 ->
  o_ok (Kurv.stdout p) = true ->
  exists p1 left,
    Kurv.sign (fopen_on m) (fopen_on kf) sk0
      (Kurv.mkproc (mkOFILE [] true) [])
    = Ret (Kurv.Returns 0, p1, left)
    /\ Kurv.check (fopen_on (o_data (Kurv.stdout p1))) (fopen_on pf) pk_fn id
         og p
       = Ret (Kurv.Returns 0,
              Kurv.mkproc
                (mkOFILE (o_data (Kurv.stdout p)
                          ++ (if id then pk_fn ++ [NL] else [])
                          ++ (if og then m else [])) true)
                (Kurv.stderr p)).
Proof.
  intros pk s Hk Hp Ls Le Hv Hd Hc Hok.
  rewrite (OperationFacts.kurv_sign_reaches_output m kf sk) by assumption.
  fold pk. fold s. eexists. eexists. split; [reflexivity|].
  rewrite KurvFacts.sign_output_eq by (try assumption; reflexivity).
  cbn [Kurv.stdout o_data]. rewrite app_nil_l.
  rewrite (OperationFacts.check_layout m (b64_encode s) pf pk)
    by assumption.
  rewrite Hd, Hc. cbn [Z.eqb].
  pose proof (len_nonneg m).
  pose proof (len_nonneg (Kurv.SIG_START ++ b64_encode s ++ Kurv.SIG_END)).
  pose proof (KeyringFacts.kurv_report p pk_fn
                (m ++ Kurv.SIG_START ++ b64_encode s ++ Kurv.SIG_END) (len m)
                id og Hok) as Rp.
  cbv zeta in Rp. rewrite Rp by (rewrite len_app; lia).
  now rewrite take_app.
Qed.

Lemma kurv_sign_then_check_witness :
  exists p1 left,
    Kurv.sign (fopen_on Sample.message) (fopen_on Sample.key_file)
      (fresh 32) (Kurv.mkproc (mkOFILE [] true) [])
    = Ret (Kurv.Returns 0, p1, left)
    /\ Kurv.check (fopen_on (o_data (Kurv.stdout p1)))
         (fopen_on Sample.pub_file) (txt "alice.pub") true true Sample.proc0
       = Ret (Kurv.Returns 0,
              Kurv.mkproc
                (mkOFILE ([] ++ (txt "alice.pub" ++ [NL]) ++ Sample.message)
                   true) []).
Proof.
  assert (Hk : Spec.load_public_key (Some Sample.key_file)
               = Some Sample.secret_key) by reflexivity.
  assert (Hp : Spec.load_public_key (Some Sample.pub_file)
               = Some (crypto_sign_public_key Sample.secret_key))
    by reflexivity.
  assert (Ls : len Sample.good_sig = 64) by reflexivity.
  assert (Le : len (b64_encode Sample.good_sig) = 88) by reflexivity.
  assert (Hv : b64_bad (b64_encode Sample.good_sig) 64 = false)
    by reflexivity.
  assert (Hd : b64_decode (b64_encode Sample.good_sig) = Sample.good_sig)
    by reflexivity.
  assert (Hc : crypto_check Sample.good_sig
                 (crypto_sign_public_key Sample.secret_key) Sample.message
               = 0) by reflexivity.
  exact (kurv_sign_then_check Sample.message Sample.key_file Sample.pub_file
           Sample.secret_key (fresh 32) (txt "alice.pub") true true
           Sample.proc0 Hk Hp Ls Le Hv Hd Hc eq_refl).
Defined.

(** X10.  What kurv signs, kurv detaches back to the message.  When the
    private key file loads as [sk] and the codec encodes the signature of the
    message in 88 characters that it accepts, [detach], run on what [sign]
    wrote, writes exactly the original message, whatever the message
    holds. *)
Theorem kurv_sign_then_detach {B64 : Base64} {MC : Monocypher}
    (m kf sk sk0 : bytes) (p : Kurv.proc) :
  let s := crypto_sign sk (crypto_sign_public_key sk) m in
  Spec.load_public_key (Some kf) = Some sk ->
  len s = 64 -> len (b64_encode s) = 88 ->
  b64_bad (b64_encode s) 64 = false ->
  o_ok (Kurv.stdout p) = true ->
  exists p1 left,
    Kurv.sign (fopen_on m) (fopen_on kf) sk0
      (Kurv.mkproc (mkOFILE [] true) [])
    = Ret (Kurv.Returns 0, p1, left)
    /\ Kurv.detach (fopen_on (o_data (Kurv.stdout p1))) p
       = Ret (Kurv.Returns 0,
              Kurv.mkproc (mkOFILE (o_data (Kurv.stdout p) ++ m) true)
                (Kurv.stderr p)).
Proof.
  intros s Hk Ls Le Hv Hok.
  rewrite (OperationFacts.kurv_sign_reaches_output m kf sk) by assumption.
  fold s. eexists. eexists. split; [reflexivity|].
  rewrite KurvFacts.sign_output_eq by (try assumption; reflexivity).
  cbn [Kurv.stdout o_data]. rewrite app_nil_l.
  now apply OperationFacts.detach_layout.
Qed.

Lemma kurv_sign_then_detach_witness :
  exists p1 left,
    Kurv.sign (fopen_on Sample.message) (fopen_on Sample.key_file)
      (fresh 32) (Kurv.mkproc (mkOFILE [] true) [])
    = Ret (Kurv.Returns 0, p1, left)
    /\ Kurv.detach (fopen_on (o_data (Kurv.stdout p1))) Sample.proc0
       = Ret (Kurv.Returns 0,
              Kurv.mkproc (mkOFILE ([] ++ Sample.message) true) []).
Proof.
  assert (Hk : Spec.load_public_key (Some Sample.key_file)
               = Some Sample.secret_key) by reflexivity.
  assert (Ls : len (crypto_sign Sample.secret_key
                      (crypto_sign_public_key Sample.secret_key)
                      Sample.message) = 64) by reflexivity.
  assert (Le : len (b64_encode
                      (crypto_sign Sample.secret_key
                         (crypto_sign_public_key Sample.secret_key)
                         Sample.message)) = 88) by reflexivity.
  assert (Hv : b64_bad (b64_encode
                          (crypto_sign Sample.secret_key
                             (crypto_sign_public_key Sample.secret_key)
                             Sample.message)) 64 = false) by reflexivity.
  exact (kurv_sign_then_detach Sample.message Sample.key_file
           Sample.secret_key (fresh 32) Sample.proc0 Hk Ls Le Hv eq_refl).
Defined.

(** X11.  What ichi-sign signs in joined form, ichi-sign accepts.  When the
    codec encodes the signature of the message in 88 characters that it
    accepts and decodes back, and [crypto_check] accepts that signature
    under the public key of [sk], [sign] returns 0 and [verify] with that
    key, run on what [sign] wrote, returns 0, names the key file in its
    diagnostic, and writes exactly the original message when streaming is
    asked for. *)
Theorem ichi_sign_then_verify {B64 : Base64} {MC : Monocypher} (w : world)
    (m sk pk_fn : bytes) (x : bool) (output : OFILE) (err : log) :
  let pk := crypto_sign_public_key sk in
  let s := crypto_sign sk pk m in
  len s = 64 -> len (b64_encode s) = 88 ->
  b64_bad (b64_encode s) 64 = false -> b64_decode (b64_encode s) = s ->
  crypto_check s pk m = 0 ->
  o_ok output = true ->
  let '(rv, out, _) :=
    Ichi.sign (Ichi.mk_sign_ctx (fopen_on m) (mkOFILE [] true) sk false) [] in
  rv = 0
  /\ Ichi.verify w
       (Ichi.mk_verify_ctx (fopen_on (o_data out)) output None pk_fn pk
          false false x) err
     = Ret (0,
            if x then mkOFILE (o_data output ++ m) true else output,
            Ichi.ERR err (txt "good signature by '" ++ pk_fn ++ txt "'")).
Proof.
  intros pk s Ls Le Hv Hd Hc Hok.
  rewrite (OperationFacts.ichi_sign_reaches_output _ m) by reflexivity.
  cbn [Ichi.s_output Ichi.s_detached Ichi.s_sk]. fold pk. fold s.
  rewrite IchiFacts.sign_output_joined by (try assumption; reflexivity).
  split; [reflexivity|]. cbn [o_data]. rewrite app_nil_l.
  destruct (IchiFacts.halves (b64_encode s) Le) as (L1 & L2 & Hcat).
  rewrite AcceptFacts.verify_joined_cases
    by (try assumption; now rewrite Hcat).
  now rewrite Hcat, Hd, Hc.
Qed.

Lemma ichi_sign_then_verify_witness :
  let '(rv, out, _) :=
    Ichi.sign
      (Ichi.mk_sign_ctx (fopen_on Sample.message) (mkOFILE [] true)
         Sample.secret_key false) [] in
  rv = 0
  /\ Ichi.verify Sample.keys_world
       (Ichi.mk_verify_ctx (fopen_on (o_data out)) Sample.out0 None
          (txt "alice.pub") Sample.public_key false false true) []
     = Ret (0, mkOFILE ([] ++ Sample.message) true,
            [txt "good signature by '" ++ txt "alice.pub" ++ txt "'"]).
Proof.
  assert (Ls : len Sample.good_sig = 64) by reflexivity.
  assert (Le : len (b64_encode Sample.good_sig) = 88) by reflexivity.
  assert (Hv : b64_bad (b64_encode Sample.good_sig) 64 = false)
    by reflexivity.
  assert (Hd : b64_decode (b64_encode Sample.good_sig) = Sample.good_sig)
    by reflexivity.
  assert (Hc : crypto_check Sample.good_sig
                 (crypto_sign_public_key Sample.secret_key) Sample.message
               = 0) by reflexivity.
  exact (ichi_sign_then_verify Sample.keys_world Sample.message
           Sample.secret_key (txt "alice.pub") true Sample.out0 []
           Ls Le Hv Hd Hc eq_refl).
Defined.

(** X12.  What ichi-sign signs in detached form, ichi-sign accepts.  Under
    the same assumptions on the codec and on [crypto_check], [sign] with
    [-d] returns 0 and [verify], given the message as input and what [sign]
    wrote as the signature file, returns 0. *)
Theorem ichi_sign_detached_then_verify {B64 : Base64} {MC : Monocypher}
    (w : world) (m sk pk_fn : bytes) (x : bool) (output : OFILE)
    (err : log) :
  let pk := crypto_sign_public_key sk in
  let s := crypto_sign sk pk m in
  len s = 64 -> len (b64_encode s) = 88 ->
  b64_bad (b64_encode s) 64 = false -> b64_decode (b64_encode s) = s ->
  crypto_check s pk m = 0 ->
  o_ok output = true ->
  let '(rv, out, _) :=
    Ichi.sign (Ichi.mk_sign_ctx (fopen_on m) (mkOFILE [] true) sk true) [] in
  rv = 0
  /\ Ichi.verify w
       (Ichi.mk_verify_ctx (fopen_on m) output (Some (fopen_on (o_data out)))
          pk_fn pk true false x) err
     = Ret (0,
            if x then mkOFILE (o_data output ++ m) true else output,
            Ichi.ERR err (txt "good signature by '" ++ pk_fn ++ txt "'")).
Proof.
  intros pk s Ls Le Hv Hd Hc Hok.
  rewrite (OperationFacts.ichi_sign_reaches_output _ m) by reflexivity.
  cbn [Ichi.s_output Ichi.s_detached Ichi.s_sk]. fold pk. fold s.
  rewrite IchiFacts.sign_output_detached by (try assumption; reflexivity).
  split; [reflexivity|]. cbn [o_data]. rewrite app_nil_l.
  rewrite AcceptFacts.verify_detached_cases by exact Hok.
  destruct (Z.ltb_spec (len (b64_encode s)) 88); [lia|].
  rewrite take_all by lia. now rewrite Hv, Hd, Hc.
Qed.

Lemma ichi_sign_detached_then_verify_witness :
  let '(rv, out, _) :=
    Ichi.sign
      (Ichi.mk_sign_ctx (fopen_on Sample.message) (mkOFILE [] true)
         Sample.secret_key true) [] in
  rv = 0
  /\ Ichi.verify Sample.keys_world
       (Ichi.mk_verify_ctx (fopen_on Sample.message) Sample.out0
          (Some (fopen_on (o_data out))) (txt "alice.pub") Sample.public_key
          true false false) []
     = Ret (0, Sample.out0,
            [txt "good signature by '" ++ txt "alice.pub" ++ txt "'"]).
Proof.
  assert (Ls : len Sample.good_sig = 64) by reflexivity.
  assert (Le : len (b64_encode Sample.good_sig) = 88) by reflexivity.
  assert (Hv : b64_bad (b64_encode Sample.good_sig) 64 = false)
    by reflexivity.
  assert (Hd : b64_decode (b64_encode Sample.good_sig) = Sample.good_sig)
    by reflexivity.
  assert (Hc : crypto_check Sample.good_sig
                 (crypto_sign_public_key Sample.secret_key) Sample.message
               = 0) by reflexivity.
  exact (ichi_sign_detached_then_verify Sample.keys_world Sample.message
           Sample.secret_key (txt "alice.pub") false Sample.out0 []
           Ls Le Hv Hd Hc eq_refl).
Defined.

(** X13.  What ichi-sign signs in joined form, [trim] turns back into the
    message.  When the codec encodes the signature of the message in 88
    characters that it accepts, [trim], run on what [sign] wrote, writes
    exactly the original message, whatever the message holds. *)
Theorem ichi_sign_then_trim {B64 : Base64} {MC : Monocypher}
    (m sk : bytes) (output : OFILE) (err : log) :
  let s := crypto_sign sk (crypto_sign_public_key sk) m in
  len s = 64 -> len (b64_encode s) = 88 ->
  b64_bad (b64_encode s) 64 = false ->
  o_ok output = true ->
  let '(_, out, _) :=
    Ichi.sign (Ichi.mk_sign_ctx (fopen_on m) (mkOFILE [] true) sk false) [] in
  Ichi.trim (fopen_on (o_data out)) output err
  = Ret (0, mkOFILE (o_data output ++ m) true, err).
Proof.
  intros s Ls Le Hv Hok.
  rewrite (OperationFacts.ichi_sign_reaches_output _ m) by reflexivity.
  cbn [Ichi.s_output Ichi.s_detached Ichi.s_sk]. fold s.
  rewrite IchiFacts.sign_output_joined by (try assumption; reflexivity).
  cbn [o_data]. rewrite app_nil_l.
  destruct (IchiFacts.halves (b64_encode s) Le) as (L1 & L2 & Hcat).
  apply OperationFacts.trim_layout; try assumption. now rewrite Hcat.
Qed.

Lemma ichi_sign_then_trim_witness :
  let '(_, out, _) :=
    Ichi.sign
      (Ichi.mk_sign_ctx (fopen_on Sample.message) (mkOFILE [] true)
         Sample.secret_key false) [] in
  Ichi.trim (fopen_on (o_data out)) Sample.out0 []
  = Ret (0, mkOFILE ([] ++ Sample.message) true, []).
Proof.
  assert (Ls : len (crypto_sign Sample.secret_key
                      (crypto_sign_public_key Sample.secret_key)
                      Sample.message) = 64) by reflexivity.
  assert (Le : len (b64_encode
                      (crypto_sign Sample.secret_key
                         (crypto_sign_public_key Sample.secret_key)
                         Sample.message)) = 88) by reflexivity.
  assert (Hv : b64_bad (b64_encode
                          (crypto_sign Sample.secret_key
                             (crypto_sign_public_key Sample.secret_key)
                             Sample.message)) 64 = false) by reflexivity.
  exact (ichi_sign_then_trim Sample.message Sample.secret_key Sample.out0 []
           Ls Le Hv eq_refl).
Defined.

(** ** What is never done *)



(** X15.  [trim] of ichi-sign is defined on every input, and [verify] can
    only be undefined through a NULL stream: a detached verification whose
    signature stream is NULL, or a keyring verification whose directory
    [opendir] failed to open.  No input makes either read outside the buffer
    that [fp_to_buf] returned. *)
Theorem ichi_undefined_only_by_null_stream {B64 : Base64} {MC : Monocypher}
    (w : world) (ctx : Ichi.verify_ctx) (input : FILE) (output : OFILE)
    (err : log) :
  (exists r, Ichi.trim input output err = Ret r)
  /\ (forall f,
        Ichi.verify w ctx err = Undef f ->
        f = NullStream
        /\ ((Ichi.v_detached ctx = true /\ Ichi.v_sig ctx = None)
            \/ (Ichi.v_keyring ctx = true
                /\ exists kd,
                     getenv w (txt "ICHI_SIGN_KEYRING") = Some kd
                     /\ opendir w kd = None))).
Proof.
  split; [apply SafetyFacts.trim_defined|].
  intros f. apply SafetyFacts.verify_undef.
Qed.

(** ** Key generation *)

(** X16.  [concat] stores [a_size] bytes of [a], then [b_size] bytes of [b],
    then a NUL at the start of [dst], and leaves the rest of [dst] as it
    was; it stays inside [dst] exactly when [dst] has the
    [a_size + b_size + 1] bytes that its comment asks for, and writes past
    the end of [dst] otherwise. *)
Theorem concat_needs_room (dst a b : bytes) (a_size b_size : Z) :
  0 <= a_size <= len a -> 0 <= b_size <= len b ->
  Kurv.concat dst a a_size b b_size
  = if a_size + b_size + 1 <=? len dst
    then Ret (take a_size a ++ take b_size b ++ [x00]
              ++ drop (a_size + b_size + 1) dst)
    else Undef OutOfBounds.
Proof.
  intros Ha Hb.
  destruct (Z.leb_spec (a_size + b_size + 1) (len dst)).
  - now apply GenerateFacts.concat_fits.
  - now apply GenerateFacts.concat_outside.
Qed.

Lemma concat_needs_room_witness :
  Kurv.concat (calloc 11) (cstring (txt "alice")) 5 (cstring (txt ".priv")) 5
  = Ret (cstring (txt "alice.priv"))
  /\ Kurv.concat (calloc 10) (cstring (txt "alice")) 5
       (cstring (txt ".priv")) 5
     = Undef OutOfBounds.
Proof.
  assert (Ha : 0 <= 5 <= len (cstring (txt "alice")))
    by (split; discriminate).
  assert (Hb : 0 <= 5 <= len (cstring (txt ".priv")))
    by (split; discriminate).
  split.
  - exact (concat_needs_room (calloc 11) _ _ 5 5 Ha Hb).
  - exact (concat_needs_room (calloc 10) _ _ 5 5 Ha Hb).
Defined.

(** X17.  [generate] on a file system that lets it create and write both
    files: given 32 random bytes as the secret key, a public key of 32 bytes,
    and a codec that encodes 32 bytes in 44 characters, it creates
    [base.priv] with mode 0640 holding the 44 characters of the encoded
    secret key and a newline, then [base.pub] with mode 0644 holding the 44
    characters of the encoded public key and a newline; it returns 0, prints
    nothing, and leaves all four of its key arrays zeroed. *)
Theorem generate_writes_key_pair {B64 : Base64} {MC : Monocypher}
    (random base : bytes) (open_w : bytes -> Z -> option bool)
    (p : Kurv.proc) :
  let pk := crypto_sign_public_key random in
  len random = 32 -> len pk = 32 ->
  len (b64_encode random) = 44 -> len (b64_encode pk) = 44 ->
  ~ In x00 base ->
  open_w (base ++ txt ".priv") 416 = Some true ->
  open_w (base ++ txt ".pub") 420 = Some true ->
  416 = Z.lor (Z.lor S_IWUSR S_IRUSR) S_IRGRP
  /\ 420 = Z.lor (Z.lor (Z.lor S_IWUSR S_IRUSR) S_IRGRP) S_IROTH
  /\ Kurv.generate (Some random) open_w base p
     = Ret (Kurv.Returns 0,
            Kurv.mk_generated p
              [ mkcreated (base ++ txt ".priv") 416
                  (mkOFILE (b64_encode random ++ [NL]) true);
                mkcreated (base ++ txt ".pub") 420
                  (mkOFILE (b64_encode pk ++ [NL]) true) ]
              (Kurv.mk_key_arrays (repeat x00 32) (repeat x00 32)
                 (repeat x00 44) (repeat x00 44))).
Proof.
  intros pk Lr Lk Ls Lp Hn O1 O2.
  split; [reflexivity|]. split; [reflexivity|].
  rewrite (GenerateFacts.generate_run random base open_w p) by assumption.
  cbv zeta. now rewrite O1, O2.
Qed.

Lemma generate_writes_key_pair_witness :
  Kurv.generate (Some Sample.secret_key) Sample.open_any (txt "alice")
    Sample.proc0
  = Ret (Kurv.Returns 0,
         Kurv.mk_generated Sample.proc0
           [ mkcreated (txt "alice.priv") 416 (mkOFILE Sample.key_file true);
             mkcreated (txt "alice.pub") 420 (mkOFILE Sample.pub_file true) ]
           (Kurv.mk_key_arrays (repeat x00 32) (repeat x00 32)
              (repeat x00 44) (repeat x00 44))).
Proof.
  assert (Lr : len Sample.secret_key = 32) by reflexivity.
  assert (Lk : len (crypto_sign_public_key Sample.secret_key) = 32)
    by reflexivity.
  assert (Ls : len (b64_encode Sample.secret_key) = 44) by reflexivity.
  assert (Lp : len (b64_encode (crypto_sign_public_key Sample.secret_key))
               = 44) by reflexivity.
  assert (Hn : ~ In x00 (txt "alice")).
  { cbn. intros H. repeat (destruct H as [H|H]; [discriminate H|]). exact H. }
  exact (proj2 (proj2 (generate_writes_key_pair Sample.secret_key
                         (txt "alice") Sample.open_any Sample.proc0
                         Lr Lk Ls Lp Hn eq_refl eq_refl))).
Defined.

(** X18.  The key files that [generate] writes load back as the keys it
    generated.  When moreover the codec accepts what it encoded and decodes
    it back, [find_key_in_file] on the private key file returns 0 with the
    32 random bytes, and on the public key file returns 0 with their public
    key: the newline that follows the 44 characters is not read. *)
Theorem generated_keys_load {B64 : Base64} {MC : Monocypher}
    (random base : bytes) (open_w : bytes -> Z -> option bool)
    (p q : Kurv.proc) :
  let pk := crypto_sign_public_key random in
  len random = 32 -> len pk = 32 ->
  len (b64_encode random) = 44 -> len (b64_encode pk) = 44 ->
  b64_bad (b64_encode random) 32 = false ->
  b64_decode (b64_encode random) = random ->
  b64_bad (b64_encode pk) 32 = false ->
  b64_decode (b64_encode pk) = pk ->
  ~ In x00 base ->
  open_w (base ++ txt ".priv") 416 = Some true ->
  open_w (base ++ txt ".pub") 420 = Some true ->
  exists g priv pub,
    Kurv.generate (Some random) open_w base p = Ret (Kurv.Returns 0, g)
    /\ Kurv.g_files g = [priv; pub]
    /\ Kurv.find_key_in_file (fresh 32) (fopen_on (o_data (c_stream priv)))
         (fresh 44) q
       = (0, random, fopen_on [NL], b64_encode random, q)
    /\ Kurv.find_key_in_file (fresh 32) (fopen_on (o_data (c_stream pub)))
         (fresh 44) q
       = (0, pk, fopen_on [NL], b64_encode pk, q).
Proof.
  intros pk Lr Lk Ls Lp Vs Ds Vp Dp Hn O1 O2.
  rewrite (GenerateFacts.generate_run random base open_w p) by assumption.
  cbv zeta. rewrite O1, O2.
  assert (Load : forall text key,
            len text = 44 -> b64_bad text 32 = false ->
            b64_decode text = key ->
            Kurv.find_key_in_file (fresh 32) (fopen_on (text ++ [NL]))
              (fresh 44) q
            = (0, key, fopen_on [NL], text, q)).
  { intros text key Lt Vt Dt.
    rewrite KurvFacts.find_key_in_file_load by (now rewrite len_fresh).
    cbv zeta. unfold Spec.load_public_key.
    rewrite len_app, Lt. change (len [NL]) with 1.
    change (44 + 1 <? 44) with false. cbn [orb].
    rewrite take_app by (symmetry; exact Lt). rewrite Vt, Dt.
    unfold fread, fopen_on. cbn [f_pending f_broken f_eof f_error snd].
    rewrite take_app, drop_app by (symmetry; exact Lt).
    rewrite Lt. reflexivity. }
  eexists. eexists. eexists.
  split; [reflexivity|]. split; [reflexivity|]. cbn [c_stream o_data].
  split; now apply Load.
Qed.

Lemma generated_keys_load_witness :
  exists g priv pub,
    Kurv.generate (Some Sample.secret_key) Sample.open_any (txt "alice")
      Sample.proc0
    = Ret (Kurv.Returns 0, g)
    /\ Kurv.g_files g = [priv; pub]
    /\ Kurv.find_key_in_file (fresh 32) (fopen_on (o_data (c_stream priv)))
         (fresh 44) Sample.proc0
       = (0, Sample.secret_key, fopen_on [NL], b64_encode Sample.secret_key,
          Sample.proc0)
    /\ Kurv.find_key_in_file (fresh 32) (fopen_on (o_data (c_stream pub)))
         (fresh 44) Sample.proc0
       = (0, crypto_sign_public_key Sample.secret_key, fopen_on [NL],
          b64_encode (crypto_sign_public_key Sample.secret_key),
          Sample.proc0).
Proof.
  assert (Lr : len Sample.secret_key = 32) by reflexivity.
  assert (Lk : len (crypto_sign_public_key Sample.secret_key) = 32)
    by reflexivity.
  assert (Ls : len (b64_encode Sample.secret_key) = 44) by reflexivity.
  assert (Lp : len (b64_encode (crypto_sign_public_key Sample.secret_key))
               = 44) by reflexivity.
  assert (Vs : b64_bad (b64_encode Sample.secret_key) 32 = false)
    by reflexivity.
  assert (Ds : b64_decode (b64_encode Sample.secret_key) = Sample.secret_key)
    by reflexivity.
  assert (Vp : b64_bad (b64_encode
                          (crypto_sign_public_key Sample.secret_key)) 32
               = false) by reflexivity.
  assert (Dp : b64_decode (b64_encode
                             (crypto_sign_public_key Sample.secret_key))
               = crypto_sign_public_key Sample.secret_key) by reflexivity.
  assert (Hn : ~ In x00 (txt "alice")).
  { cbn. intros H. repeat (destruct H as [H|H]; [discriminate H|]). exact H. }
  exact (generated_keys_load Sample.secret_key (txt "alice") Sample.open_any
           Sample.proc0 Sample.proc0 Lr Lk Ls Lp Vs Ds Vp Dp Hn eq_refl
           eq_refl).
Defined.

(** X19.  [generate] when a file cannot be created.  If the private key
    file cannot be created, the process exits with status 1 after the
    diagnostics [open] and [cannot write private key] and no file exists;
    the raw keys have been zeroed, but the array [b64_sk] still holds the 44
    characters of the encoded secret key.  If only the public key file
    cannot be created, the process exits with status 1 in the same way, the
    private key file stays in place, and [b64_sk] has been zeroed. *)
Theorem generate_cannot_create {B64 : Base64} {MC : Monocypher}
    (random base : bytes) (open_w : bytes -> Z -> option bool)
    (p : Kurv.proc) :
  let pk := crypto_sign_public_key random in
  let failed (what : bytes) :=
    Kurv.mkproc (Kurv.stdout p) (Kurv.stderr p ++ [txt "open"; what]) in
  len random = 32 -> len pk = 32 ->
  len (b64_encode random) = 44 -> len (b64_encode pk) = 44 ->
  ~ In x00 base ->
  (open_w (base ++ txt ".priv") 416 = None ->
   Kurv.generate (Some random) open_w base p
   = Ret (Kurv.Exits 1,
          Kurv.mk_generated (failed (txt "cannot write private key")) []
            (Kurv.mk_key_arrays (repeat x00 32) (repeat x00 32)
               (b64_encode random) (b64_encode pk))))
  /\ (open_w (base ++ txt ".priv") 416 = Some true ->
      open_w (base ++ txt ".pub") 420 = None ->
      Kurv.generate (Some random) open_w base p
      = Ret (Kurv.Exits 1,
             Kurv.mk_generated (failed (txt "cannot write public key"))
               [ mkcreated (base ++ txt ".priv") 416
                   (mkOFILE (b64_encode random ++ [NL]) true) ]
               (Kurv.mk_key_arrays (repeat x00 32) (repeat x00 32)
                  (repeat x00 44) (b64_encode pk)))).
Proof.
  intros pk failed Lr Lk Ls Lp Hn.
  rewrite (GenerateFacts.generate_run random base open_w p) by assumption.
  cbv zeta. split.
  - intros O1. rewrite O1. unfold failed, Kurv.err.
    cbn [Kurv.stdout Kurv.stderr]. now rewrite <- app_assoc.
  - intros O1 O2. rewrite O1, O2. unfold failed, Kurv.err.
    cbn [Kurv.stdout Kurv.stderr]. now rewrite <- app_assoc.
Qed.

Lemma generate_cannot_create_witness :
  Kurv.generate (Some Sample.secret_key) Sample.open_none (txt "alice")
    Sample.proc0
  = Ret (Kurv.Exits 1,
         Kurv.mk_generated
           (Kurv.mkproc Sample.out0
              ([] ++ [txt "open"; txt "cannot write private key"])) []
           (Kurv.mk_key_arrays (repeat x00 32) (repeat x00 32)
              Sample.key_text
              (b64_encode (crypto_sign_public_key Sample.secret_key)))).
Proof.
  assert (Lr : len Sample.secret_key = 32) by reflexivity.
  assert (Lk : len (crypto_sign_public_key Sample.secret_key) = 32)
    by reflexivity.
  assert (Ls : len (b64_encode Sample.secret_key) = 44) by reflexivity.
  assert (Lp : len (b64_encode (crypto_sign_public_key Sample.secret_key))
               = 44) by reflexivity.
  assert (Hn : ~ In x00 (txt "alice")).
  { cbn. intros H. repeat (destruct H as [H|H]; [discriminate H|]). exact H. }
  exact (proj1 (generate_cannot_create Sample.secret_key (txt "alice")
                  Sample.open_none Sample.proc0 Lr Lk Ls Lp Hn) eq_refl).
Defined.

(** ** Names and paths *)

(** X20.  [fopen_warn] warns exactly when the file name does not end in the
    suffix expected of it, [.priv] for a private key file and [.pub] for a
    public key file; it writes one line on standard error and nothing
    else, and never stops the run. *)
Theorem fopen_warn_iff (fn : bytes) (is_priv : bool) (p : Kurv.proc) :
  let suffix := if is_priv then txt ".priv" else txt ".pub" in
  (Spec.has_suffix suffix fn -> Kurv.fopen_warn fn is_priv p = p)
  /\ (~ Spec.has_suffix suffix fn ->
      exists warning,
        Kurv.fopen_warn fn is_priv p
        = Kurv.mkproc (Kurv.stdout p) (Kurv.stderr p ++ [warning])).
Proof.
  cbv zeta. unfold Kurv.fopen_warn.
  pose proof (KeyringFacts.endswith_suffix fn
                (if is_priv then txt ".priv" else txt ".pub")) as E.
  destruct (Z.eqb_spec
              (Kurv.endswith fn (if is_priv then txt ".priv" else txt ".pub"))
              0) as [H0|H0]; cbn [negb].
  - split; [reflexivity|]. intros Hno. exfalso. apply Hno. now apply E.
  - split.
    + intros Hs. exfalso. apply H0. now apply E.
    + intros _. destruct is_priv; eexists; reflexivity.
Qed.

(** X21.  The diagnostic with which ichi-sign names the key that matched in
    the keyring always puts a slash between the directory and the file name:
    the character it tests is the one at index [strlen(keyring_dir)], the
    terminating NUL, so a directory given with a trailing slash is printed
    with two. *)
Theorem good_signature_by_always_slash (keyring_dir name : bytes) :
  Ichi.good_signature_by keyring_dir name
  = txt "good signature by '" ++ keyring_dir ++ txt "/" ++ name ++ txt "'".
Proof.
  unfold Ichi.good_signature_by.
  rewrite NameFacts.char_at_end.
  change (Byte.eqb x00 x2f) with false.
  reflexivity.
Qed.

(** X22.  kurv opens the candidate [NAME] of the keyring directory [DIR] at
    the path [DIR/NAME]: [check_keyring] scans with the path prefix [DIR]
    itself when [DIR] ends in a slash, and with [DIR] followed by one slash
    when it does not. *)
Theorem kurv_keyring_path {B64 : Base64} {MC : Monocypher} (w : world)
    (m b64 kd : bytes) (dir : DIR) (id og : bool) (p : Kurv.proc) :
  len b64 = 88 -> b64_bad b64 64 = false ->
  getenv w (txt "KURV_KEYRING") = Some kd -> len kd <> 0 ->
  opendir w kd = Some dir ->
  let signed := m ++ Kurv.SIG_START ++ b64 ++ Kurv.SIG_END in
  let scan (path : bytes) :=
    Ret (Kurv.keyring_scan w path signed (len m) (b64_decode b64) id og dir
           p) in
  (Spec.has_suffix (txt "/") kd ->
   Kurv.check_keyring w (fopen_on signed) id og p = scan kd)
  /\ (~ Spec.has_suffix (txt "/") kd ->
      Kurv.check_keyring w (fopen_on signed) id og p
      = scan (kd ++ txt "/")).
Proof.
  intros Lb Hv Hg Hl Ho signed scan.
  unfold signed, scan.
  rewrite (OperationFacts.check_keyring_layout w m b64 kd dir)
    by assumption.
  pose proof (NameFacts.last_char_slash kd Hl) as E.
  destruct (Byte.eqb (char_at kd (len kd - 1)) x2f); cbn [negb].
  - split; [reflexivity|]. intros Hno. exfalso. apply Hno. now apply E.
  - split; [|reflexivity]. intros Hs. apply E in Hs. discriminate Hs.
Qed.

Lemma kurv_keyring_path_witness :
  Kurv.check_keyring Sample.keys_world (fopen_on Sample.kurv_good) true true
    Sample.proc0
  = Ret (Kurv.keyring_scan Sample.keys_world (txt "/keys" ++ txt "/")
           Sample.kurv_good (len Sample.message)
           (b64_decode Sample.good_text) true true Sample.kurv_keyring
           Sample.proc0).
Proof.
  assert (Lb : len Sample.good_text = 88) by reflexivity.
  assert (Hv : b64_bad Sample.good_text 64 = false) by reflexivity.
  assert (Hg : getenv Sample.keys_world (txt "KURV_KEYRING")
               = Some (txt "/keys")) by reflexivity.
  assert (Hl : len (txt "/keys") <> 0) by discriminate.
  assert (Ho : opendir Sample.keys_world (txt "/keys")
               = Some Sample.kurv_keyring) by reflexivity.
  apply (proj2 (kurv_keyring_path Sample.keys_world Sample.message
                  Sample.good_text (txt "/keys") Sample.kurv_keyring true
                  true Sample.proc0 Lb Hv Hg Hl Ho)).
  intros (stem & H). apply (f_equal (@rev byte)) in H.
  rewrite rev_app_distr in H. discriminate H.
Defined.

(** ** Signing with a key that does not load *)

(** X23.  When the private key file does not hold 44 characters that the
    codec decodes to 32 bytes, [sign] of kurv exits with status 1 after the
    diagnostic [invalid private key.] (preceded by the read diagnostic when
    the file is shorter than 44 bytes); whatever the stream of the message
    holds and however it fails, it has not been read and nothing has been
    written on standard output; and whatever the array of the raw key held
    when the function was entered, the function leaves it zeroed. *)
Theorem kurv_sign_invalid_key {B64 : Base64} {MC : Monocypher} (fp : FILE)
    (kf sk : bytes) (p : Kurv.proc) :
  len sk = 32 ->
  Spec.load_public_key (Some kf) = None ->
  Kurv.sign fp (fopen_on kf) sk p
  = Ret (Kurv.Exits 1,
         Kurv.mkproc (Kurv.stdout p)
           (Kurv.stderr p
            ++ (if len kf <? 44 then [txt "kurv: fread"] else [])
            ++ [txt "invalid private key."]),
         repeat x00 32).
Proof.
  intros Lsk Hload. unfold Kurv.sign.
  rewrite KurvFacts.find_key_in_file_load by (now rewrite len_fresh).
  cbv zeta. rewrite Hload.
  rewrite <- (crypto_wipe_len sk 32 Lsk).
  destruct (len kf <? 44); cbn [Z.eqb Pos.eqb]; unfold Kurv.die, Kurv.err;
    cbn [Kurv.stdout Kurv.stderr]; rewrite <- ?app_assoc; reflexivity.
Qed.

Lemma kurv_sign_invalid_key_witness :
  len Sample.secret_key = 32
  /\ Spec.load_public_key (Some (txt "not a key")) = None
  /\ Kurv.sign (mkFILE Sample.message true false false)
       (fopen_on (txt "not a key")) Sample.secret_key Sample.proc0
     = Ret (Kurv.Exits 1,
            Kurv.mkproc Sample.out0
              ([] ++ [txt "kurv: fread"] ++ [txt "invalid private key."]),
            repeat x00 32).
Proof.
  split; [reflexivity|]. split; [reflexivity|].
  exact (kurv_sign_invalid_key (mkFILE Sample.message true false false)
           (txt "not a key") Sample.secret_key Sample.proc0 eq_refl eq_refl).
Defined.

(** ** The two programs as a whole *)

(** X24.  The only undefined behaviour that [main] of ichi-sign can reach is
    the call of [dirfd] on the NULL that a failed [opendir] of the keyring
    directory returned.  Where opening a file for writing leaves the
    environment as it is and makes no directory unreadable, a run of [main]
    that is undefined is a call on a NULL stream, the command line has
    [-V], and the surroundings [main] started in name a keyring directory
    that cannot be opened.  In particular a detached verification is never
    started without its signature stream, [-s] leaving the loop when the
    file cannot be opened, and no operation reads outside the buffer that
    [fp_to_buf] returned. *)
Theorem ichi_main_undefined_only_by_keyring {B64 : Base64} {MC : Monocypher}
    (fopen_w : world -> bytes -> option (OFILE * world)) (w : world)
    (stdin : FILE) (stdout : OFILE) (opts : list (ascii * bytes))
    (operands : list bytes) (f : fault) :
  (forall w0 fn o w1, fopen_w w0 fn = Some (o, w1) ->
     forall x, getenv w1 x = getenv w0 x
               /\ (opendir w1 x = None -> opendir w0 x = None)) ->
  Ichi.main fopen_w w stdin stdout opts operands = Undef f ->
  f = NullStream
  /\ (exists optarg, In ("V"%char, optarg) opts)
  /\ exists kd,
       getenv w (txt "ICHI_SIGN_KEYRING") = Some kd /\ opendir w kd = None.
Proof.
  apply IchiMainFacts.ichi_main_undef.
Qed.

Lemma ichi_main_undefined_only_by_keyring_witness :
  Ichi.main Sample.create_any Sample.missing_keyring
    (fopen_on Sample.ichi_good) Sample.out0
    [("o"%char, txt "out"); ("V"%char, [])] []
  = Undef NullStream
  /\ (exists optarg,
        In ("V"%char, optarg) [("o"%char, txt "out"); ("V"%char, [])])
  /\ exists kd,
       getenv Sample.missing_keyring (txt "ICHI_SIGN_KEYRING") = Some kd
       /\ opendir Sample.missing_keyring kd = None.
Proof.
  assert (Hkeep : forall w0 fn o w1,
            Sample.create_any w0 fn = Some (o, w1) ->
            forall x, getenv w1 x = getenv w0 x
                      /\ (opendir w1 x = None -> opendir w0 x = None)).
  { intros w0 fn o w1 [= _ <-] x. split; [reflexivity | exact (fun H => H)]. }
  assert (H : Ichi.main Sample.create_any Sample.missing_keyring
                (fopen_on Sample.ichi_good) Sample.out0
                [("o"%char, txt "out"); ("V"%char, [])] []
              = Undef NullStream) by reflexivity.
  split; [exact H|].
  exact (proj2 (ichi_main_undefined_only_by_keyring Sample.create_any
                  Sample.missing_keyring (fopen_on Sample.ichi_good)
                  Sample.out0 [("o"%char, txt "out"); ("V"%char, [])] []
                  NullStream Hkeep H)).
Defined.

(** X25.  ichi-sign writes on its output only when asked to.  On a command
    line that has none of the options [-k], [-T], [-x] and [-h], whatever
    else it holds and whatever the files hold, [main] returns with standard
    output as it found it and with the output file, when [-o] named one, as
    [fopen] created it: verification alone writes nothing. *)
Theorem ichi_main_writes_on_request {B64 : Base64} {MC : Monocypher}
    (fopen_w : world -> bytes -> option (OFILE * world)) (w : world)
    (stdin : FILE) (stdout : OFILE) (opts : list (ascii * bytes))
    (operands : list bytes) :
  (forall c optarg, In (c, optarg) opts ->
     c <> "k"%char /\ c <> "T"%char /\ c <> "x"%char /\ c <> "h"%char) ->
  match Ichi.main fopen_w w stdin stdout opts operands with
  | Ret r =>
      Ichi.r_stdout r = stdout
      /\ forall f, Ichi.r_output r = Some f ->
           exists w0 fn w1, fopen_w w0 fn = Some (f, w1)
  | Undef _ => True
  end.
Proof.
  intros Hall.
  exact (IchiMainFacts.ichi_main_quiet fopen_w w stdin stdout opts operands
           Hall).
Qed.

Lemma ichi_main_writes_on_request_witness :
  match Ichi.main Sample.create_any Sample.keys_world
          (fopen_on Sample.ichi_good) Sample.out0
          [("V"%char, []); ("o"%char, txt "out"); ("p"%char, txt "pk")] []
  with
  | Ret r =>
      Ichi.r_stdout r = Sample.out0
      /\ forall f, Ichi.r_output r = Some f ->
           exists w0 fn w1, Sample.create_any w0 fn = Some (f, w1)
  | Undef _ => True
  end.
Proof.
  apply (ichi_main_writes_on_request Sample.create_any Sample.keys_world
           (fopen_on Sample.ichi_good) Sample.out0
           [("V"%char, []); ("o"%char, txt "out"); ("p"%char, txt "pk")] []).
  intros c optarg [E|[E|[E|[]]]]; injection E as <- _;
    repeat split; discriminate.
Defined.



(** X27.  kurv writes on standard output only when asked to.  On a command
    line that has none of the options [-h], [-s], [-d], [-i] and [-o],
    whatever else it holds and whatever the files hold, [main] ends with
    standard output as it found it: generating keys and checking a
    signature print nothing there. *)
Theorem kurv_main_writes_on_request {B64 : Base64} {MC : Monocypher}
    (w : world) (stdin : FILE) (stdout : OFILE) (getrandom : option bytes)
    (open_w : bytes -> Z -> option bool) (opts : list (ascii * bytes))
    (e : Kurv.ended) :
  (forall c optarg, In (c, optarg) opts ->
     c <> "h"%char /\ c <> "s"%char /\ c <> "d"%char /\ c <> "i"%char
     /\ c <> "o"%char) ->
  Kurv.main w stdin stdout getrandom open_w opts = Ret e ->
  Kurv.stdout (Kurv.e_proc e) = stdout.
Proof.
  intros Hall H.
  exact (KurvMainFacts.kurv_main_quiet w stdin stdout getrandom open_w opts e
           Hall H).
Qed.

Lemma kurv_main_writes_on_request_witness :
  Kurv.stdout
    (Kurv.e_proc
       (Kurv.mk_ended 0 (Kurv.mkproc Sample.out0 [txt "kurv: fread"]) []))
  = Sample.out0.
Proof.
  assert (H : Kurv.main Sample.keys_world (fopen_on Sample.kurv_good)
                Sample.out0 None Sample.open_none [("c"%char, txt "-")]
              = Ret (Kurv.mk_ended 0
                       (Kurv.mkproc Sample.out0 [txt "kurv: fread"]) []))
    by reflexivity.
  assert (Hall : forall c optarg,
            In (c, optarg) [("c"%char, txt "-")] ->
            c <> "h"%char /\ c <> "s"%char /\ c <> "d"%char /\ c <> "i"%char
            /\ c <> "o"%char).
  { intros c optarg [E|[]]. injection E as <- _. repeat split; discriminate. }
  exact (kurv_main_writes_on_request Sample.keys_world
           (fopen_on Sample.kurv_good) Sample.out0 None Sample.open_none
           [("c"%char, txt "-")] _ Hall H).
Defined.

(** ** Keys *)

(** X28.  In keyring mode [verify] of ichi-sign never looks at the public
    key or at the key file name of its context, the two fields that [main]
    leaves unset unless [-p] is given: two contexts that differ in them only
    give the same result. *)
Theorem verify_keyring_ignores_key {B64 : Base64} {MC : Monocypher}
    (w : world) (input : FILE) (output : OFILE) (sig : option FILE)
    (pk_fn pk pk_fn' pk' : bytes) (detached x : bool) (err : log) :
  Ichi.verify w
    (Ichi.mk_verify_ctx input output sig pk_fn pk detached true x) err
  = Ichi.verify w
      (Ichi.mk_verify_ctx input output sig pk_fn' pk' detached true x) err.
Proof.
  assert (Resolve : forall msg n s e,
            Ichi.verify_resolve w
              (Ichi.mk_verify_ctx input output sig pk_fn pk detached true x)
              msg n s e
            = Ichi.verify_resolve w
                (Ichi.mk_verify_ctx input output sig pk_fn' pk' detached true
                   x) msg n s e).
  { intros msg n s e. unfold Ichi.verify_resolve, Ichi.verify_keyring.
    cbn [Ichi.v_keyring Ichi.v_output].
    destruct (getenv w _) as [kd|]; [|reflexivity].
    destruct (opendir w kd) as [dir|]; [|reflexivity].
    cbn [dirfd bind Z.ltb Z.compare].
    now rewrite !KeyringFacts.ichi_scan_search. }
  unfold Ichi.verify.
  cbn [Ichi.v_input Ichi.v_output Ichi.v_detached Ichi.v_sig].
  destruct (Ichi.fp_to_buf input err) as [[[msg n]|] e1]; [|reflexivity].
  destruct detached.
  - destruct sig as [sfp|]; [|reflexivity].
    destruct (Ichi.sig_from_file sfp (fresh 64) e1) as [[[r s1] fp'] e2].
    destruct (negb (r =? 0)); [reflexivity | apply Resolve].
  - destruct (Ichi.sig_from_buf (fresh 64) n msg n) as [[[r s1] n1]|];
      [|reflexivity].
    cbn [bind]. destruct (negb (r =? 0)); [reflexivity | apply Resolve].
Qed.

(** X29.  The key loader of ichi-sign, [read_key_from_file], returns 0
    exactly when the file can be opened and starts with 44 characters that
    the codec accepts as 32 bytes, and then gives their decoding, whatever
    follows them in the file; on every failure it reports one diagnostic
    ([fopen()], [fread()] or [malformed key]) and leaves the caller's key as
    it was; and on every path, success included, it returns with its array
    of encoded text zeroed. *)
Theorem ichi_key_loader {B64 : Base64} (w : world) (fn key b64_key : bytes)
    (err : log) :
  len b64_key = 44 ->
  Ichi.read_key_from_file w fn key b64_key err
  = match fopen_r w fn with
    | None => (1, key, repeat x00 44, Ichi.ERR err (txt "fopen()"))
    | Some c =>
        if len c <? 44
        then (1, key, repeat x00 44, Ichi.ERR err (txt "fread()"))
        else if b64_bad (take 44 c) 32
        then (1, key, repeat x00 44, Ichi.ERR err (txt "malformed key"))
        else (0, b64_decode (take 44 c), repeat x00 44, err)
    end.
Proof.
  intros Lb. unfold Ichi.read_key_from_file, Ichi._read, Ichi.B64_KEY_SIZE.
  destruct (fopen_r w fn) as [c|];
    [|now rewrite (crypto_wipe_len b64_key 44)].
  destruct (FreadFacts.fread_cases 44 c false false ltac:(lia))
    as [(Hs & R)|(Hs & Ht & R)]; unfold fopen_on; rewrite R.
  - destruct (Z.eqb_spec (len c) 44); [lia|]. cbn [negb Z.eqb].
    destruct (Z.ltb_spec (len c) 44); [|lia].
    rewrite (crypto_wipe_len (store c b64_key) 44); [reflexivity|].
    rewrite len_store by lia. exact Lb.
  - rewrite Ht, Z.eqb_refl. cbn [negb Z.eqb].
    destruct (Z.ltb_spec (len c) 44); [lia|].
    rewrite (store_whole (take 44 c)) by lia.
    rewrite take_take by lia.
    rewrite (crypto_wipe_len (take 44 c) 44) by exact Ht.
    now destruct (b64_bad (take 44 c) 32).
Qed.

Lemma ichi_key_loader_witness :
  Ichi.read_key_from_file (Sample.file_world Sample.pub_file) (txt "pk")
    (fresh 32) (fresh 44) []
  = (0, Sample.public_key, repeat x00 44, []).
Proof.
  assert (Lb : len (fresh 44) = 44) by reflexivity.
  exact (ichi_key_loader (Sample.file_world Sample.pub_file) (txt "pk")
           (fresh 32) (fresh 44) [] Lb).
Defined.

(** ** Writing to an output that refuses data *)

(** X30.  kurv does not notice a failed write.  When standard output
    accepts no data, [sign], given a private key file that loads, still
    returns 0, and so does [detach] on a well-formed signed file: none of
    the [fwrite] calls is tested, nothing has been written, and no
    diagnostic is printed. *)
Theorem kurv_ignores_write_failure {B64 : Base64} {MC : Monocypher}
    (m kf sk sk0 b64 : bytes) (p : Kurv.proc) :
  o_ok (Kurv.stdout p) = false ->
  Spec.load_public_key (Some kf) = Some sk ->
  len b64 = 88 -> b64_bad b64 64 = false ->
  Kurv.sign (fopen_on m) (fopen_on kf) sk0 p
  = Ret (Kurv.Returns 0, p, crypto_wipe sk)
  /\ Kurv.detach (fopen_on (m ++ Kurv.SIG_START ++ b64 ++ Kurv.SIG_END)) p
     = Ret (Kurv.Returns 0, p).
Proof.
  intros Hok Hk Lb Hv. split.
  - rewrite (OperationFacts.kurv_sign_reaches_output m kf sk) by assumption.
    unfold Kurv.sign_output.
    now rewrite !(KeyringFacts.put_broken p) by assumption.
  - unfold Kurv.detach. rewrite KurvFacts.read_file_sound. cbn [bind].
    rewrite KurvFacts.find_signature_layout by assumption.
    rewrite Hv. cbn [bind Z.ltb Z.compare].
    now rewrite (KeyringFacts.put_broken p) by assumption.
Qed.

Lemma kurv_ignores_write_failure_witness :
  Kurv.sign (fopen_on Sample.message) (fopen_on Sample.key_file) (fresh 32)
    (Kurv.mkproc (mkOFILE [] false) [])
  = Ret (Kurv.Returns 0, Kurv.mkproc (mkOFILE [] false) [],
         crypto_wipe Sample.secret_key)
  /\ Kurv.detach (fopen_on Sample.kurv_good)
       (Kurv.mkproc (mkOFILE [] false) [])
     = Ret (Kurv.Returns 0, Kurv.mkproc (mkOFILE [] false) []).
Proof.
  assert (Hk : Spec.load_public_key (Some Sample.key_file)
               = Some Sample.secret_key) by reflexivity.
  assert (Lb : len Sample.good_text = 88) by reflexivity.
  assert (Hv : b64_bad Sample.good_text 64 = false) by reflexivity.
  exact (kurv_ignores_write_failure Sample.message Sample.key_file
           Sample.secret_key (fresh 32) Sample.good_text
           (Kurv.mkproc (mkOFILE [] false) []) eq_refl Hk Lb Hv).
Defined.
